(** * FineTuning-and-Inference-NLP: the experiment pipeline of the notebooks

    A shallow embedding of the logic of [task1.ipynb] and [task2.ipynb]:
    the stratified train/test split, the training configuration handed to
    the trainer, and the zero-shot inference harness that turns generated
    text into a binary label, followed by the properties proved about them.

    Conventions.
    - A Python [str] is a list of Unicode code points ([pystr]).
    - A Python exception is a value [Raise e] of the [result] type.
    - A Python float is the rational number it stands for.  The product
      [test_size * n_samples], whose ceiling is the size of the test part,
      is rounded to binary64 as Python rounds it ([PyFloat.binary64],
      [PyFloat.float_mul]); the class shares inside [_approximate_mode]
      and the accuracy are kept as exact ratios.
    - The three library capabilities the notebooks call are written out
      after the libraries' algorithms, what they leave open staying a
      parameter:
      the text-generation pipeline returns the prompt followed by what the
      model appends (the model is a parameter);
      scikit-learn's [train_test_split] with [stratify] is
      [_validate_shuffle_split], [StratifiedShuffleSplit._iter_indices] and
      [_approximate_mode] (numpy's generator is a parameter, of which only
      that [permutation(n)] rearranges [range(n)] is used);
      the [Trainer] is its loop over the epochs, [_save_checkpoint],
      [_rotate_checkpoints], [_sorted_checkpoints] and [_load_best_model]
      (the weights, an epoch of optimisation, the evaluation loss, the
      release of the library and the checkpoints that the output directory
      already holds are parameters). *)

From Stdlib Require Import Ascii String.
From Stdlib Require Import List Bool Arith ZArith NArith QArith Qround Lia Permutation Sorted SetoidList.
Import ListNotations.
Close Scope Q_scope.
Open Scope nat_scope.

(* ===================================================================== *)
(** * Part I. Definitions                                                  *)
(* ===================================================================== *)

(** ** Python exceptions *)

Inductive exn : Type :=
| ValueError (msg : string)
| KeyError (key : string)
| IndexError
| ZeroDivisionError.

Inductive result (A : Type) : Type :=
| Ok (a : A)
| Raise (e : exn).

Arguments Ok {A} a.
Arguments Raise {A} e.

Definition bind {A B : Type} (r : result A) (k : A -> result B) : result B :=
  match r with
  | Ok a => k a
  | Raise e => Raise e
  end.

Declare Scope py_scope.
Delimit Scope py_scope with py.
Notation "x <- c ;; k" := (bind c (fun x => k))
  (at level 61, c at next level, right associativity) : py_scope.

(** [[f(x) for x in xs]] where [f] may raise: the first exception wins. *)
Fixpoint mapM {A B : Type} (f : A -> result B) (xs : list A) : result (list B) :=
  match xs with
  | [] => Ok []
  | x :: xs' =>
      (y <- f x ;; ys <- mapM f xs' ;; Ok (y :: ys))%py
  end.

Definition is_ok {A : Type} (r : result A) : bool :=
  match r with Ok _ => true | Raise _ => false end.

(** ** Python strings *)

Module PyStr.

Definition char := N.
Definition pystr := list char.

(** Decoding of the UTF-8 bytes of a source literal into code points. *)
Fixpoint utf8_decode (bs : list N) : pystr :=
  match bs with
  | [] => []
  | b0 :: r0 =>
      if (b0 <? 128)%N then b0 :: utf8_decode r0
      else
        match r0 with
        | [] => [b0]
        | b1 :: r1 =>
            if (b0 <? 224)%N
            then ((b0 - 192) * 64 + (b1 - 128))%N :: utf8_decode r1
            else
              match r1 with
              | [] => [b0; b1]
              | b2 :: r2 =>
                  if (b0 <? 240)%N
                  then ((b0 - 224) * 4096 + (b1 - 128) * 64 + (b2 - 128))%N
                         :: utf8_decode r2
                  else
                    match r2 with
                    | [] => [b0; b1; b2]
                    | b3 :: r3 =>
                        ((b0 - 240) * 262144 + (b1 - 128) * 4096
                         + (b2 - 128) * 64 + (b3 - 128))%N
                          :: utf8_decode r3
                    end
              end
        end
  end.

(** The literal [s] of the notebook as a Python string. *)
Definition u (s : string) : pystr :=
  utf8_decode (map N_of_ascii (list_ascii_of_string s)).

(** A one-character literal. *)
Definition ch (a : ascii) : char := N_of_ascii a.

Definition newline : pystr := [10%N].

(** [s[:n]] *)
Definition slice_to (n : nat) (s : pystr) : pystr := firstn n s.

(** [s.startswith(p)] *)
Fixpoint startswith (p s : pystr) : bool :=
  match p, s with
  | [], _ => true
  | _ :: _, [] => false
  | a :: p', b :: s' => (a =? b)%N && startswith p' s'
  end.

(** [needle in hay], the substring test. *)
Fixpoint str_in (needle hay : pystr) : bool :=
  startswith needle hay
  || match hay with
     | [] => false
     | _ :: hay' => str_in needle hay'
     end.

(** [c.isspace()] for one code point. *)
Definition isspace (c : char) : bool :=
  ((9 <=? c) && (c <=? 13) || (28 <=? c) && (c <=? 32)
   || (c =? 133) || (c =? 160) || (c =? 5760)
   || (8192 <=? c) && (c <=? 8202)
   || (c =? 8232) || (c =? 8233) || (c =? 8239) || (c =? 8287)
   || (c =? 12288))%N.

Fixpoint lstrip (s : pystr) : pystr :=
  match s with
  | [] => []
  | c :: s' => if isspace c then lstrip s' else s
  end.

Definition rstrip (s : pystr) : pystr := rev (lstrip (rev s)).

(** [s.strip()] *)
Definition strip (s : pystr) : pystr := rstrip (lstrip s).

(** [tmpl.format(text=text)]: [{{] and [}}] are escapes, [{text}] is
    replaced by the argument, any other field name has no argument to
    bind ([KeyError], or [IndexError] for a positional field), and an
    unmatched brace is a [ValueError].  Conversions and format
    specifications ([{text!r}], [{text:>9}]) are not used by the
    notebooks and are read as part of the field name. *)
Definition lbrace : char := 123%N.
Definition rbrace : char := 125%N.

Definition is_positional (name : pystr) : bool :=
  forallb (fun c => (48 <=? c) && (c <=? 57))%N name.

Definition lookup_field (name text : pystr) : result pystr :=
  if is_positional name then Raise IndexError
  else if list_eq_dec N.eq_dec name (u "text") then Ok text
  else Raise (KeyError "field").

Fixpoint format_out (tmpl text : pystr) {struct tmpl} : result pystr :=
  match tmpl with
  | [] => Ok []
  | c :: r =>
      if (c =? lbrace)%N then
        match r with
        | [] => Raise (ValueError "Single '{' encountered in format string")
        | c' :: r' =>
            if (c' =? lbrace)%N
            then (s <- format_out r' text ;; Ok (lbrace :: s))%py
            else format_field r [] text
        end
      else if (c =? rbrace)%N then
        match r with
        | [] => Raise (ValueError "Single '}' encountered in format string")
        | c' :: r' =>
            if (c' =? rbrace)%N
            then (s <- format_out r' text ;; Ok (rbrace :: s))%py
            else Raise (ValueError "Single '}' encountered in format string")
        end
      else (s <- format_out r text ;; Ok (c :: s))%py
  end
with format_field (tmpl name text : pystr) {struct tmpl} : result pystr :=
  match tmpl with
  | [] => Raise (ValueError "expected '}' before end of string")
  | c :: r =>
      if (c =? rbrace)%N then
        (v <- lookup_field (rev name) text ;;
         s <- format_out r text ;;
         Ok (v ++ s))%py
      else if (c =? lbrace)%N
      then Raise (ValueError "unexpected '{' in field name")
      else format_field r (c :: name) text
  end.

Definition format (tmpl text : pystr) : result pystr := format_out tmpl text.

End PyStr.
Import PyStr.

(** ** Python floats *)

Module PyFloat.

(** [num / den] rounded to the nearest integer, a tie to the even one
    ([den > 0]). *)
Definition round_half_even (num den : Z) : Z :=
  let q := (num / den)%Z in
  let r := (num mod den)%Z in
  match (2 * r ?= den)%Z with
  | Lt => q
  | Gt => (q + 1)%Z
  | Eq => if Z.even q then q else (q + 1)%Z
  end.

(** [floor(log2(a / b))] for positive [a] and [b]. *)
Definition ilog2 (a b : Z) : Z :=
  let d := (Z.log2 a - Z.log2 b)%Z in
  if (if 0 <=? d then 2 ^ d * b <=? a else b <=? 2 ^ (- d) * a)%Z
  then d else (d - 1)%Z.

(** The exponent of the last of the 53 bits of the binary64 numbers
    around [a / b]; it stops at -1074, where the subnormal numbers are. *)
Definition ulp_exponent (a b : Z) : Z := Z.max (ilog2 a b - 52) (-1074).

Definition round_positive (a b : Z) : Q :=
  let e := ulp_exponent a b in
  if (0 <=? e)%Z
  then inject_Z (round_half_even a (2 ^ e * b) * 2 ^ e)
  else Qmake (round_half_even (2 ^ (- e) * a) b) (Z.to_pos (2 ^ (- e))).

(** The binary64 number nearest to [x], a tie to the even mantissa: the
    value of a float literal, and the rounding of every float operation.
    (No overflow: the numbers met here are lengths and fractions of
    lengths, far below [2**1024].) *)
Definition binary64 (x : Q) : Q :=
  match Qnum x with
  | Z0 => 0%Q
  | Zpos _ => round_positive (Qnum x) (Zpos (Qden x))
  | Zneg _ => (- round_positive (- Qnum x) (Zpos (Qden x)))%Q
  end.

(** [a * b] and [a + b] on floats.  The operands are floats: one that is
    given as a rational which is not a binary64 number stands for the
    float nearest to it, as a literal does; a float is left as it is
    ([binary64_idempotent], [float_mul_floats]). *)
Definition float_mul (a b : Q) : Q := binary64 (binary64 a * binary64 b).

Definition float_add (a b : Q) : Q := binary64 (binary64 a + binary64 b).

(** [float(n)], the conversion of the int operand of a mixed product. *)
Definition float_of_int (n : Z) : Q := binary64 (inject_Z n).

(** [a / b < 2 ^ k], whatever the sign of [k]. *)
Definition below_pow (a b k : Z) : Prop :=
  if (0 <=? k)%Z then (a < 2 ^ k * b)%Z else (2 ^ (- k) * a < b)%Z.

(** [a / b = m * 2 ^ e], whatever the sign of [e]. *)
Definition is_scaled (a b m e : Z) : Prop :=
  if (0 <=? e)%Z then (a = m * 2 ^ e * b)%Z else (2 ^ (- e) * a = m * b)%Z.

(** The number [m * 2 ^ e]. *)
Definition scaled (m e : Z) : Q :=
  if (0 <=? e)%Z then inject_Z (m * 2 ^ e) else Qmake m (Z.to_pos (2 ^ (- e))).

End PyFloat.
Import PyFloat.

(** ** The data model: rows of the speech tables *)

(** One row of [orientation-tr-train.tsv] / [power-tr-train.tsv]. *)
Record Row : Type := mkRow {
  id : pystr;
  speaker : pystr;
  sex : pystr;
  text : pystr;
  text_en : pystr;
  label : Z
}.

Definition Dataset := list Row.

(** The string-valued columns a [column_name] argument can select. *)
Inductive column : Type := col_id | col_speaker | col_sex | col_text | col_text_en.

Definition get_col (c : column) (x : Row) : pystr :=
  match c with
  | col_id => id x
  | col_speaker => speaker x
  | col_sex => sex x
  | col_text => text x
  | col_text_en => text_en x
  end.

Definition set_col (c : column) (v : pystr) (x : Row) : Row :=
  match c with
  | col_id => mkRow v (speaker x) (sex x) (text x) (text_en x) (label x)
  | col_speaker => mkRow (id x) v (sex x) (text x) (text_en x) (label x)
  | col_sex => mkRow (id x) (speaker x) v (text x) (text_en x) (label x)
  | col_text => mkRow (id x) (speaker x) (sex x) v (text_en x) (label x)
  | col_text_en => mkRow (id x) (speaker x) (sex x) (text x) v (label x)
  end.

(** ** Zero-shot inference (cells 16-19 of both notebooks) *)

Module ZeroShot.

(** [dataset.map(lambda x: {column_name: x[column_name][:500]})] *)
Definition limit_text_length (dataset : Dataset) (column_name : column) : Dataset :=
  map (fun x => set_col column_name (slice_to 500 (get_col column_name x)) x) dataset.

(** One element of the list the text-generation pipeline returns for a
    prompt. *)
Record generation : Type := { generated_text : pystr }.

(** [range(0, stop, step)] *)
Definition range_step (stop step : nat) : list nat :=
  map (fun k => k * step) (seq 0 ((stop + step - 1) / step)).

(** The slices [ds[i : i + batch_size]] that [Dataset.map(batched=True)]
    hands to its function. *)
Definition batches {A : Type} (batch_size : nat) (ds : list A) : list (list A) :=
  map (fun i => firstn batch_size (skipn i ds)) (range_step (length ds) batch_size).

(** [Dataset.map(f, batched=True, batch_size=n)] for a function that
    returns one new column: the column over the whole dataset.  An empty
    dataset comes back as it is, without the new column. *)
Definition map_batched {A B : Type} (f : list A -> result (list B))
    (batch_size : nat) (ds : list A) : result (option (list B)) :=
  match ds with
  | [] => Ok None
  | _ :: _ => (cols <- mapM f (batches batch_size ds) ;; Ok (Some (concat cols)))%py
  end.

(** [results[name]] for the column that [map] was to add. *)
Definition added_column {B : Type} (name : string) (col : option (list B))
  : result (list B) :=
  match col with
  | Some c => Ok c
  | None => Raise (KeyError name)
  end.

(** [process_predictions]: the label read off each generated string. *)
Fixpoint process_predictions (predictions : list pystr) : list (option Z) :=
  match predictions with
  | [] => []
  | pred :: rest =>
      (if str_in (u "0") pred then Some 0%Z
       else if str_in (u "1") pred then Some 1%Z
       else None) :: process_predictions rest
  end.

Section Pipeline.

(** The generative model: the text it appends to a prompt when allowed
    [max_new_tokens] new tokens. *)
Variable model : pystr -> nat -> pystr.

(** [causal_pipeline(prompts, max_new_tokens=n)]: the text-generation
    pipeline returns, for each prompt, a one-element list whose
    [generated_text] is the prompt followed by the continuation (the
    pipeline is built in cell 16 without [return_full_text=False]). *)
Definition causal_pipeline (prompts : list pystr) (max_new_tokens : nat)
  : list (list generation) :=
  map (fun p => [ {| generated_text := p ++ model p max_new_tokens |} ]) prompts.

(** [output[0]["generated_text"].strip()] *)
Definition first_generated_text (output : list generation) : result pystr :=
  match output with
  | [] => Raise IndexError
  | o :: _ => Ok (strip (generated_text o))
  end.

(** [generate_texts(batch, column_name, prompt_template)] *)
Definition generate_texts (batch : Dataset) (column_name : column)
    (prompt_template : pystr) : result (list pystr) :=
  (prompts <- mapM (fun t => format prompt_template t)
                   (map (get_col column_name) batch) ;;
   let outputs := causal_pipeline prompts 10 in
   mapM first_generated_text outputs)%py.

(** Cells 18 and 19 up to the accuracy: truncate the chosen column,
    generate in batches of 8, extract the labels.  The result holds the
    [predictions] and the [binary_predictions] columns. *)
Definition zero_shot (test : Dataset) (column_name : column)
    (prompt : pystr) : result (list pystr * list (option Z)) :=
  let ds := limit_text_length test column_name in
  (results <-
     map_batched (fun batch => generate_texts batch column_name prompt) 8 ds ;;
   predictions <- added_column "predictions" results ;;
   Ok (predictions, process_predictions predictions))%py.

End Pipeline.

(** The default of the [prompt_template] argument of [generate_texts]. *)
Definition default_prompt_template : pystr := u "Classify the text".

(** The four prompts of the notebooks. *)
Definition task1_turkish_prompt : pystr :=
  u "Aşağıdaki meclis konuşmasına dayanarak, konuşmacının partisinin sol (0) ya da sağ (1) eğilimli olduğunu belirtiniz:"
    ++ newline ++ newline ++ u "{text}" ++ newline ++ newline ++ u "Cevap:".

Definition task1_english_prompt : pystr :=
  u "Based on the following parliamentary speech, classify whether the speaker's party leans left (0) or right (1):"
    ++ newline ++ newline ++ u "{text}" ++ newline ++ newline ++ u "Answer:".

Definition task2_turkish_prompt : pystr :=
  u "Aşağıdaki meclis konuşmasına dayanarak, konuşmacının partisinin hükümette (0) ya da muhalefette (1) olduğunu belirtiniz:"
    ++ newline ++ newline ++ u "{text}" ++ newline ++ newline ++ u "Cevap:".

Definition task2_english_prompt : pystr :=
  u "Based on the following parliamentary speech, classify whether the speaker's party is governing (0) or opposition (1):"
    ++ newline ++ newline ++ u "{text}" ++ newline ++ newline ++ u "Answer:".

Definition notebook_prompts : list pystr :=
  [task1_turkish_prompt; task1_english_prompt;
   task2_turkish_prompt; task2_english_prompt].

(** [binary == label] for an extracted label ([None] or an int) and the
    int label of the row. *)
Definition py_eq (binary : option Z) (lbl : Z) : bool :=
  match binary with
  | None => false
  | Some b => (b =? lbl)%Z
  end.

(** [[binary == label for binary, label in zip(binary_predictions, labels)]] *)
Definition correct_predictions (binary_predictions : list (option Z))
    (labels : list Z) : list bool :=
  map (fun bl => py_eq (fst bl) (snd bl)) (combine binary_predictions labels).

(** [sum(correct)]: [True] counts 1. *)
Definition sum_bool (bs : list bool) : Z :=
  fold_left (fun acc (b : bool) => (acc + if b then 1 else 0)%Z) bs 0%Z.

(** [sum(correct) / len(correct)], Python's true division. *)
Definition accuracy (correct : list bool) : result Q :=
  match length correct with
  | O => Raise ZeroDivisionError
  | n => Ok (inject_Z (sum_bool correct) / inject_Z (Z.of_nat n))%Q
  end.

(** The accuracy lines: the labels are the [label] column of the results. *)
Definition zero_shot_accuracy (binary_predictions : list (option Z))
    (results : Dataset) : result Q :=
  accuracy (correct_predictions binary_predictions (map label results)).

Section Cell.

Variable model : pystr -> nat -> pystr.

(** A whole cell, 18 or 19: the zero-shot accuracy of a test table. *)
Definition zero_shot_cell (test : Dataset) (column_name : column) (prompt : pystr)
  : result Q :=
  (results <- zero_shot model test column_name prompt ;;
   zero_shot_accuracy (snd results) test)%py.

End Cell.

End ZeroShot.

(** ** The stratified split (cell 4 of both notebooks) *)

Module Sklearn.

(** *** numpy's [RandomState], as far as the split draws from it *)

Record Generator : Type := {
  rng : Type;                                   (* the state of a RandomState *)
  RandomState : Z -> rng;                       (* [np.random.RandomState(seed)] *)
  permutation : rng -> nat -> list nat * rng    (* [rng.permutation(n)] *)
}.

(** What numpy documents of [permutation(n)]: a rearrangement of
    [range(n)]. *)
Definition lawful (G : Generator) : Prop :=
  forall (r : rng G) (n : nat), Permutation (fst (permutation G r n)) (seq 0 n).

(** The [random_state] argument: [None] or an int. *)
Inductive random_state_arg : Type :=
| rs_None
| rs_int (seed : Z).

(** A [test_size] / [train_size] argument: [None], an int or a float. *)
Inductive size_arg : Type :=
| size_None
| size_int (n : Z)
| size_float (q : Q).

(** [np.unique]: the sorted distinct values. *)
Fixpoint insert_unique {A : Type} (cmp : A -> A -> comparison) (x : A) (l : list A)
  : list A :=
  match l with
  | [] => [x]
  | h :: t =>
      match cmp x h with
      | Lt => x :: l
      | Eq => l
      | Gt => h :: insert_unique cmp x t
      end
  end.

Definition np_unique {A : Type} (cmp : A -> A -> comparison) (xs : list A) : list A :=
  fold_right (insert_unique cmp) [] xs.

(** [np.min] of a non-empty array. *)
Definition np_min (l : list nat) : result nat :=
  match l with
  | [] => Raise (ValueError "zero-size array to reduction operation minimum")
  | x :: t => Ok (fold_left Nat.min t x)
  end.

(** [np.where(remainder == value)] *)
Definition where_eq (remainder : list Q) (value : Q) : list nat :=
  filter (fun j => Qeq_bool (nth j remainder 0%Q) value) (seq 0 (length remainder)).

(** [floored[inds] += 1] *)
Definition add_one_at (inds : list nat) (floored : list nat) : list nat :=
  map (fun jv => if existsb (Nat.eqb (fst jv)) inds then S (snd jv) else snd jv)
      (combine (seq 0 (length floored)) floored).

(** [a.take(idx, mode="clip")] *)
Definition take_clip (a : list nat) (idx : list nat) : list nat :=
  map (fun j => nth (Nat.min j (length a - 1)) a 0) idx.

(** [data.iloc[idx]]: positional selection of rows. *)
Definition iloc {A : Type} (data : list A) (idx : list nat) : result (list A) :=
  mapM (fun i => match nth_error data i with
                 | Some x => Ok x
                 | None => Raise IndexError
                 end) idx.

(** [_validate_shuffle_split(n_samples, test_size, train_size,
    default_test_size)] *)
Definition out_of_range (n_samples : Z) (s : size_arg) : bool :=
  match s with
  | size_None => false
  | size_int k => ((n_samples <=? k) || (k <=? 0))%Z
  | size_float q => Qle_bool q 0 || Qle_bool 1 q
  end.

Definition count_of (n_samples : Z) (round : Q -> Z) (s : size_arg) : option Z :=
  match s with
  | size_None => None
  | size_int k => Some k
  | size_float q => Some (round (float_mul q (float_of_int n_samples)))
  end.

Definition float_sum_above_one (test_size train_size : size_arg) : bool :=
  match test_size, train_size with
  | size_float a, size_float b => negb (Qle_bool (float_add b a) 1)
  | _, _ => false
  end.

Definition validate_shuffle_split (n_samples : Z) (test_size train_size : size_arg)
    (default_test_size : Q) : result (Z * Z) :=
  let test_size :=
    match test_size, train_size with
    | size_None, size_None => size_float default_test_size
    | _, _ => test_size
    end in
  if out_of_range n_samples test_size
  then Raise (ValueError "test_size should be either positive and smaller than the number of samples or a float in the (0, 1) range")
  else if out_of_range n_samples train_size
  then Raise (ValueError "train_size should be either positive and smaller than the number of samples or a float in the (0, 1) range")
  else if float_sum_above_one test_size train_size
  then Raise (ValueError "The sum of test_size and train_size should be in the (0, 1) range")
  else
    let (n_train, n_test) :=
      match count_of n_samples Qfloor train_size, count_of n_samples Qceiling test_size with
      | None, Some t => (n_samples - t, t)%Z
      | Some r, None => (r, n_samples - r)%Z
      | Some r, Some t => (r, t)
      | None, None => (n_samples, 0%Z)   (* excluded by the default above *)
      end in
    if (n_samples <? n_train + n_test)%Z
    then Raise (ValueError "The sum of train_size and test_size should be smaller than the number of samples")
    else if (n_train =? 0)%Z
    then Raise (ValueError "the resulting train set will be empty")
    else Ok (n_train, n_test).

Section WithGenerator.

Variable G : Generator.

(** [rng.permutation(arr)] for an array: the same shuffle applied to
    the elements. *)
Definition permute (r : rng G) (arr : list nat) : list nat * rng G :=
  let (p, r') := permutation G r (length arr) in
  (map (fun j => nth j arr 0) p, r').

(** [rng.choice(a, size=size, replace=False)], which numpy computes as
    [a[rng.permutation(len(a))[:size]]]. *)
Definition choice (r : rng G) (a : list nat) (size : nat) : list nat * rng G :=
  let (p, r') := permutation G r (length a) in
  (map (fun j => nth j a 0) (firstn size p), r').

(** [check_random_state(seed)]: the generator to draw from, and whether
    it is numpy's global one.  [RandomState(seed)] accepts seeds from
    0 to 2**32 - 1. *)
Definition check_random_state (global : rng G) (seed : random_state_arg)
  : result (rng G * bool) :=
  match seed with
  | rs_None => Ok (global, true)
  | rs_int s =>
      if ((0 <=? s) && (s <? 2 ^ 32))%Z
      then Ok (RandomState G s, false)
      else Raise (ValueError "Seed must be between 0 and 2**32 - 1")
  end.

(** The loop of [_approximate_mode] over the distinct remainders, the
    largest first. *)
Fixpoint add_by_remainder (values : list Q) (remainder : list Q)
    (floored : list nat) (need_to_add : nat) (r : rng G) : list nat * rng G :=
  match values with
  | [] => (floored, r)
  | value :: values' =>
      let inds := where_eq remainder value in
      let add_now := Nat.min (length inds) need_to_add in
      let (inds', r') := choice r inds add_now in
      let floored' := add_one_at inds' floored in
      let need_to_add' := need_to_add - add_now in
      if need_to_add' =? 0 then (floored', r')
      else add_by_remainder values' remainder floored' need_to_add' r'
  end.

(** [_approximate_mode(class_counts, n_draws, rng)]: how many of the
    [n_draws] rows each class gets. *)
Definition approximate_mode (class_counts : list nat) (n_draws : nat) (r : rng G)
  : list nat * rng G :=
  let total := list_sum class_counts in
  let continuous :=
    map (fun c => (inject_Z (Z.of_nat c) / inject_Z (Z.of_nat total)
                   * inject_Z (Z.of_nat n_draws))%Q) class_counts in
  let floored := map (fun q => Z.to_nat (Qfloor q)) continuous in
  let need_to_add := n_draws - list_sum floored in
  if 0 <? need_to_add then
    let remainder := map (fun q => (q - inject_Z (Qfloor q))%Q) continuous in
    let values := rev (np_unique Qcompare remainder) in
    add_by_remainder values remainder floored need_to_add r
  else (floored, r).

(** The loop [for i in range(n_classes)] of [_iter_indices]: shuffle
    the rows of class [i], the first [n_i[i]] go to train and the next
    [t_i[i]] to test. *)
Fixpoint draw_classes (class_indices : list (list nat)) (n_i t_i : list nat)
    (r : rng G) (train test : list nat) : list nat * list nat * rng G :=
  match class_indices with
  | [] => (train, test, r)
  | rows :: class_indices' =>
      let n := hd 0 n_i in
      let t := hd 0 t_i in
      let (p, r') := permutation G r (length rows) in
      let perm_indices_class_i := take_clip rows p in
      draw_classes class_indices' (tl n_i) (tl t_i) r'
        (train ++ firstn n perm_indices_class_i)
        (test ++ firstn t (skipn n perm_indices_class_i))
  end.

(** [StratifiedShuffleSplit(test_size=n_test, train_size=n_train,
    random_state=random_state)._iter_indices(X, y)], first split: the
    positions of the train and of the test rows, and the state in
    which numpy's global generator is left. *)
Definition stratified_shuffle_split (global : rng G) (n_samples : nat) (y : list Z)
    (test_size train_size : size_arg) (random_state : random_state_arg)
  : result (list nat * list nat * rng G) :=
  (sizes <- validate_shuffle_split (Z.of_nat n_samples) test_size train_size
              (binary64 (1 # 10)) ;;
   let n_train := Z.to_nat (fst sizes) in
   let n_test := Z.to_nat (snd sizes) in
   let classes := np_unique Z.compare y in
   let n_classes := length classes in
   let class_counts := map (fun c => count_occ Z.eq_dec y c) classes in
   least <- np_min class_counts ;;
   if least <? 2
   then Raise (ValueError "The least populated class in y has only 1 member, which is too few")
   else if n_train <? n_classes
   then Raise (ValueError "The train_size should be greater or equal to the number of classes")
   else if n_test <? n_classes
   then Raise (ValueError "The test_size should be greater or equal to the number of classes")
   else
     (* the positions of each class, in increasing order; the counts
        below are natural numbers, and no share exceeds its class
        (lemma train_shares_fit), so the subtraction is numpy's *)
     let class_indices :=
       map (fun c => filter (fun i => (nth i y 0 =? c)%Z) (seq 0 (length y))) classes in
     gen <- check_random_state global random_state ;;
     let (rng0, is_global) := gen : rng G * bool in
     let (n_i, rng1) := approximate_mode class_counts n_train rng0 in
     let class_counts_remaining := map (fun cn => fst cn - snd cn) (combine class_counts n_i) in
     let (t_i, rng2) := approximate_mode class_counts_remaining n_test rng1 in
     let '(train, test, rng3) := draw_classes class_indices n_i t_i rng2 [] [] in
     let (train', rng4) := permute rng3 train in
     let (test', rng5) := permute rng4 test in
     Ok (train', test', if is_global then rng5 else global))%py.

(** [train_test_split(data, test_size=test_size, stratify=stratify,
    random_state=random_state)] *)
Definition train_test_split {A : Type} (global : rng G) (data : list A)
    (test_size : size_arg) (stratify : list Z) (random_state : random_state_arg)
  : result (list A * list A * rng G) :=
  let n_samples := length data in
  (sizes <- validate_shuffle_split (Z.of_nat n_samples) test_size size_None
              (binary64 (1 # 4)) ;;
   if negb (length stratify =? n_samples)
   then Raise (ValueError "Found input variables with inconsistent numbers of samples")
   else
     split <- stratified_shuffle_split global n_samples stratify
                (size_int (snd sizes)) (size_int (fst sizes)) random_state ;;
     let '(train, test, global') := split in
     train_rows <- iloc data train ;;
     test_rows <- iloc data test ;;
     Ok (train_rows, test_rows, global'))%py.

(** [stratified_split(data, test_size, random_state)] of the notebooks
    (the two [print]s of the class distributions left out): the train
    and test tables, and numpy's global generator afterwards. *)
Definition stratified_split (global : rng G) (data : Dataset) (test_size : Q)
    (random_state : Z) : result (Dataset * Dataset * rng G) :=
  train_test_split global data (size_float test_size) (map label data)
    (rs_int random_state).

End WithGenerator.

(** The number of test rows asked for: [ceil(test_size * n_samples)],
    the product being a float. *)
Definition n_test_of (test_size : Q) (n_samples : nat) : nat :=
  Z.to_nat (Qceiling (float_mul test_size (float_of_int (Z.of_nat n_samples)))).

(** The rows of a table that carry the label [c]: its stratum. *)
Definition stratum (c : Z) (data : Dataset) : Dataset :=
  filter (fun x => (label x =? c)%Z) data.

(** The globals of cell 2; the literal [0.1] is the binary64 number
    nearest to one tenth. *)
Definition TRAIN_TEST_SPLIT_RATIO : Q := Eval vm_compute in binary64 (1 # 10).
Definition RANDOM_STATE : Z := 42.

(** A small generator to run the split on: [permutation(n)] rotates
    [range(n)] by the state, which then advances. *)
Definition rotating : Generator := {|
  rng := nat;
  RandomState := Z.to_nat;
  permutation := fun r n =>
    (skipn (r mod n) (seq 0 n) ++ firstn (r mod n) (seq 0 n), S r)
|}.

(** A small table to run the split on: 20 rows, 13 labelled 1 and 7
    labelled 0. *)
Definition demo_row (k : nat) (l : Z) : Row :=
  mkRow (u "tr" ++ [N.of_nat (48 + k / 10); N.of_nat (48 + k mod 10)])
        (u "speaker") (u "M") (u "Sayin Baskan") (u "Mr Speaker") l.

Definition demo_data : Dataset :=
  map (fun kl => demo_row (fst kl) (snd kl))
      (combine (seq 0 20) [0; 1; 1; 0; 1; 1; 0; 1; 0; 1; 1; 0; 1; 1; 0; 1; 0; 1; 1; 1]%Z).

(** 100 rows, the first 60 labelled 1 and the other 40 labelled 0. *)
Definition hundred_rows : Dataset :=
  map (fun k => demo_row k (if k <? 60 then 1%Z else 0%Z)) (seq 0 100).

(** 20 rows, 18 labelled 0 and the last 2 labelled 1. *)
Definition lopsided_rows : Dataset :=
  map (fun k => demo_row k (if k <? 18 then 0%Z else 1%Z)) (seq 0 20).

(** 100 rows, the first 95 labelled 0 and the other 5 labelled 1. *)
Definition skewed_rows : Dataset :=
  map (fun k => demo_row k (if k <? 95 then 0%Z else 1%Z)) (seq 0 100).

(** 100 rows with the 8 labels 0 to 7 in turn. *)
Definition eight_label_rows : Dataset :=
  map (fun k => demo_row k (Z.of_nat (k mod 8))) (seq 0 100).

(** The float literal [0.07]. *)
Definition seven_percent : Q := Eval vm_compute in binary64 (7 # 100).

End Sklearn.

(** ** The training configuration (cell 7 of both notebooks) *)

Module HFTrainer.

(** [IntervalStrategy]: when to evaluate and when to save. *)
Inductive strategy : Type := strategy_no | strategy_steps | strategy_epoch.

Definition strategy_eqb (a b : strategy) : bool :=
  match a, b with
  | strategy_no, strategy_no
  | strategy_steps, strategy_steps
  | strategy_epoch, strategy_epoch => true
  | _, _ => false
  end.

(** The fields of [TrainingArguments] that [train_model] sets, and the
    two it leaves at their default [None]. *)
Record TrainingArguments : Type := {
  output_dir : string;
  eval_strategy : strategy;
  save_strategy : strategy;
  learning_rate : Q;
  per_device_train_batch_size : nat;
  per_device_eval_batch_size : nat;
  num_train_epochs : nat;
  weight_decay : Q;
  save_total_limit : option nat;
  load_best_model_at_end : bool;
  logging_dir : string;
  logging_steps : nat;
  metric_for_best_model : option string;
  greater_is_better : option bool
}.

(** [s.endswith("loss")] *)
Definition ends_with_loss (s : string) : bool :=
  let n := String.length s in
  String.eqb (String.substring (n - 4) 4 s) "loss" && (4 <=? n).

(** [TrainingArguments.__post_init__], the part on checkpoints: the two
    strategies must agree when the best model is to be loaded, and the
    metric that ranks checkpoints defaults to the evaluation loss,
    smaller being better. *)
Definition post_init (a : TrainingArguments) : result TrainingArguments :=
  if load_best_model_at_end a
     && negb (strategy_eqb (eval_strategy a) (save_strategy a))
  then Raise (ValueError "--load_best_model_at_end requires the save and eval strategy to match")
  else
    let metric :=
      match metric_for_best_model a with
      | None => if load_best_model_at_end a then Some "loss"%string else None
      | m => m
      end in
    let greater :=
      match greater_is_better a, metric with
      | None, Some m => Some (negb (ends_with_loss m))
      | g, _ => g
      end in
    Ok {| output_dir := output_dir a;
          eval_strategy := eval_strategy a;
          save_strategy := save_strategy a;
          learning_rate := learning_rate a;
          per_device_train_batch_size := per_device_train_batch_size a;
          per_device_eval_batch_size := per_device_eval_batch_size a;
          num_train_epochs := num_train_epochs a;
          weight_decay := weight_decay a;
          save_total_limit := save_total_limit a;
          load_best_model_at_end := load_best_model_at_end a;
          logging_dir := logging_dir a;
          logging_steps := logging_steps a;
          metric_for_best_model := metric;
          greater_is_better := greater |}.

(** The arguments of [train_model]; [output_dir] is ["./results_task1"]
    in the first notebook and ["./results_task2"] in the second. *)
Definition training_args (output : string) : TrainingArguments := {|
  output_dir := output;
  eval_strategy := strategy_epoch;
  save_strategy := strategy_epoch;
  learning_rate := 2 # 100000;
  per_device_train_batch_size := 16;
  per_device_eval_batch_size := 16;
  num_train_epochs := 3;
  weight_decay := 1 # 100;
  save_total_limit := Some 2;
  load_best_model_at_end := true;
  logging_dir := "./logs";
  logging_steps := 50;
  metric_for_best_model := None;
  greater_is_better := None
|}.

(** The same arguments after [__post_init__]. *)
Definition training_args_checked (output : string) : TrainingArguments := {|
  output_dir := output;
  eval_strategy := strategy_epoch;
  save_strategy := strategy_epoch;
  learning_rate := 2 # 100000;
  per_device_train_batch_size := 16;
  per_device_eval_batch_size := 16;
  num_train_epochs := 3;
  weight_decay := 1 # 100;
  save_total_limit := Some 2;
  load_best_model_at_end := true;
  logging_dir := "./logs";
  logging_steps := 50;
  metric_for_best_model := Some "loss"%string;
  greater_is_better := Some false
|}.

(** What the trainer does that can be seen from outside. *)
Inductive event : Type :=
| Evaluated (epoch : nat) (loss : Q)
| Saved (epoch : nat) (step : nat)
| Deleted (step : nat)
| LoadedBest (step : nat).

(** The evaluations and the saves of a log, in order. *)
Definition evaluations (l : list event) : list (nat * Q) :=
  flat_map (fun e => match e with Evaluated ep loss => [(ep, loss)] | _ => [] end) l.

Definition saves (l : list event) : list (nat * nat) :=
  flat_map (fun e => match e with Saved ep step => [(ep, step)] | _ => [] end) l.

(** The notebooks pin no release of transformers; the warning in their
    output that [tokenizer] is deprecated puts the run at 4.46 or later.
    These releases differ in what [DefaultFlowCallback.on_step_end] does
    at the last optimisation step: from 4.46 to 4.50 it asks for a save
    there whenever checkpoints are saved at all, from 4.51 on only under
    the [steps] strategy. *)
Inductive release : Type := v4_46_to_4_50 | v4_51_on.

(** Whether [on_step_end] asks for a save once [max_steps] is reached. *)
Definition saves_at_last_step (version : release) (a : TrainingArguments) : bool :=
  match version with
  | v4_46_to_4_50 => negb (strategy_eqb (save_strategy a) strategy_no)
  | v4_51_on => strategy_eqb (save_strategy a) strategy_steps
  end.

Section Trainer.

(** The model weights, one epoch of optimisation and the evaluation
    loss on the evaluation set belong to the model backend. *)
Variable W : Type.
Variable train_epoch : nat -> W -> W.
Variable eval_loss : W -> Q.
(** Optimisation steps in an epoch: the batches of the train set. *)
Variable steps_per_epoch : nat.
(** The release of the library that runs the notebook. *)
Variable version : release.

(** A checkpoint directory [checkpoint-<step>] and the weights in it. *)
Definition checkpoint : Type := (nat * W)%type.

Record TrainerState : Type := {
  model : W;
  global_step : nat;
  best_metric : option Q;
  best_model_checkpoint : option nat;
  disk : list checkpoint;          (* the checkpoints under output_dir *)
  log : list event                 (* oldest first *)
}.

(** [checkpoints_sorted[i], checkpoints_sorted[i + 1] =
    checkpoints_sorted[i + 1], checkpoints_sorted[i]] *)
Fixpoint swap_with_next (i : nat) (l : list nat) : list nat :=
  match i, l with
  | O, a :: b :: l' => b :: a :: l'
  | S i', a :: l' => a :: swap_with_next i' l'
  | _, _ => l
  end.

Fixpoint insert_sorted (x : nat) (l : list nat) : list nat :=
  match l with
  | [] => [x]
  | h :: t => if x <=? h then x :: l else h :: insert_sorted x t
  end.

Fixpoint index_of (x : nat) (l : list nat) : option nat :=
  match l with
  | [] => None
  | h :: t => if h =? x then Some 0 else option_map S (index_of x t)
  end.

(** [_sorted_checkpoints]: the checkpoint steps in increasing order,
    with the best checkpoint moved towards the end so that it is not
    among the first to go. *)
Definition sorted_checkpoints (best : option nat) (steps : list nat) : list nat :=
  let checkpoints_sorted := fold_right insert_sorted [] steps in
  match best with
  | None => checkpoints_sorted
  | Some b =>
      match index_of b checkpoints_sorted with
      | None => checkpoints_sorted
      | Some best_model_index =>
          fold_left (fun l i => swap_with_next i l)
                    (seq best_model_index
                         (length checkpoints_sorted - 2 - best_model_index))
                    checkpoints_sorted
      end
  end.

(** [_rotate_checkpoints]: the steps of the checkpoints to delete. *)
Definition checkpoints_to_be_deleted (a : TrainingArguments)
    (best : option nat) (steps : list nat) : list nat :=
  match save_total_limit a with
  | None => []
  | Some O => []
  | Some limit =>
      let checkpoints_sorted := sorted_checkpoints best steps in
      if length checkpoints_sorted <=? limit then []
      else
        let limit' :=
          match best with
          | Some b =>
              if (limit =? 1) && negb (last checkpoints_sorted 0 =? b)
              then 2 else limit
          | None => limit
          end in
        firstn (length checkpoints_sorted - limit') checkpoints_sorted
  end.

Definition is_deleted (gone : list nat) (c : checkpoint) : bool :=
  existsb (Nat.eqb (fst c)) gone.

(** The value of [metric_for_best_model] among the evaluation metrics;
    without a [compute_metrics] function only the loss is there. *)
Definition metric_value (a : TrainingArguments) (loss : Q) : option (result Q) :=
  match metric_for_best_model a with
  | None => None
  | Some m =>
      if String.eqb m "loss" || String.eqb m "eval_loss"
      then Some (Ok loss)
      else Some (Raise (KeyError m))
  end.

(** [operator(metric_value, best_metric)] *)
Definition improves (a : TrainingArguments) (value best : Q) : bool :=
  match greater_is_better a with
  | Some true => negb (Qle_bool value best)
  | _ => negb (Qle_bool best value)
  end.

(** [_save_checkpoint]: write [checkpoint-<global_step>], record it as
    the best one when the metric improved, rotate.  (The releases differ
    in where the best metric is recorded, here or right after the
    evaluation; an evaluation being followed at once by the save of the
    same step, as under the [epoch] strategies, the outcome is the
    same.) *)
Definition save_checkpoint (a : TrainingArguments) (epoch : nat)
    (metrics : option Q) (s : TrainerState) : result TrainerState :=
  let step := global_step s in
  let written :=
    filter (fun c => negb (fst c =? step)) (disk s) ++ [(step, model s)] in
  (best <-
     match metrics with
     | None => Ok (best_metric s, best_model_checkpoint s)
     | Some loss =>
         match metric_value a loss with
         | None => Ok (best_metric s, best_model_checkpoint s)
         | Some (Raise e) => Raise e
         | Some (Ok value) =>
             match best_metric s, best_model_checkpoint s with
             | Some b, Some _ =>
                 if improves a value b then Ok (Some value, Some step)
                 else Ok (best_metric s, best_model_checkpoint s)
             | _, _ => Ok (Some value, Some step)
             end
         end
     end ;;
   let gone := checkpoints_to_be_deleted a (snd best) (map fst written) in
   Ok {| model := model s;
         global_step := step;
         best_metric := fst best;
         best_model_checkpoint := snd best;
         disk := filter (fun c => negb (is_deleted gone c)) written;
         log := log s ++ [Saved epoch step] ++ map Deleted gone |})%py.

(** The end of an epoch: [on_epoch_end] raises the flags that the two
    strategies ask for, [_maybe_log_save_evaluate] acts on them. *)
Definition epoch_end (a : TrainingArguments) (epoch : nat) (s : TrainerState)
  : result TrainerState :=
  let should_evaluate := strategy_eqb (eval_strategy a) strategy_epoch in
  let should_save := strategy_eqb (save_strategy a) strategy_epoch in
  let metrics := if should_evaluate then Some (eval_loss (model s)) else None in
  let s' :=
    match metrics with
    | Some loss =>
        {| model := model s; global_step := global_step s;
           best_metric := best_metric s;
           best_model_checkpoint := best_model_checkpoint s;
           disk := disk s; log := log s ++ [Evaluated epoch loss] |}
    | None => s
    end in
  if should_save then save_checkpoint a epoch metrics s' else Ok s'.

(** [on_step_end] at the last optimisation step of an epoch, which
    brings the run to step [g]: whether it asks for a save. *)
Definition saves_at_step (a : TrainingArguments) (g : nat) : bool :=
  let max_steps := num_train_epochs a * steps_per_epoch in
  (max_steps <=? g) && saves_at_last_step version a.

(** The end of the last optimisation step of an epoch: when a save is
    asked for, [_maybe_log_save_evaluate] saves without metrics, no
    evaluation being due.  (The saves that the [steps] strategy asks for
    inside an epoch are not followed: the notebooks save by epoch.) *)
Definition step_end (a : TrainingArguments) (epoch : nat) (s : TrainerState)
  : result TrainerState :=
  if saves_at_step a (global_step s) then save_checkpoint a epoch None s else Ok s.

(** One epoch: the optimisation steps, the end of the last of them, then
    the end of the epoch. *)
Definition run_epoch (a : TrainingArguments) (epoch : nat) (s : TrainerState)
  : result TrainerState :=
  (s' <- step_end a epoch
           {| model := train_epoch epoch (model s);
              global_step := global_step s + steps_per_epoch;
              best_metric := best_metric s;
              best_model_checkpoint := best_model_checkpoint s;
              disk := disk s; log := log s |} ;;
   epoch_end a epoch s')%py.

Fixpoint run_epochs (a : TrainingArguments) (epochs : list nat) (s : TrainerState)
  : result TrainerState :=
  match epochs with
  | [] => Ok s
  | e :: rest => (s' <- run_epoch a e s ;; run_epochs a rest s')%py
  end.

(** [_load_best_model]: the weights of the best checkpoint, when it is
    on disk, replace the model's. *)
Definition load_best_model (s : TrainerState) : TrainerState :=
  match best_model_checkpoint s with
  | None => s
  | Some b =>
      match find (fun c => fst c =? b) (disk s) with
      | None => s
      | Some c =>
          {| model := snd c; global_step := global_step s;
             best_metric := best_metric s;
             best_model_checkpoint := best_model_checkpoint s;
             disk := disk s; log := log s ++ [LoadedBest b] |}
      end
  end.

(** [trainer.train()].  The run starts at step 0 whatever [output_dir]
    holds, no [resume_from_checkpoint] being given; the checkpoints
    [existing] that are already there take part in the rotation. *)
Definition train (a : TrainingArguments) (existing : list checkpoint) (model0 : W)
  : result TrainerState :=
  (s <- run_epochs a (seq 1 (num_train_epochs a))
          {| model := model0; global_step := 0;
             best_metric := None; best_model_checkpoint := None;
             disk := existing; log := [] |} ;;
   Ok (if load_best_model_at_end a then load_best_model s else s))%py.

(** [train_model]: build the arguments, train, evaluate once more; the
    model that is returned, the loss of that last evaluation and the
    trainer.  [existing] is what the output directory holds when the cell
    is run. *)
Definition train_model (output : string) (existing : list checkpoint) (model0 : W)
  : result (W * Q * TrainerState) :=
  (a <- post_init (training_args output) ;;
   s <- train a existing model0 ;;
   Ok (model s, eval_loss (model s), s))%py.

(** What holds of the trainer once an epoch has been evaluated and saved:
    the best checkpoint is one of this run, it is on disk, and it holds
    the smallest loss evaluated so far. *)
Definition best_kept (s : TrainerState) : Prop :=
  exists b wb,
    best_model_checkpoint s = Some b
    /\ best_metric s = Some (eval_loss wb)
    /\ b <= global_step s
    /\ In (b, wb) (disk s)
    /\ (exists e, In (e, eval_loss wb) (evaluations (log s)))
    /\ forall e l, In (e, l) (evaluations (log s)) -> (eval_loss wb <= l)%Q.

(** Before the first evaluation there is no best checkpoint. *)
Definition kept (s : TrainerState) : Prop :=
  (best_metric s = None /\ best_model_checkpoint s = None
   /\ evaluations (log s) = [])
  \/ best_kept s.

(** The checkpoints under [output_dir] have distinct steps. *)
Definition distinct_steps (d : list checkpoint) : Prop := NoDup (map fst d).

(** The best metric and the best checkpoint that [_save_checkpoint]
    records when the metric is the loss, smaller being better. *)
Definition best_after (metrics : option Q) (s : TrainerState) : option Q * option nat :=
  match metrics with
  | None => (best_metric s, best_model_checkpoint s)
  | Some loss =>
      match best_metric s, best_model_checkpoint s with
      | Some m, Some _ =>
          if Qle_bool m loss then (best_metric s, best_model_checkpoint s)
          else (Some loss, Some (global_step s))
      | _, _ => (Some loss, Some (global_step s))
      end
  end.

End Trainer.

(** A backend to run the trainer on: the weights are a number that each
    epoch raises by the epoch's index, and the loss is 0.5 after the
    first epoch, 0.4 after the second and 0.45 after the third. *)
Definition demo_epoch (epoch : nat) (w : nat) : nat := w + epoch.

Definition demo_loss (w : nat) : Q :=
  match w with
  | 1 => 5 # 10
  | 3 => 4 # 10
  | _ => 45 # 100
  end.

(** Losses that are lowest after the third epoch and higher after the
    second epoch than after the first: 0.4, 0.5, 0.3. *)
Definition late_loss (w : nat) : Q :=
  match w with
  | 1 => 4 # 10
  | 3 => 5 # 10
  | _ => 3 # 10
  end.

End HFTrainer.

Import ZeroShot.

(* ===================================================================== *)
(** * Part II. Properties                                                  *)
(* ===================================================================== *)

(** ** Strings *)

Lemma startswith_single (c : char) (s : pystr) :
  startswith [c] s = match s with [] => false | b :: _ => (c =? b)%N end.
Proof.
  destruct s as [|b s']; simpl; [reflexivity|].
  now rewrite andb_true_r.
Qed.

Lemma str_in_single (c : char) (s : pystr) :
  str_in [c] s = true <-> In c s.
Proof.
  induction s as [|b s' IH].
  - simpl. split; [discriminate | tauto].
  - change (str_in [c] (b :: s'))
      with (startswith [c] (b :: s') || str_in [c] s').
    rewrite startswith_single, orb_true_iff, IH, N.eqb_eq.
    simpl. split; intros [H|H]; auto.
Qed.

Lemma str_in_single_false (c : char) (s : pystr) :
  str_in [c] s = false <-> ~ In c s.
Proof.
  rewrite <- str_in_single. destruct (str_in [c] s); split; congruence.
Qed.

Lemma lstrip_keeps (c : char) (s : pystr) :
  isspace c = false -> In c s -> In c (lstrip s).
Proof.
  intros Hc. induction s as [|b s' IH]; simpl; [tauto|].
  intros [->|Hin].
  - rewrite Hc. now left.
  - destruct (isspace b); [auto | now right].
Qed.

Lemma strip_keeps (c : char) (s : pystr) :
  isspace c = false -> In c s -> In c (strip s).
Proof.
  intros Hc Hin. unfold strip, rstrip.
  apply in_rev. rewrite rev_involutive.
  apply lstrip_keeps; [assumption|].
  apply -> in_rev. now apply lstrip_keeps.
Qed.

(** ** Batching *)

Lemma firstn_plus {A : Type} (a b : nat) (l : list A) :
  firstn (a + b) l = firstn a l ++ firstn b (skipn a l).
Proof.
  revert l. induction a as [|a IH]; intros l; [reflexivity|].
  destruct l as [|x l]; simpl.
  - now rewrite firstn_nil.
  - now rewrite IH.
Qed.

Lemma concat_slices {A : Type} (size m : nat) (ds : list A) :
  concat (map (fun k => firstn size (skipn (k * size) ds)) (seq 0 m))
  = firstn (m * size) ds.
Proof.
  induction m as [|m IH]; [reflexivity|].
  rewrite seq_S, map_app, concat_app, IH. simpl.
  rewrite app_nil_r, (Nat.add_comm size), firstn_plus. reflexivity.
Qed.

Lemma range_covers (stop step : nat) :
  0 < step -> stop <= (stop + step - 1) / step * step.
Proof.
  intros Hs.
  pose proof (Nat.div_mod_eq (stop + step - 1) step) as E.
  pose proof (Nat.mod_upper_bound (stop + step - 1) step) as B.
  nia.
Qed.

(** Batching only cuts the dataset: the batches, put end to end, are the
    dataset again. *)
Lemma concat_batches {A : Type} (batch_size : nat) (ds : list A) :
  0 < batch_size -> concat (batches batch_size ds) = ds.
Proof.
  intros Hs. unfold batches, range_step.
  rewrite map_map, concat_slices.
  apply firstn_all2, range_covers, Hs.
Qed.

Lemma mapM_ok {A B : Type} (f : A -> result B) (g : A -> B) (xs : list A) :
  (forall x, In x xs -> f x = Ok (g x)) -> mapM f xs = Ok (map g xs).
Proof.
  induction xs as [|x xs IH]; intros H; [reflexivity|].
  simpl. rewrite (H x (or_introl eq_refl)). simpl.
  rewrite IH; [reflexivity|]. intros y Hy. apply H. now right.
Qed.

Lemma map_batched_ok {A B : Type} (f : list A -> result (list B)) (g : A -> B)
    (batch_size : nat) (ds : list A) :
  0 < batch_size ->
  (forall batch, f batch = Ok (map g batch)) ->
  map_batched f batch_size ds = Ok (match ds with [] => None | _ => Some (map g ds) end).
Proof.
  intros Hs Hf. unfold map_batched. destruct ds as [|x ds]; [reflexivity|].
  rewrite (mapM_ok f (map g)) by (intros; apply Hf).
  simpl bind. rewrite <- concat_map, concat_batches by assumption. reflexivity.
Qed.

(** ** Answer extraction *)

Lemma process_predictions_length (predictions : list pystr) :
  length (process_predictions predictions) = length predictions.
Proof.
  induction predictions as [|s l IH]; simpl; [reflexivity | now rewrite IH].
Qed.

Lemma process_predictions_nth (predictions : list pystr) (i : nat) :
  nth_error (process_predictions predictions) i
  = option_map (fun s => hd None (process_predictions [s])) (nth_error predictions i).
Proof.
  revert i. induction predictions as [|s l IH]; intros [|i]; simpl; auto.
Qed.

Lemma extract_zero (s : pystr) :
  In (ch "0") s -> process_predictions [s] = [Some 0%Z].
Proof.
  intros H. apply (str_in_single (ch "0")) in H.
  simpl. change (u "0") with [ch "0"]. now rewrite H.
Qed.

Lemma extract_one (s : pystr) :
  ~ In (ch "0") s -> In (ch "1") s -> process_predictions [s] = [Some 1%Z].
Proof.
  intros N0 H1.
  apply (str_in_single_false (ch "0")) in N0.
  apply (str_in_single (ch "1")) in H1.
  simpl. change (u "0") with [ch "0"]. change (u "1") with [ch "1"].
  now rewrite N0, H1.
Qed.

Lemma extract_unknown (s : pystr) :
  ~ In (ch "0") s -> ~ In (ch "1") s -> process_predictions [s] = [None].
Proof.
  intros N0 N1.
  apply (str_in_single_false (ch "0")) in N0.
  apply (str_in_single_false (ch "1")) in N1.
  simpl. change (u "0") with [ch "0"]. change (u "1") with [ch "1"].
  now rewrite N0, N1.
Qed.

(** C1. For every generated string [s], [process_predictions [s]] is
    [[0]] when the character "0" occurs anywhere in [s]; otherwise [[1]]
    when "1" occurs anywhere in [s]; otherwise [[None]].  When both digits
    occur the answer is 0, and a string with neither digit gives [None]. *)
Theorem process_predictions_priority (s : pystr) :
  (In (ch "0") s -> process_predictions [s] = [Some 0%Z]) /\
  (~ In (ch "0") s -> In (ch "1") s -> process_predictions [s] = [Some 1%Z]) /\
  (~ In (ch "0") s -> ~ In (ch "1") s -> process_predictions [s] = [None]) /\
  (In (ch "0") s -> In (ch "1") s -> process_predictions [s] = [Some 0%Z]).
Proof.
  split; [|split; [|split]].
  - apply extract_zero.
  - apply extract_one.
  - apply extract_unknown.
  - intros H0 _. now apply extract_zero.
Qed.

Lemma process_predictions_priority_witness :
  process_predictions [u "contains both 0 and 1"] = [Some 0%Z] /\
  process_predictions [u "Answer: 1"] = [Some 1%Z] /\
  process_predictions [u "no digits here"] = [None].
Proof.
  split; [|split].
  - apply (proj1 (process_predictions_priority (u "contains both 0 and 1"))).
    vm_compute. tauto.
  - apply (proj1 (proj2 (process_predictions_priority (u "Answer: 1")))).
    + vm_compute. intuition discriminate.
    + vm_compute. tauto.
  - apply (proj1 (proj2 (proj2 (process_predictions_priority (u "no digits here")))));
      vm_compute; intuition discriminate.
Defined.

(** ** The zero-shot path as the notebooks compose it *)

(** Each of the four prompts formats to a fixed text around the speech,
    and the text in front of the speech holds the character "0". *)
Lemma notebook_prompt_shape (prompt : pystr) :
  In prompt notebook_prompts ->
  exists pre suf : pystr,
    In (ch "0") pre /\ forall t, format prompt t = Ok (pre ++ t ++ suf).
Proof.
  intros [<-|[<-|[<-|[<-|[]]]]].
  - exists (u "Aşağıdaki meclis konuşmasına dayanarak, konuşmacının partisinin sol (0) ya da sağ (1) eğilimli olduğunu belirtiniz:" ++ newline ++ newline),
           (newline ++ newline ++ u "Cevap:").
    split; [vm_compute; tauto | intros t; vm_compute; reflexivity].
  - exists (u "Based on the following parliamentary speech, classify whether the speaker's party leans left (0) or right (1):" ++ newline ++ newline),
           (newline ++ newline ++ u "Answer:").
    split; [vm_compute; tauto | intros t; vm_compute; reflexivity].
  - exists (u "Aşağıdaki meclis konuşmasına dayanarak, konuşmacının partisinin hükümette (0) ya da muhalefette (1) olduğunu belirtiniz:" ++ newline ++ newline),
           (newline ++ newline ++ u "Cevap:").
    split; [vm_compute; tauto | intros t; vm_compute; reflexivity].
  - exists (u "Based on the following parliamentary speech, classify whether the speaker's party is governing (0) or opposition (1):" ++ newline ++ newline),
           (newline ++ newline ++ u "Answer:").
    split; [vm_compute; tauto | intros t; vm_compute; reflexivity].
Qed.

Lemma generate_texts_ok (model : pystr -> nat -> pystr) (column_name : column)
    (prompt : pystr) (fmt : pystr -> pystr) (batch : Dataset) :
  (forall t, format prompt t = Ok (fmt t)) ->
  generate_texts model batch column_name prompt
  = Ok (map (fun x => let p := fmt (get_col column_name x) in
                      strip (p ++ model p 10)) batch).
Proof.
  intros Hf. unfold generate_texts.
  rewrite (mapM_ok _ fmt) by (intros; apply Hf). simpl.
  unfold causal_pipeline. rewrite !map_map.
  induction batch as [|x l IH]; [reflexivity|].
  simpl. now rewrite IH.
Qed.

Lemma process_predictions_all_zero {A : Type} (h : A -> pystr) (l : list A) :
  (forall x, In (ch "0") (h x)) ->
  process_predictions (map h l) = map (fun _ => Some 0%Z) l.
Proof.
  intros H. induction l as [|x l IH]; [reflexivity|].
  change (process_predictions (map h (x :: l)))
    with (process_predictions [h x] ++ process_predictions (map h l)).
  rewrite IH, (extract_zero (h x) (H x)). reflexivity.
Qed.

(** C3. The string scanned by the answer extraction is the full pipeline
    output, which begins with the prompt, and each of the four prompts
    carries a "0" in its "(0)" wording: whatever the rows and whatever the
    model appends, every label the zero-shot path extracts is 0, one per
    row; neither 1 nor [None] is ever produced.  (On an empty table the
    path produces nothing: the column of predictions is missing.) *)
Theorem zero_shot_always_zero (model : pystr -> nat -> pystr) (test : Dataset)
    (column_name : column) (prompt : pystr) :
  In prompt notebook_prompts ->
  (test <> [] ->
   exists predictions,
     zero_shot model test column_name prompt
     = Ok (predictions, map (fun _ => Some 0%Z) test))
  /\ (forall predictions binary,
        zero_shot model test column_name prompt = Ok (predictions, binary) ->
        binary = map (fun _ => Some 0%Z) test).
Proof.
  intros Hp.
  destruct (notebook_prompt_shape prompt Hp) as (pre & suf & H0 & Hf).
  assert (E : zero_shot model test column_name prompt
              = match test with
                | [] => Raise (KeyError "predictions")
                | _ => Ok (map (fun x => let p := pre ++ get_col column_name x ++ suf in
                                         strip (p ++ model p 10))
                               (limit_text_length test column_name),
                           map (fun _ => Some 0%Z) test)
                end).
  { destruct test as [|x test']; [reflexivity|].
    unfold zero_shot.
    rewrite (map_batched_ok _
               (fun x => let p := pre ++ get_col column_name x ++ suf in
                         strip (p ++ model p 10)));
      [| lia | intros batch;
               now apply (generate_texts_ok model column_name prompt
                            (fun t => pre ++ t ++ suf))].
    assert (Hds : exists y ys, limit_text_length (x :: test') column_name = y :: ys)
      by (now eexists; eexists).
    destruct Hds as (y & ys & Hds). rewrite Hds at 1.
    unfold added_column, bind. f_equal. f_equal.
    rewrite process_predictions_all_zero.
    - unfold limit_text_length. now rewrite map_map.
    - intros r. apply strip_keeps; [reflexivity|].
      apply in_or_app. left. apply in_or_app. now left. }
  rewrite E. split.
  - intros Hne. destruct test; [congruence|]. now eexists.
  - intros predictions binary. destruct test; [discriminate|]. now intros [= _ <-].
Qed.

Lemma zero_shot_always_zero_witness :
  exists predictions,
    zero_shot (fun _ _ => u " 1")
      [mkRow (u "tr01") (u "A") (u "F") (u "Sayin Baskan") (u "Mr Speaker") 1%Z]
      col_text_en task1_english_prompt
    = Ok (predictions, [Some 0%Z]).
Proof.
  apply (zero_shot_always_zero (fun _ _ => u " 1")
           [mkRow (u "tr01") (u "A") (u "F") (u "Sayin Baskan") (u "Mr Speaker") 1%Z]
           col_text_en task1_english_prompt).
  - simpl. tauto.
  - discriminate.
Defined.

(** C2, evaluated on the code: a row whose [text_en] has no digit at all,
    the English prompt of either task and the continuation "Answer: 1".
    The extracted label is 0, not 1: the scan meets the "(0)" of the
    prompt first. *)
Theorem answer_one_extracted_as_zero :
  let row := mkRow (u "tr01") (u "A") (u "F") (u "Sayin Baskan") (u "Mr Speaker") 1%Z in
  let model := fun (_ : pystr) (_ : nat) => u "Answer: 1" in
  (exists p, zero_shot model [row] col_text_en task1_english_prompt = Ok ([p], [Some 0%Z]))
  /\ (exists p, zero_shot model [row] col_text_en task2_english_prompt = Ok ([p], [Some 0%Z]))
  /\ process_predictions [u "Answer: 1"] = [Some 1%Z].
Proof.
  cbv zeta. split; [|split]; [eexists; vm_compute; reflexivity ..|].
  vm_compute. reflexivity.
Qed.

(** ** One prediction per row *)

Lemma mapM_Forall2 {A B : Type} (f : A -> result B) (xs : list A) (ys : list B) :
  mapM f xs = Ok ys -> Forall2 (fun x y => f x = Ok y) xs ys.
Proof.
  revert ys. induction xs as [|x xs IH]; intros ys; simpl.
  - intros [= <-]. constructor.
  - destruct (f x) as [y|e] eqn:Ef; simpl; [|discriminate].
    destruct (mapM f xs) as [ys'|e]; simpl; [|discriminate].
    intros [= <-]. constructor; auto.
Qed.

Lemma mapM_length {A B : Type} (f : A -> result B) (xs : list A) (ys : list B) :
  mapM f xs = Ok ys -> length ys = length xs.
Proof.
  intros H. apply mapM_Forall2 in H. symmetry. eapply Forall2_length, H.
Qed.

Lemma generate_texts_length (model : pystr -> nat -> pystr) (batch : Dataset)
    (column_name : column) (prompt : pystr) (out : list pystr) :
  generate_texts model batch column_name prompt = Ok out ->
  length out = length batch.
Proof.
  unfold generate_texts.
  destruct (mapM _ (map (get_col column_name) batch)) as [prompts|e] eqn:E;
    simpl; [|discriminate].
  intros H. apply mapM_length in H. apply mapM_length in E.
  unfold causal_pipeline in H.
  rewrite length_map in H, E. exact (eq_trans H E).
Qed.

Lemma map_batched_length {A B : Type} (f : list A -> result (list B))
    (batch_size : nat) (ds : list A) (out : list B) :
  0 < batch_size ->
  (forall batch col, f batch = Ok col -> length col = length batch) ->
  map_batched f batch_size ds = Ok (Some out) ->
  length out = length ds.
Proof.
  intros Hs Hf. unfold map_batched. destruct ds as [|x0 ds0]; [discriminate|].
  remember (x0 :: ds0) as ds eqn:Eds. clear Eds.
  destruct (mapM f (batches batch_size ds)) as [cols|e] eqn:E; simpl; [|discriminate].
  intros [= <-].
  rewrite <- (concat_batches batch_size ds Hs) at 1.
  apply mapM_Forall2 in E.
  generalize dependent (batches batch_size ds). intros bs0 E.
  induction E as [|b c bs cs Hbc _ IH]; [reflexivity|].
  simpl. rewrite !length_app, IH, (Hf b c Hbc). reflexivity.
Qed.

Lemma zero_shot_lengths (model : pystr -> nat -> pystr) (test : Dataset)
    (column_name : column) (prompt : pystr)
    (predictions : list pystr) (binary : list (option Z)) :
  zero_shot model test column_name prompt = Ok (predictions, binary) ->
  length predictions = length test /\ length binary = length test.
Proof.
  unfold zero_shot.
  destruct (map_batched _ 8 (limit_text_length test column_name))
    as [[preds|]|e] eqn:E; simpl; try discriminate.
  intros [= <- <-].
  apply map_batched_length in E;
    [| lia | intros batch col; apply generate_texts_length].
  unfold limit_text_length in E. rewrite length_map in E.
  rewrite process_predictions_length. auto.
Qed.

(** ** Accuracy *)

Lemma sum_bool_from (bs : list bool) (a : Z) :
  fold_left (fun acc (b : bool) => (acc + if b then 1 else 0)%Z) bs a
  = (a + Z.of_nat (count_occ bool_dec bs true))%Z.
Proof.
  revert a. induction bs as [|b bs IH]; intros a; simpl; [lia|].
  rewrite IH. destruct b; simpl.
  - destruct (bool_dec true true); [lia | congruence].
  - destruct (bool_dec false true); [discriminate | lia].
Qed.

Lemma sum_bool_count (bs : list bool) :
  sum_bool bs = Z.of_nat (count_occ bool_dec bs true).
Proof. unfold sum_bool. now rewrite sum_bool_from. Qed.

Lemma correct_predictions_length (binary : list (option Z)) (labels : list Z) :
  length (correct_predictions binary labels) = Nat.min (length binary) (length labels).
Proof. unfold correct_predictions. now rewrite length_map, length_combine. Qed.

Lemma correct_predictions_nth (binary : list (option Z)) (labels : list Z)
    (i : nat) (b : option Z) (l : Z) :
  nth_error binary i = Some b -> nth_error labels i = Some l ->
  nth_error (correct_predictions binary labels) i = Some (py_eq b l).
Proof.
  revert labels i. induction binary as [|b0 bs IH]; intros [|l0 ls] [|i]; simpl;
    try discriminate.
  - now intros [= ->] [= ->].
  - apply IH.
Qed.

(** C7. Unknown predictions stay in the zero-shot results, one entry per
    input row and at the row's position, and count as incorrect: [None]
    never equals a label, so the entry of such a row in the list of correct
    predictions is never [True]; and when exactly 4 of 10 predictions equal
    their label, the accuracy is 0.40. *)
Theorem unknown_kept_and_incorrect :
  (forall model test column_name prompt predictions binary,
      zero_shot model test column_name prompt = Ok (predictions, binary) ->
      length binary = length test) /\
  (forall (predictions : list pystr) (i : nat) (s : pystr),
      nth_error predictions i = Some s ->
      ~ In (ch "0") s -> ~ In (ch "1") s ->
      nth_error (process_predictions predictions) i = Some None) /\
  (forall lbl, py_eq None lbl = false) /\
  (forall binary labels i,
      nth_error binary i = Some None ->
      nth_error (correct_predictions binary labels) i <> Some true) /\
  (forall binary labels,
      length binary = 10 -> length labels = 10 ->
      count_occ bool_dec (correct_predictions binary labels) true = 4 ->
      exists q, accuracy (correct_predictions binary labels) = Ok q
                /\ (q == 4 # 10)%Q).
Proof.
  split; [|split; [|split; [|split]]].
  - intros model test column_name prompt predictions binary H.
    now apply zero_shot_lengths in H.
  - intros predictions i s Hs N0 N1.
    rewrite process_predictions_nth, Hs. unfold option_map.
    now rewrite (extract_unknown s N0 N1).
  - reflexivity.
  - intros binary labels i Hb Hc.
    destruct (nth_error labels i) as [l|] eqn:El.
    + rewrite (correct_predictions_nth binary labels i None l Hb El) in Hc.
      discriminate.
    + apply nth_error_None in El.
      assert (Hlen : i < length (correct_predictions binary labels)).
      { apply nth_error_Some. congruence. }
      rewrite correct_predictions_length in Hlen. lia.
  - intros binary labels Hb Hl H4.
    pose proof (correct_predictions_length binary labels) as Hlen.
    rewrite Hb, Hl in Hlen. simpl in Hlen.
    unfold accuracy. rewrite Hlen, sum_bool_count, H4.
    eexists. split; [reflexivity|]. reflexivity.
Qed.

Lemma unknown_kept_and_incorrect_witness :
  let binary := [Some 0; None; Some 1; Some 1; None; Some 0; Some 0; None; Some 1; Some 0]%Z in
  let labels := [0; 0; 1; 0; 1; 0; 1; 0; 1; 1]%Z in
  nth_error (process_predictions [u "Cevap: evet"; u "Answer: 1"]) 0 = Some None /\
  nth_error (correct_predictions binary labels) 1 <> Some true /\
  exists q, accuracy (correct_predictions binary labels) = Ok q /\ (q == 4 # 10)%Q.
Proof.
  cbv zeta. destruct unknown_kept_and_incorrect as (_ & Hkeep & _ & Hnone & Hacc).
  split; [|split].
  - apply (Hkeep [u "Cevap: evet"; u "Answer: 1"] 0 (u "Cevap: evet")).
    + reflexivity.
    + vm_compute. intuition discriminate.
    + vm_compute. intuition discriminate.
  - apply Hnone. reflexivity.
  - apply Hacc; reflexivity.
Defined.

(** C10. The accuracy divides the number of matches by the length of the
    compared sequence without a guard: on an empty record sequence the
    division raises [ZeroDivisionError], and the accuracy has a value
    exactly when the list of compared predictions is not empty.  A cell run
    on an empty test table has no accuracy either. *)
Theorem accuracy_needs_records :
  (forall binary, zero_shot_accuracy binary [] = Raise ZeroDivisionError) /\
  (forall labels, accuracy (correct_predictions [] labels) = Raise ZeroDivisionError) /\
  (forall correct, accuracy correct = Raise ZeroDivisionError <-> correct = []) /\
  (forall correct, correct <> [] ->
     accuracy correct
     = Ok (inject_Z (sum_bool correct) / inject_Z (Z.of_nat (length correct)))%Q) /\
  (forall model column_name prompt,
     is_ok (zero_shot_cell model [] column_name prompt) = false).
Proof.
  split; [|split; [|split; [|split]]].
  - intros binary. unfold zero_shot_accuracy, correct_predictions.
    simpl map. rewrite combine_nil. reflexivity.
  - reflexivity.
  - intros [|b l]; simpl; split; intros H; try reflexivity; discriminate.
  - intros [|b l] H; [congruence | reflexivity].
  - reflexivity.
Qed.

Lemma accuracy_needs_records_witness :
  accuracy [true; false]
  = Ok (inject_Z (sum_bool [true; false]) / inject_Z (Z.of_nat 2))%Q.
Proof.
  apply (proj1 (proj2 (proj2 (proj2 accuracy_needs_records))) [true; false]).
  discriminate.
Defined.

Import Sklearn.

(** ** The stratified split: sorted distinct values *)

Section UniqueFacts.

Variable A : Type.
Variable cmp : A -> A -> comparison.
Hypothesis cmp_refl : forall x, cmp x x = Eq.
Hypothesis cmp_lt_trans :
  forall x y z, cmp x y = Lt -> cmp y z = Lt -> cmp x z = Lt.
Hypothesis cmp_gt_lt : forall x y, cmp x y = Gt -> cmp y x = Lt.

Let below (x y : A) : Prop := cmp x y = Lt.

Lemma insert_unique_in (x a : A) (l : list A) :
  In x (insert_unique cmp a l) -> x = a \/ In x l.
Proof.
  induction l as [|h t IH]; simpl.
  - intros [<-|[]]. now left.
  - destruct (cmp a h); simpl.
    + tauto.
    + intros [<-|H]; [now left | now right].
    + intros [<-|H]; [right; now left|].
      destruct (IH H); [now left | right; now right].
Qed.

Lemma insert_unique_keeps (x a : A) (l : list A) :
  In x l -> In x (insert_unique cmp a l).
Proof.
  induction l as [|h t IH]; simpl; [tauto|].
  destruct (cmp a h); simpl; intros [<-|H]; auto.
Qed.

Lemma insert_unique_covers (a : A) (l : list A) :
  exists v, In v (insert_unique cmp a l) /\ cmp a v = Eq.
Proof.
  induction l as [|h t IH]; simpl.
  - exists a. split; [now left | apply cmp_refl].
  - destruct (cmp a h) eqn:E.
    + exists h. split; [now left | assumption].
    + exists a. split; [now left | apply cmp_refl].
    + destruct IH as (v & Hv & Ev). exists v. split; [now right | assumption].
Qed.

Lemma insert_unique_sorted (a : A) (l : list A) :
  StronglySorted below l -> StronglySorted below (insert_unique cmp a l).
Proof.
  induction 1 as [|h t Ht IH Hh]; simpl.
  - repeat constructor.
  - destruct (cmp a h) eqn:E.
    + now constructor.
    + constructor; [now constructor|].
      constructor; [exact E|].
      eapply Forall_impl; [|exact Hh]. intros y Hy. eapply cmp_lt_trans; eauto.
    + constructor; [exact IH|].
      apply Forall_forall. intros y Hy.
      destruct (insert_unique_in _ _ _ Hy) as [->|Hy'].
      * now apply cmp_gt_lt.
      * rewrite Forall_forall in Hh. now apply Hh.
Qed.

Lemma np_unique_in (x : A) (xs : list A) :
  In x (np_unique cmp xs) -> In x xs.
Proof.
  induction xs as [|a xs IH]; simpl; [tauto|].
  intros H. destruct (insert_unique_in _ _ _ H); auto.
Qed.

Lemma np_unique_covers (x : A) (xs : list A) :
  In x xs -> exists v, In v (np_unique cmp xs) /\ cmp x v = Eq.
Proof.
  induction xs as [|a xs IH]; simpl; [tauto|].
  intros [<-|H].
  - apply insert_unique_covers.
  - destruct (IH H) as (v & Hv & Ev). exists v.
    split; [now apply insert_unique_keeps | assumption].
Qed.

Lemma np_unique_sorted (xs : list A) : StronglySorted below (np_unique cmp xs).
Proof.
  induction xs as [|a xs IH]; simpl; [constructor|].
  now apply insert_unique_sorted.
Qed.

End UniqueFacts.

(** The classes of a label column: exactly the labels that occur, each
    once. *)
Lemma classes_in (y : list Z) (c : Z) : In c (np_unique Z.compare y) <-> In c y.
Proof.
  split.
  - apply np_unique_in.
  - intros H.
    destruct (np_unique_covers Z Z.compare Z.compare_refl c y H) as (v & Hv & Ev).
    apply Z.compare_eq in Ev. now subst.
Qed.

Lemma classes_sorted (y : list Z) : StronglySorted Z.lt (np_unique Z.compare y).
Proof.
  apply (np_unique_sorted Z Z.compare).
  - intros x z w. apply Z.lt_trans.
  - intros x z H. apply Z.gt_lt. exact H.
Qed.

Lemma sorted_NoDup (l : list Z) : StronglySorted Z.lt l -> NoDup l.
Proof.
  induction 1 as [|a l Hl IH Ha]; constructor; [|assumption].
  intros Hin. rewrite Forall_forall in Ha. specialize (Ha a Hin). lia.
Qed.

Lemma classes_NoDup (y : list Z) : NoDup (np_unique Z.compare y).
Proof. apply sorted_NoDup, classes_sorted. Qed.

(** ** The stratified split: the sizes of the two parts *)

(** ** Rounding to binary64 *)

Lemma round_half_even_le (num den M : Z) :
  (0 < den)%Z -> (num <= M * den)%Z -> (round_half_even num den <= M)%Z.
Proof.
  intros Hd H. unfold round_half_even.
  pose proof (Z.div_mod num den ltac:(lia)) as E.
  pose proof (Z.mod_pos_bound num den Hd) as B.
  set (q := (num / den)%Z) in *. set (r := (num mod den)%Z) in *.
  assert (Hq : (q <= M)%Z) by nia.
  destruct (Z.compare_spec (2 * r) den) as [C|C|C].
  - destruct (Z.even q); [lia|]. nia.
  - lia.
  - nia.
Qed.

Lemma round_half_even_nonneg (num den : Z) :
  (0 < den)%Z -> (0 <= num)%Z -> (0 <= round_half_even num den)%Z.
Proof.
  intros Hd H. unfold round_half_even.
  pose proof (Z.div_pos num den H Hd) as Hq.
  destruct (_ ?= _)%Z; [destruct (Z.even _)| |]; lia.
Qed.

Lemma ilog2_le (a b k : Z) :
  (0 < a)%Z -> (0 < b)%Z -> (0 <= k)%Z -> (a <= 2 ^ k * b)%Z ->
  (ilog2 a b <= k)%Z.
Proof.
  intros Ha Hb Hk H. unfold ilog2.
  set (d := (Z.log2 a - Z.log2 b)%Z).
  destruct (Z.le_gt_cases d k) as [Hd|Hd].
  - destruct (if (0 <=? d)%Z then _ else _); lia.
  - exfalso.
    destruct (Z.log2_spec a Ha) as [A1 A2]. destruct (Z.log2_spec b Hb) as [B1 B2].
    pose proof (Z.log2_nonneg b) as Lb.
    assert (E : (2 ^ Z.log2 a = 2 ^ (d - k - 1) * (2 ^ k * 2 ^ Z.succ (Z.log2 b)))%Z).
    { rewrite <- !Z.pow_add_r by lia. f_equal. unfold d. lia. }
    assert (P1 : (1 <= 2 ^ (d - k - 1))%Z).
    { change 1%Z with (2 ^ 0)%Z. apply Z.pow_le_mono_r; lia. }
    assert (P2 : (0 < 2 ^ k)%Z) by (apply Z.pow_pos_nonneg; lia).
    set (X := (2 ^ k * 2 ^ Z.succ (Z.log2 b))%Z) in *.
    assert (HX : (2 ^ k * b < X)%Z) by (unfold X; nia).
    assert (HX' : (X <= 2 ^ (d - k - 1) * X)%Z) by nia.
    lia.
Qed.

Lemma round_positive_nonneg (a b : Z) :
  (0 < a)%Z -> (0 < b)%Z -> (0 <= round_positive a b)%Q.
Proof.
  intros Ha Hb. unfold round_positive.
  destruct (Z.leb_spec 0 (ulp_exponent a b)) as [He|He].
  - change 0%Q with (inject_Z 0). rewrite <- Zle_Qle.
    assert (P : (0 < 2 ^ ulp_exponent a b)%Z) by (apply Z.pow_pos_nonneg; lia).
    pose proof (round_half_even_nonneg a (2 ^ ulp_exponent a b * b)%Z ltac:(nia) ltac:(lia)).
    nia.
  - unfold Qle. simpl.
    assert (P : (0 < 2 ^ (- ulp_exponent a b))%Z) by (apply Z.pow_pos_nonneg; lia).
    pose proof (round_half_even_nonneg (2 ^ (- ulp_exponent a b) * a)%Z b Hb ltac:(nia)).
    lia.
Qed.

Lemma round_positive_below_power (a b k : Z) :
  (0 < a)%Z -> (0 < b)%Z -> (0 <= k)%Z -> (a <= 2 ^ k * b)%Z ->
  (round_positive a b <= inject_Z (2 ^ k))%Q.
Proof.
  intros Ha Hb Hk H. unfold round_positive.
  pose proof (ilog2_le a b k Ha Hb Hk H) as Hl.
  assert (He : (ulp_exponent a b <= k)%Z) by (unfold ulp_exponent; lia).
  set (e := ulp_exponent a b) in *.
  destruct (Z.leb_spec 0 e) as [He0|He0].
  - rewrite <- Zle_Qle.
    assert (P : (0 < 2 ^ e)%Z) by (apply Z.pow_pos_nonneg; lia).
    assert (E : (2 ^ k = 2 ^ (k - e) * 2 ^ e)%Z)
      by (rewrite <- Z.pow_add_r by lia; f_equal; lia).
    pose proof (round_half_even_le a (2 ^ e * b) (2 ^ (k - e)) ltac:(nia) ltac:(nia)).
    nia.
  - assert (P : (0 < 2 ^ (- e))%Z) by (apply Z.pow_pos_nonneg; lia).
    assert (E : (2 ^ (k - e) = 2 ^ k * 2 ^ (- e))%Z)
      by (rewrite <- Z.pow_add_r by lia; f_equal; lia).
    pose proof (round_half_even_le (2 ^ (- e) * a) b (2 ^ (k - e)) Hb ltac:(nia)).
    unfold Qle. simpl. rewrite Z2Pos.id by exact P. nia.
Qed.

(** Rounding to binary64 never crosses a power of two from below. *)
Lemma binary64_below_power (x : Q) (k : Z) :
  (0 <= k)%Z -> (x <= inject_Z (2 ^ k))%Q -> (binary64 x <= inject_Z (2 ^ k))%Q.
Proof.
  intros Hk H. unfold binary64.
  assert (P : (0 < 2 ^ k)%Z) by (apply Z.pow_pos_nonneg; lia).
  destruct x as [a b]. simpl Qnum. simpl Qden.
  destruct a as [|a|a].
  - change 0%Q with (inject_Z 0). rewrite <- Zle_Qle. lia.
  - apply round_positive_below_power; try lia.
    unfold Qle in H. simpl in H. lia.
  - apply Qle_trans with 0%Q.
    + rewrite <- (Qopp_opp 0). apply Qopp_le_compat. simpl Z.opp.
      apply round_positive_nonneg; lia.
    + change 0%Q with (inject_Z 0). rewrite <- Zle_Qle. lia.
Qed.

Section Binary64.

Local Open Scope Z_scope.

Lemma pow2_pos (k : Z) : 0 <= k -> 0 < 2 ^ k.
Proof. intros. apply Z.pow_pos_nonneg; lia. Qed.

Lemma pow2_split (i j : Z) : 0 <= i -> 0 <= j -> 2 ^ (i + j) = 2 ^ i * 2 ^ j.
Proof. intros. apply Z.pow_add_r; lia. Qed.

(** The same comparison after both sides are multiplied by [2 ^ s]. *)
Lemma below_pow_scaled (a b k s : Z) :
  0 < a -> 0 < b -> 0 <= s -> 0 <= s + k ->
  below_pow a b k <-> 2 ^ s * a < 2 ^ (s + k) * b.
Proof.
  intros Ha Hb Hs Hsk. unfold below_pow.
  destruct (Z.leb_spec 0 k) as [Hk|Hk].
  - rewrite pow2_split by lia. pose proof (pow2_pos s Hs). pose proof (pow2_pos k Hk).
    split; intros; nia.
  - replace s with ((s + k) + (- k)) at 1 by lia.
    rewrite pow2_split by lia.
    pose proof (pow2_pos (s + k) Hsk). pose proof (pow2_pos (- k) ltac:(lia)).
    split; intros; nia.
Qed.

Lemma below_pow_mono (a b k k' : Z) :
  0 < a -> 0 < b -> k <= k' -> below_pow a b k -> below_pow a b k'.
Proof.
  intros Ha Hb Hk H.
  set (s := Z.abs k + Z.abs k').
  apply (below_pow_scaled a b k s) in H; try lia.
  apply (below_pow_scaled a b k' s); try lia.
  eapply Z.lt_le_trans; [exact H|].
  apply Z.mul_le_mono_nonneg_r; [lia|].
  apply Z.pow_le_mono_r; lia.
Qed.

(** [ilog2 a b] is the floor of the logarithm: [a / b < 2 ^ (ilog2 a b + 1)]. *)
Lemma ilog2_upper (a b : Z) :
  0 < a -> 0 < b -> below_pow a b (ilog2 a b + 1).
Proof.
  intros Ha Hb.
  destruct (Z.log2_spec a Ha) as [A1 A2]. destruct (Z.log2_spec b Hb) as [B1 B2].
  pose proof (Z.log2_nonneg a) as La. pose proof (Z.log2_nonneg b) as Lb.
  unfold ilog2. set (d := Z.log2 a - Z.log2 b).
  set (s := Z.abs d + 1).
  assert (Hs : 0 <= s) by lia.
  assert (U : 2 ^ s * a < 2 ^ (s + d + 1) * b).
  { apply Z.lt_le_trans with (2 ^ s * 2 ^ Z.succ (Z.log2 a)).
    - apply Z.mul_lt_mono_pos_l; [now apply pow2_pos | exact A2].
    - replace (s + d + 1) with (s + Z.succ (Z.log2 a) - Z.log2 b) by lia.
      assert (E : 2 ^ s * 2 ^ Z.succ (Z.log2 a)
                  = 2 ^ (s + Z.succ (Z.log2 a) - Z.log2 b) * 2 ^ Z.log2 b).
      { rewrite <- !Z.pow_add_r by lia. f_equal. lia. }
      rewrite E. apply Z.mul_le_mono_nonneg_l; [|exact B1].
      apply Z.pow_nonneg. lia. }
  destruct (if 0 <=? d then 2 ^ d * b <=? a else b <=? 2 ^ (- d) * a) eqn:T.
  - apply (below_pow_scaled a b (d + 1) s); try lia.
    now replace (s + (d + 1)) with (s + d + 1) by lia.
  - replace (d - 1 + 1) with d by lia.
    apply (below_pow_scaled a b d s); try lia.
    destruct (Z.leb_spec 0 d) as [Hd|Hd].
    + apply Z.leb_gt in T. rewrite pow2_split by lia.
      pose proof (pow2_pos s Hs). nia.
    + apply Z.leb_gt in T.
      replace s with ((s + d) + (- d)) at 1 by lia.
      rewrite pow2_split by lia.
      pose proof (pow2_pos (s + d) ltac:(lia)). nia.
Qed.

(** [a / b < 2 ^ k] gives [ilog2 a b < k]. *)
Lemma ilog2_lt (a b k : Z) :
  0 < a -> 0 < b -> below_pow a b k -> ilog2 a b < k.
Proof.
  intros Ha Hb H.
  destruct (Z.log2_spec a Ha) as [A1 A2]. destruct (Z.log2_spec b Hb) as [B1 B2].
  pose proof (Z.log2_nonneg a) as La. pose proof (Z.log2_nonneg b) as Lb.
  unfold ilog2. set (d := Z.log2 a - Z.log2 b).
  set (s := Z.abs d + Z.abs k + 1).
  assert (Hs : 0 <= s) by lia.
  apply (below_pow_scaled a b k s) in H; try lia.
  assert (Lo : 2 ^ (s + d - 1) * b < 2 ^ s * a).
  { apply Z.lt_le_trans with (2 ^ (s + d - 1) * 2 ^ Z.succ (Z.log2 b)).
    - apply Z.mul_lt_mono_pos_l; [apply pow2_pos; lia | exact B2].
    - assert (E : 2 ^ (s + d - 1) * 2 ^ Z.succ (Z.log2 b) = 2 ^ s * 2 ^ Z.log2 a).
      { rewrite <- !Z.pow_add_r by lia. f_equal. lia. }
      rewrite E. apply Z.mul_le_mono_nonneg_l; [|exact A1].
      apply Z.pow_nonneg. lia. }
  assert (Hd : d - 1 < k).
  { destruct (Z.lt_ge_cases (d - 1) k) as [|Hge]; [assumption|]. exfalso.
    assert (2 ^ (s + k) <= 2 ^ (s + d - 1)) by (apply Z.pow_le_mono_r; lia).
    nia. }
  destruct (if 0 <=? d then 2 ^ d * b <=? a else b <=? 2 ^ (- d) * a) eqn:T; [|lia].
  destruct (Z.lt_ge_cases d k) as [|Hge]; [assumption|]. exfalso.
  assert (Hk : k = d) by lia. subst k.
  destruct (Z.leb_spec 0 d) as [Hd0|Hd0].
  - apply Z.leb_le in T. rewrite pow2_split in H by lia.
    pose proof (pow2_pos s Hs). nia.
  - apply Z.leb_le in T.
    replace s with ((s + d) + (- d)) in H at 1 by lia.
    rewrite pow2_split in H by lia.
    pose proof (pow2_pos (s + d) ltac:(lia)). nia.
Qed.

Lemma round_half_even_exact (k d : Z) : 0 < d -> round_half_even (k * d) d = k.
Proof.
  intros Hd. unfold round_half_even.
  rewrite Z.div_mul by lia. rewrite Z.mod_mul by lia. cbv zeta.
  change (2 * 0) with 0.
  destruct (Z.compare_spec 0 d); [lia | reflexivity | lia].
Qed.

Lemma scaled_below (a b m e : Z) :
  0 < a -> 0 < b -> 0 < m < 2 ^ 53 -> is_scaled a b m e -> below_pow a b (53 + e).
Proof.
  intros Ha Hb Hm H. unfold is_scaled in H.
  set (s := Z.abs e + 53).
  apply (below_pow_scaled a b (53 + e) s); try lia.
  destruct (Z.leb_spec 0 e) as [He|He].
  - subst a.
    replace (s + (53 + e)) with (s + 53 + e) by lia.
    rewrite (pow2_split (s + 53) e), (pow2_split s 53) by lia.
    pose proof (pow2_pos s ltac:(lia)). pose proof (pow2_pos e He). nia.
  - replace s with ((s + e) + (- e)) at 1 by lia.
    rewrite (pow2_split (s + e) (- e)) by lia.
    replace (s + (53 + e)) with ((s + e) + 53) by lia.
    rewrite (pow2_split (s + e) 53) by lia.
    pose proof (pow2_pos (s + e) ltac:(lia)). nia.
Qed.

(** A number with at most 53 bits above the smallest exponent is rounded
    to itself. *)
Lemma round_positive_exact (a b m e : Z) :
  0 < a -> 0 < b -> 0 < m < 2 ^ 53 -> -1074 <= e -> is_scaled a b m e ->
  (round_positive a b == scaled m e)%Q.
Proof.
  intros Ha Hb Hm He H.
  pose proof (ilog2_lt a b (53 + e) Ha Hb (scaled_below a b m e Ha Hb Hm H)) as Hl.
  unfold round_positive, scaled.
  assert (Hu : ulp_exponent a b <= e) by (unfold ulp_exponent; lia).
  assert (Hu' : -1074 <= ulp_exponent a b) by (unfold ulp_exponent; lia).
  set (u := ulp_exponent a b) in *.
  unfold is_scaled in H.
  destruct (Z.leb_spec 0 u) as [Hu0|Hu0].
  - destruct (Z.leb_spec 0 e) as [He0|He0]; [|lia].
    assert (E : a = (m * 2 ^ (e - u)) * (2 ^ u * b)).
    { rewrite H. replace e with ((e - u) + u) at 1 by lia.
      rewrite pow2_split by lia. ring. }
    rewrite E at 1. rewrite round_half_even_exact
      by (pose proof (pow2_pos u Hu0); nia).
    replace (m * 2 ^ (e - u) * 2 ^ u) with (m * 2 ^ e); [reflexivity|].
    replace e with ((e - u) + u) at 1 by lia. rewrite pow2_split by lia. ring.
  - pose proof (pow2_pos (- u) ltac:(lia)) as Pu.
    destruct (Z.leb_spec 0 e) as [He0|He0].
    + assert (E : 2 ^ (- u) * a = (2 ^ (- u) * m * 2 ^ e) * b) by (rewrite H; ring).
      rewrite E, round_half_even_exact by lia.
      unfold Qeq. cbn [Qnum Qden inject_Z]. rewrite Z2Pos.id by exact Pu. ring.
    + pose proof (pow2_pos (- e) ltac:(lia)) as Pe.
      assert (E : 2 ^ (- u) * a = (2 ^ (e - u) * m) * b).
      { replace (- u) with ((e - u) + (- e)) by lia.
        rewrite pow2_split by lia. rewrite <- Z.mul_assoc, H. ring. }
      rewrite E, round_half_even_exact by lia.
      unfold Qeq. cbn [Qnum Qden]. rewrite !Z2Pos.id by assumption.
      replace (- u) with ((e - u) + (- e)) by lia.
      rewrite pow2_split by lia. ring.
Qed.

(** What [round_positive] returns: at most 53 bits above the exponent. *)
Lemma round_positive_form (a b : Z) :
  0 < a -> 0 < b ->
  exists r e, -1074 <= e /\ 0 <= r <= 2 ^ 53 /\ round_positive a b = scaled r e.
Proof.
  intros Ha Hb.
  pose proof (ilog2_upper a b Ha Hb) as U.
  assert (Hu : ilog2 a b + 1 <= ulp_exponent a b + 53) by (unfold ulp_exponent; lia).
  assert (Hu' : -1074 <= ulp_exponent a b) by (unfold ulp_exponent; lia).
  apply (below_pow_mono a b _ _ Ha Hb Hu) in U.
  unfold round_positive.
  set (u := ulp_exponent a b) in *.
  destruct (Z.leb_spec 0 u) as [Hu0|Hu0].
  - exists (round_half_even a (2 ^ u * b)), u.
    pose proof (pow2_pos u Hu0) as Pu.
    split; [exact Hu'|].
    split; [|unfold scaled; destruct (Z.leb_spec 0 u); [reflexivity | lia]]. split.
    + apply round_half_even_nonneg; nia.
    + apply round_half_even_le; [nia|].
      apply (below_pow_scaled a b (u + 53) 0) in U; try lia.
      rewrite Z.pow_0_r, Z.mul_1_l in U. simpl in U.
      rewrite pow2_split in U by lia. nia.
  - exists (round_half_even (2 ^ (- u) * a) b), u.
    pose proof (pow2_pos (- u) ltac:(lia)) as Pu.
    split; [exact Hu'|].
    split; [|unfold scaled; destruct (Z.leb_spec 0 u); [lia | reflexivity]]. split.
    + apply round_half_even_nonneg; nia.
    + apply round_half_even_le; [exact Hb|].
      apply (below_pow_scaled a b (u + 53) (- u)) in U; try lia.
      replace (- u + (u + 53)) with 53 in U by lia. lia.
Qed.

Lemma scaled_carry (e : Z) : (scaled (2 ^ 52) (e + 1) == scaled (2 ^ 53) e)%Q.
Proof.
  unfold scaled.
  destruct (Z.leb_spec 0 e) as [He|He].
  - destruct (Z.leb_spec 0 (e + 1)) as [_|]; [|lia].
    rewrite pow2_split by lia. unfold Qeq. cbn [Qnum Qden inject_Z].
    change (2 ^ 53) with (2 ^ 52 * 2 ^ 1). ring.
  - pose proof (pow2_pos (- e) ltac:(lia)) as Pe.
    destruct (Z.leb_spec 0 (e + 1)) as [He1|He1].
    + assert (e = -1) by lia. subst e. reflexivity.
    + pose proof (pow2_pos (- (e + 1)) ltac:(lia)) as Pe1.
      unfold Qeq. cbn [Qnum Qden]. rewrite !Z2Pos.id by assumption.
      replace (- e) with (- (e + 1) + 1) by lia. rewrite pow2_split by lia.
      change (2 ^ 53) with (2 ^ 52 * 2 ^ 1). ring.
Qed.

Lemma binary64_scaled (r e : Z) :
  0 <= r <= 2 ^ 53 -> -1074 <= e -> (binary64 (scaled r e) == scaled r e)%Q.
Proof.
  intros Hr He.
  assert (Hform : forall m e', 0 < m -> -1074 <= e' ->
            binary64 (scaled m e')
            = round_positive (Qnum (scaled m e')) (Z.pos (Qden (scaled m e')))
            /\ is_scaled (Qnum (scaled m e')) (Z.pos (Qden (scaled m e'))) m e').
  { intros m e' Hm _. unfold binary64, scaled, is_scaled.
    destruct (Z.leb_spec 0 e') as [He0|He0].
    - pose proof (pow2_pos e' He0) as P. cbn [Qnum Qden inject_Z].
      destruct (m * 2 ^ e') eqn:E; try nia. split; [reflexivity | lia].
    - pose proof (pow2_pos (- e') ltac:(lia)) as P. cbn [Qnum Qden].
      rewrite Z2Pos.id by exact P.
      destruct m; try lia. split; [reflexivity | ring]. }
  assert (Hpos : forall m e', 0 < m ->
            0 < Qnum (scaled m e') /\ 0 < Z.pos (Qden (scaled m e'))).
  { intros m e' Hm. unfold scaled. destruct (Z.leb_spec 0 e') as [He0|He0].
    - pose proof (pow2_pos e' He0). cbn [Qnum Qden inject_Z]. split; [nia | lia].
    - cbn [Qnum Qden]. split; [exact Hm | lia]. }
  destruct (Z.eq_dec r 0) as [->|Hr0].
  { unfold scaled. destruct (0 <=? e); reflexivity. }
  destruct (Z.eq_dec r (2 ^ 53)) as [->|Hr53].
  - destruct (Hform (2 ^ 53) e ltac:(lia) He) as [-> Hs].
    destruct (Hpos (2 ^ 53) e ltac:(lia)) as [P1 P2].
    apply Qeq_trans with (scaled (2 ^ 52) (e + 1)); [|apply scaled_carry].
    apply round_positive_exact; try assumption; try lia.
    revert Hs. unfold is_scaled, scaled.
    destruct (Z.leb_spec 0 e) as [He0|He0].
    + destruct (Z.leb_spec 0 (e + 1)) as [_|]; [|lia].
      cbn [Qnum Qden inject_Z]. intros _. rewrite (pow2_split e 1) by lia.
      change (2 ^ 53) with (2 ^ 52 * 2 ^ 1). ring.
    + pose proof (pow2_pos (- e) ltac:(lia)) as Pe.
      cbn [Qnum Qden]. rewrite Z2Pos.id by exact Pe. intros _.
      destruct (Z.leb_spec 0 (e + 1)) as [He1|He1].
      * assert (e = -1) by lia. subst e. reflexivity.
      * replace (- e) with (- (e + 1) + 1) by lia. rewrite pow2_split by lia.
        change (2 ^ 53) with (2 ^ 52 * 2 ^ 1). ring.
  - destruct (Hform r e ltac:(lia) He) as [-> Hs].
    destruct (Hpos r e ltac:(lia)) as [P1 P2].
    apply round_positive_exact; try assumption; lia.
Qed.

Lemma binary64_opp (x : Q) : (binary64 (- x) == - binary64 x)%Q.
Proof.
  unfold binary64. destruct x as [a b]. cbn [Qnum Qden Qopp].
  destruct a as [|a|a]; cbn [Z.opp].
  - reflexivity.
  - reflexivity.
  - symmetry. apply Qopp_opp.
Qed.

(** Rounding to binary64 leaves a binary64 number as it is. *)
Lemma binary64_idempotent (x : Q) : (binary64 (binary64 x) == binary64 x)%Q.
Proof.
  assert (Hp : forall a b, 0 < a -> 0 < b ->
            (binary64 (round_positive a b) == round_positive a b)%Q).
  { intros a b Ha Hb.
    destruct (round_positive_form a b Ha Hb) as (r & e & He & Hr & ->).
    now apply binary64_scaled. }
  unfold binary64 at 2. destruct x as [a b]. cbn [Qnum Qden].
  destruct a as [|a|a].
  - reflexivity.
  - apply Hp; lia.
  - rewrite binary64_opp. apply Qopp_comp. cbn [Z.opp]. apply Hp; reflexivity.
Qed.

Lemma below_pow_scale (a b c k : Z) :
  0 < c -> below_pow (c * a) (c * b) k <-> below_pow a b k.
Proof.
  intros Hc. unfold below_pow. destruct (0 <=? k); split; intros; nia.
Qed.

Lemma ilog2_scale (a b c : Z) :
  0 < a -> 0 < b -> 0 < c -> ilog2 (c * a) (c * b) = ilog2 a b.
Proof.
  intros Ha Hb Hc.
  pose proof (ilog2_upper a b Ha Hb) as U.
  pose proof (ilog2_upper (c * a) (c * b) ltac:(nia) ltac:(nia)) as U'.
  apply (below_pow_scale a b c _ Hc) in U.
  apply (below_pow_scale a b c _ Hc) in U'.
  apply ilog2_lt in U; [|nia|nia].
  apply ilog2_lt in U'; [|assumption|assumption].
  lia.
Qed.

Lemma round_half_even_scale (num den c : Z) :
  0 < den -> 0 < c -> round_half_even (c * num) (c * den) = round_half_even num den.
Proof.
  intros Hd Hc. unfold round_half_even.
  rewrite Z.div_mul_cancel_l by lia.
  rewrite Z.mul_mod_distr_l by lia.
  replace (2 * (c * (num mod den))) with (c * (2 * (num mod den))) by ring.
  assert (E : (c * (2 * (num mod den)) ?= c * den) = (2 * (num mod den) ?= den)).
  { destruct (Z.compare_spec (2 * (num mod den)) den) as [C|C|C].
    - apply Z.compare_eq_iff. now rewrite C.
    - apply Z.compare_lt_iff. nia.
    - apply Z.compare_gt_iff. nia. }
  rewrite E. reflexivity.
Qed.

(** The rounding depends on the number, not on the fraction that
    denotes it. *)
Lemma round_positive_scale (a b c : Z) :
  0 < a -> 0 < b -> 0 < c -> round_positive (c * a) (c * b) = round_positive a b.
Proof.
  intros Ha Hb Hc. unfold round_positive, ulp_exponent.
  rewrite ilog2_scale by assumption.
  set (u := Z.max (ilog2 a b - 52) (-1074)).
  destruct (Z.leb_spec 0 u) as [Hu|Hu].
  - pose proof (pow2_pos u Hu).
    replace (2 ^ u * (c * b)) with (c * (2 ^ u * b)) by ring.
    rewrite round_half_even_scale by nia. reflexivity.
  - replace (2 ^ (- u) * (c * a)) with (c * (2 ^ (- u) * a)) by ring.
    rewrite round_half_even_scale by assumption. reflexivity.
Qed.

Lemma binary64_proper (x y : Q) : (x == y)%Q -> binary64 x = binary64 y.
Proof.
  intros H. unfold Qeq in H. unfold binary64.
  destruct x as [a b], y as [a' b']. cbn [Qnum Qden] in *.
  assert (Hp : forall p q p' q' : positive,
            Z.pos p * Z.pos q' = Z.pos p' * Z.pos q ->
            round_positive (Z.pos p) (Z.pos q) = round_positive (Z.pos p') (Z.pos q')).
  { intros p q p' q' E.
    rewrite <- (round_positive_scale (Z.pos p) (Z.pos q) (Z.pos q')) by lia.
    rewrite <- (round_positive_scale (Z.pos p') (Z.pos q') (Z.pos q)) by lia.
    f_equal; lia. }
  destruct a as [|a|a], a' as [|a'|a']; try lia.
  - reflexivity.
  - apply Hp. exact H.
  - cbn [Z.opp]. f_equal. apply Hp. lia.
Qed.

(** The product of two floats is the exact product rounded once. *)
Lemma float_mul_floats (a b : Q) :
  (binary64 a == a)%Q -> (binary64 b == b)%Q -> float_mul a b = binary64 (a * b).
Proof.
  intros Ha Hb. unfold float_mul. apply binary64_proper. now rewrite Ha, Hb.
Qed.

(** An int of at most 53 bits is a float. *)
Lemma float_of_int_exact (n : Z) :
  0 <= n <= 2 ^ 53 -> (float_of_int n == inject_Z n)%Q.
Proof.
  intros Hn. unfold float_of_int.
  assert (E : inject_Z n = scaled n 0).
  { unfold scaled. simpl. now rewrite Z.mul_1_r. }
  rewrite E. apply binary64_scaled; lia.
Qed.

End Binary64.

(** For a float fraction the size of the test part is the ceiling of the
    exact product rounded once. *)
Lemma n_test_of_float (f : Q) (n : nat) :
  (binary64 f == f)%Q -> (Z.of_nat n <= 2 ^ 53)%Z ->
  n_test_of f n = Z.to_nat (Qceiling (binary64 (f * inject_Z (Z.of_nat n)))).
Proof.
  intros Hf Hn. unfold n_test_of, float_mul. do 2 f_equal.
  apply binary64_proper. unfold float_of_int.
  rewrite Hf, binary64_idempotent.
  change (binary64 (inject_Z (Z.of_nat n))) with (float_of_int (Z.of_nat n)).
  rewrite float_of_int_exact by lia. reflexivity.
Qed.

Lemma binary64_nonneg (x : Q) : (0 <= x)%Q -> (0 <= binary64 x)%Q.
Proof.
  intros H. unfold binary64. destruct x as [a b]. cbn [Qnum Qden].
  destruct a as [|a|a].
  - apply Qle_refl.
  - apply round_positive_nonneg; lia.
  - exfalso. unfold Qle in H. simpl in H. lia.
Qed.

(** ** The stratified split: the sizes asked for *)

Lemma Qle_bool_false (x y : Q) : (y < x)%Q -> Qle_bool x y = false.
Proof.
  intros H. destruct (Qle_bool x y) eqn:E; [|reflexivity].
  apply Qle_bool_iff in E. exfalso. exact (Qlt_not_le _ _ H E).
Qed.

(** The first validation, inside [train_test_split]: a float test size and
    no train size. *)
Lemma validate_float (n : nat) (f d : Q) :
  (0 < f)%Q -> (f < 1)%Q ->
  validate_shuffle_split (Z.of_nat n) (size_float f) size_None d
  = let n_test := Qceiling (float_mul f (float_of_int (Z.of_nat n))) in
    if (Z.of_nat n - n_test =? 0)%Z
    then Raise (ValueError "the resulting train set will be empty")
    else Ok (Z.of_nat n - n_test, n_test)%Z.
Proof.
  intros H0 H1. unfold validate_shuffle_split, out_of_range, float_sum_above_one, count_of.
  rewrite (Qle_bool_false f 0 H0), (Qle_bool_false 1 f H1). simpl orb. cbv iota.
  cbv zeta.
  replace (Z.of_nat n <? _)%Z with false; [reflexivity|].
  symmetry. apply Z.ltb_ge. lia.
Qed.

(** The second validation, inside [StratifiedShuffleSplit]: the two counts
    computed by the first pass through unchanged. *)
Lemma validate_counts (n r t : Z) (d : Q) :
  (0 < r)%Z -> (0 < t)%Z -> (r + t = n)%Z ->
  validate_shuffle_split n (size_int t) (size_int r) d = Ok (r, t).
Proof.
  intros Hr Ht Hn. unfold validate_shuffle_split, out_of_range, float_sum_above_one, count_of.
  replace (n <=? t)%Z with false by (symmetry; apply Z.leb_gt; lia).
  replace (t <=? 0)%Z with false by (symmetry; apply Z.leb_gt; lia).
  replace (n <=? r)%Z with false by (symmetry; apply Z.leb_gt; lia).
  replace (r <=? 0)%Z with false by (symmetry; apply Z.leb_gt; lia).
  simpl orb. cbv iota.
  replace (n <? r + t)%Z with false by (symmetry; apply Z.ltb_ge; lia).
  replace (r =? 0)%Z with false by (symmetry; apply Z.eqb_neq; lia).
  reflexivity.
Qed.

(** ** The stratified split: shuffles *)

Lemma map_nth_seq {A : Type} (a : list A) (d : A) :
  map (fun j => nth j a d) (seq 0 (length a)) = a.
Proof.
  induction a as [|x a IH] using rev_ind; [reflexivity|].
  rewrite length_app, Nat.add_comm. simpl length. rewrite seq_S, map_app. simpl.
  rewrite nth_middle. f_equal.
  etransitivity; [|exact IH]. apply map_ext_in. intros j Hj.
  apply in_seq in Hj. apply app_nth1. lia.
Qed.

Lemma shuffle_perm (a p : list nat) :
  Permutation p (seq 0 (length a)) ->
  Permutation (map (fun j => nth j a 0) p) a.
Proof.
  intros H.
  apply Permutation_trans with (map (fun j => nth j a 0) (seq 0 (length a))).
  - now apply Permutation_map.
  - now rewrite map_nth_seq.
Qed.

Lemma take_clip_shuffle (a p : list nat) :
  Permutation p (seq 0 (length a)) ->
  take_clip a p = map (fun j => nth j a 0) p.
Proof.
  intros H. unfold take_clip. apply map_ext_in. intros j Hj.
  apply (Permutation_in _ H), in_seq in Hj.
  f_equal. lia.
Qed.

Section Shuffles.

Variable G : Generator.
Hypothesis G_lawful : lawful G.

Lemma permute_perm (r : rng G) (arr : list nat) :
  Permutation (fst (permute G r arr)) arr.
Proof.
  unfold permute. pose proof (G_lawful r (length arr)) as H.
  destruct (permutation G r (length arr)) as [p r']. simpl in *.
  now apply shuffle_perm.
Qed.

Lemma choice_spec (r : rng G) (a : list nat) (size : nat) :
  NoDup a -> size <= length a ->
  let inds := fst (choice G r a size) in
  NoDup inds /\ length inds = size /\ incl inds a.
Proof.
  intros Ha Hs. unfold choice. pose proof (G_lawful r (length a)) as H.
  destruct (permutation G r (length a)) as [p r']. simpl in *.
  rewrite <- firstn_map.
  pose proof (shuffle_perm a p H) as Hp.
  assert (Hnd : NoDup (map (fun j => nth j a 0) p)).
  { eapply Permutation_NoDup; [symmetry; exact Hp | exact Ha]. }
  repeat split.
  - rewrite <- (firstn_skipn size) in Hnd. now apply NoDup_app_remove_r in Hnd.
  - rewrite length_firstn, (Permutation_length Hp). lia.
  - intros x Hx. apply (Permutation_in _ Hp).
    rewrite <- (firstn_skipn size). apply in_or_app. now left.
Qed.

End Shuffles.

(** ** The stratified split: [floored[inds] += 1] *)

Lemma add_one_at_length (inds floored : list nat) :
  length (add_one_at inds floored) = length floored.
Proof.
  unfold add_one_at. now rewrite length_map, length_combine, length_seq, Nat.min_id.
Qed.

Lemma add_one_at_sum_from (inds floored : list nat) (s : nat) :
  list_sum (map (fun jv => if existsb (Nat.eqb (fst jv)) inds
                           then S (snd jv) else snd jv)
                (combine (seq s (length floored)) floored))
  = list_sum floored
    + length (filter (fun j => existsb (Nat.eqb j) inds) (seq s (length floored))).
Proof.
  revert s. induction floored as [|v l IH]; intros s; [reflexivity|].
  simpl. rewrite IH. destruct (existsb (Nat.eqb s) inds); simpl; lia.
Qed.

Lemma add_one_at_sum (inds floored : list nat) :
  NoDup inds -> (forall j, In j inds -> j < length floored) ->
  list_sum (add_one_at inds floored) = list_sum floored + length inds.
Proof.
  intros Hnd Hr. unfold add_one_at. rewrite add_one_at_sum_from. f_equal.
  apply Permutation_length, NoDup_Permutation.
  - apply NoDup_filter, seq_NoDup.
  - exact Hnd.
  - intros j. rewrite filter_In, in_seq, existsb_exists. split.
    + intros (_ & x & Hx & E). apply Nat.eqb_eq in E. now subst.
    + intros Hj. split; [specialize (Hr j Hj); lia|].
      exists j. split; [exact Hj | apply Nat.eqb_refl].
Qed.

Lemma add_one_at_nth (inds floored : list nat) (j : nat) :
  nth j (add_one_at inds floored) 0 = nth j floored 0
  \/ (In j inds /\ nth j (add_one_at inds floored) 0 = S (nth j floored 0)).
Proof.
  unfold add_one_at.
  set (F := fun jv : nat * nat =>
              if existsb (Nat.eqb (fst jv)) inds then S (snd jv) else snd jv).
  destruct (Nat.lt_ge_cases j (length floored)) as [Hj|Hj].
  - rewrite (nth_indep _ 0 (F (0, 0)))
      by now rewrite length_map, length_combine, length_seq, Nat.min_id.
    rewrite (map_nth F), combine_nth by apply length_seq.
    rewrite seq_nth by exact Hj. unfold F. simpl.
    destruct (existsb (Nat.eqb j) inds) eqn:E; [right | now left].
    split; [|reflexivity].
    apply existsb_exists in E. destruct E as (x & Hx & E).
    apply Nat.eqb_eq in E. now subst.
  - left. rewrite !nth_overflow; auto.
    now rewrite length_map, length_combine, length_seq, Nat.min_id.
Qed.

(** ** The stratified split: [_approximate_mode] *)

Lemma where_eq_In (remainder : list Q) (value : Q) (j : nat) :
  In j (where_eq remainder value)
  <-> j < length remainder /\ (nth j remainder 0 == value)%Q.
Proof.
  unfold where_eq. rewrite filter_In, in_seq, Qeq_bool_iff. intuition lia.
Qed.

Lemma where_eq_NoDup (remainder : list Q) (value : Q) :
  NoDup (where_eq remainder value).
Proof. apply NoDup_filter, seq_NoDup. Qed.

Lemma list_sum_map_add {A : Type} (a b : A -> nat) (l : list A) :
  list_sum (map (fun v => a v + b v) l) = list_sum (map a l) + list_sum (map b l).
Proof. induction l as [|x l IH]; simpl; lia. Qed.

Lemma groups_cover {A : Type} (P : A -> nat -> bool) (values : list A) (L : list nat) :
  (forall j, In j L -> exists v, In v values /\ P v j = true) ->
  length L <= list_sum (map (fun v => length (filter (P v) L)) values).
Proof.
  induction L as [|j L IH]; intros H; simpl; [lia|].
  rewrite (map_ext _ (fun v => (if P v j then 1 else 0) + length (filter (P v) L)))
    by (intros v; destruct (P v j); reflexivity).
  rewrite list_sum_map_add.
  assert (H1 : 1 <= list_sum (map (fun v => if P v j then 1 else 0) values)).
  { destruct (H j (or_introl eq_refl)) as (v & Hv & Pv).
    clear -Hv Pv. induction values as [|w ws IHw]; [destruct Hv|].
    simpl. destruct Hv as [->|Hv]; [rewrite Pv; lia|].
    specialize (IHw Hv). lia. }
  assert (H2 : length L <= list_sum (map (fun v => length (filter (P v) L)) values)).
  { apply IH. intros i Hi. apply H. now right. }
  lia.
Qed.

Section ApproximateMode.

Variable G : Generator.
Hypothesis G_lawful : lawful G.

(** The loop hands out [min need capacity] units, never two to the same
    class. *)
Lemma add_by_remainder_spec (values remainder : list Q) :
  NoDupA Qeq values ->
  forall (floored : list nat) (need : nat) (r : rng G),
    length floored = length remainder ->
    let res := fst (add_by_remainder G values remainder floored need r) in
    length res = length floored
    /\ list_sum res
       = list_sum floored
         + Nat.min need
             (list_sum (map (fun v => length (where_eq remainder v)) values))
    /\ forall j,
         nth j res 0 = nth j floored 0
         \/ (nth j res 0 = S (nth j floored 0)
             /\ exists v, In v values /\ (nth j remainder 0 == v)%Q).
Proof.
  induction 1 as [|v vs Hv Hvs IH]; intros floored need r Hlen; simpl.
  - repeat split; [lia | now left].
  - set (inds := where_eq remainder v).
    set (add_now := Nat.min (length inds) need).
    destruct (choice_spec G G_lawful r inds add_now (where_eq_NoDup _ _)
                (Nat.le_min_l _ _)) as (Hnd & Hl & Hincl).
    destruct (choice G r inds add_now) as [inds' r'] eqn:Ec. simpl in Hnd, Hl, Hincl.
    assert (Hrange : forall j, In j inds' -> j < length floored).
    { intros j Hj. apply Hincl, where_eq_In in Hj. lia. }
    pose proof (add_one_at_sum inds' floored Hnd Hrange) as Hsum.
    pose proof (add_one_at_length inds' floored) as Hlen'.
    destruct (need - add_now =? 0) eqn:Eb; simpl.
    + apply Nat.eqb_eq in Eb. repeat split.
      * exact Hlen'.
      * rewrite Hsum, Hl. fold inds. lia.
      * intros j. destruct (add_one_at_nth inds' floored j) as [E|[Hj E]];
          [now left | right].
        split; [exact E|]. exists v. split; [now left|].
        apply Hincl, where_eq_In in Hj. tauto.
    + apply Nat.eqb_neq in Eb.
      destruct (IH (add_one_at inds' floored) (need - add_now) r')
        as (Il & Is & In_); [now rewrite Hlen'|].
      repeat split.
      * now rewrite Il.
      * rewrite Is, Hsum, Hl. fold inds. lia.
      * intros j. destruct (In_ j) as [E|[E (w & Hw & Ew)]];
          destruct (add_one_at_nth inds' floored j) as [E'|[Hj E']].
        -- left. congruence.
        -- right. split; [congruence|]. exists v. split; [now left|].
           apply Hincl, where_eq_In in Hj. tauto.
        -- right. split; [congruence|]. exists w. split; [now right | exact Ew].
        -- exfalso. apply Hv. apply InA_alt. exists w. split; [|exact Hw].
           apply Hincl, where_eq_In in Hj. destruct Hj as [_ Hj].
           rewrite <- Hj. exact Ew.
Qed.

End ApproximateMode.

Lemma inject_nat_nonzero (N : nat) : 0 < N -> ~ (inject_Z (Z.of_nat N) == 0)%Q.
Proof.
  intros HN E. unfold Qeq in E. simpl in E. lia.
Qed.

(** The floor of a class share is an integer quotient. *)
Lemma floor_share (c N n : nat) :
  0 < N ->
  Z.to_nat (Qfloor (inject_Z (Z.of_nat c) / inject_Z (Z.of_nat N)
                    * inject_Z (Z.of_nat n))%Q)
  = c * n / N.
Proof.
  intros HN.
  assert (E : (inject_Z (Z.of_nat c) / inject_Z (Z.of_nat N) * inject_Z (Z.of_nat n)
               == inject_Z (Z.of_nat (c * n)) / inject_Z (Z.of_nat N))%Q).
  { rewrite Nat2Z.inj_mul, inject_Z_mult. field. now apply inject_nat_nonzero. }
  rewrite (Qfloor_comp _ _ E), <- Zdiv_Qdiv, <- Nat2Z.inj_div. apply Nat2Z.id.
Qed.

Lemma shares_sum (l : list nat) (N n : nat) :
  0 < N ->
  list_sum l * n
  = N * list_sum (map (fun c => c * n / N) l)
    + list_sum (map (fun c => (c * n) mod N) l)
  /\ list_sum (map (fun c => (c * n) mod N) l) + length l <= length l * N.
Proof.
  intros HN. induction l as [|c l [IH1 IH2]]; simpl; [lia|].
  pose proof (Nat.div_mod_eq (c * n) N) as E.
  pose proof (Nat.mod_upper_bound (c * n) N) as B.
  split; nia.
Qed.

Lemma floors_below (counts : list nat) (n : nat) :
  0 < list_sum counts ->
  let N := list_sum counts in
  let floors := list_sum (map (fun c => c * n / N) counts) in
  floors <= n /\ n - floors < length counts.
Proof.
  intros HN N floors.
  destruct (shares_sum counts N n HN) as [E B]. fold N floors in E.
  assert (Hk : 0 < length counts) by (destruct counts; simpl in *; lia).
  split; nia.
Qed.

Lemma Qcompare_refl (x : Q) : (x ?= x)%Q = Eq.
Proof. apply Qeq_alt. reflexivity. Qed.

Lemma remainders_distinct (remainder : list Q) :
  NoDupA Qeq (rev (np_unique Qcompare remainder)).
Proof.
  apply NoDupA_rev; [exact Q_Setoid|].
  assert (S : StronglySorted (fun x y => (x ?= y)%Q = Lt) (np_unique Qcompare remainder)).
  { apply np_unique_sorted.
    - intros x y z. rewrite <- !Qlt_alt. apply Qlt_trans.
    - intros x y. rewrite <- Qgt_alt, <- Qlt_alt. auto. }
  induction S as [|a l Sl IH Ha]; constructor; [|exact IH].
  intros Hin. apply InA_alt in Hin. destruct Hin as (y & Ey & Hy).
  rewrite Forall_forall in Ha. specialize (Ha y Hy).
  apply Qeq_alt in Ey. congruence.
Qed.

Lemma remainders_cover (remainder : list Q) (j : nat) :
  j < length remainder ->
  exists v, In v (rev (np_unique Qcompare remainder))
            /\ Qeq_bool (nth j remainder 0%Q) v = true.
Proof.
  intros Hj.
  destruct (np_unique_covers Q Qcompare Qcompare_refl (nth j remainder 0%Q) remainder)
    as (v & Hv & Ev); [now apply nth_In|].
  exists v. split; [now apply -> in_rev|].
  apply Qeq_bool_iff, Qeq_alt, Ev.
Qed.

Section ApproximateModeSpec.

Variable G : Generator.
Hypothesis G_lawful : lawful G.

(** [_approximate_mode] hands out exactly [n_draws] rows, and a class
    gets its floored share or one more. *)
Lemma approximate_mode_spec (counts : list nat) (n : nat) (r : rng G) :
  0 < list_sum counts ->
  let res := fst (approximate_mode G counts n r) in
  length res = length counts
  /\ list_sum res = n
  /\ forall j, j < length counts ->
       nth j res 0 <= S (nth j counts 0 * n / list_sum counts).
Proof.
  intros HN. unfold approximate_mode.
  set (N := list_sum counts).
  set (continuous := map _ counts).
  assert (Ef : map (fun q => Z.to_nat (Qfloor q)) continuous
               = map (fun c => c * n / N) counts).
  { unfold continuous. rewrite map_map. apply map_ext. intros c.
    now apply floor_share. }
  rewrite Ef.
  destruct (floors_below counts n HN) as [Hle Hlt]. fold N in Hle, Hlt.
  set (floored := map (fun c => c * n / N) counts) in *.
  assert (Hnth : forall j, j < length counts ->
                   nth j floored 0 = nth j counts 0 * n / N).
  { intros j Hj. unfold floored.
    rewrite (nth_indep _ 0 ((fun c => c * n / N) 0)) by now rewrite length_map.
    now rewrite (map_nth (fun c => c * n / N)). }
  destruct (0 <? n - list_sum floored) eqn:Eneed; cbv zeta.
  - set (remainder := map _ continuous).
    assert (Hlen : length floored = length remainder).
    { unfold floored, remainder, continuous. now rewrite !length_map. }
    destruct (add_by_remainder_spec G G_lawful _ remainder
                (remainders_distinct remainder) floored
                (n - list_sum floored) r Hlen) as (Hl & Hs & Hn).
    assert (Hcap : length remainder
                   <= list_sum (map (fun v => length (where_eq remainder v))
                                    (rev (np_unique Qcompare remainder)))).
    { rewrite <- (length_seq (length remainder) 0) at 1.
      apply (groups_cover (fun v j => Qeq_bool (nth j remainder 0%Q) v)).
      intros j Hj. apply in_seq in Hj. apply remainders_cover. lia. }
    assert (Hk : length counts = length remainder).
    { unfold remainder, continuous. now rewrite !length_map. }
    repeat split.
    + rewrite Hl. unfold floored. now rewrite length_map.
    + rewrite Hs. lia.
    + intros j Hj. rewrite <- (Hnth j Hj).
      destruct (Hn j) as [E|[E _]]; rewrite E; lia.
  - apply Nat.ltb_ge in Eneed. simpl. repeat split.
    + unfold floored. now rewrite length_map.
    + lia.
    + intros j Hj. rewrite (Hnth j Hj). lia.
Qed.

(** When the counts already add up to [n_draws], every class gets its
    count and the generator is not used. *)
Lemma approximate_mode_exact (counts : list nat) (r : rng G) :
  0 < list_sum counts ->
  approximate_mode G counts (list_sum counts) r = (counts, r).
Proof.
  intros HN. unfold approximate_mode.
  set (N := list_sum counts).
  assert (Ef : map (fun q => Z.to_nat (Qfloor q))
                 (map (fun c => (inject_Z (Z.of_nat c) / inject_Z (Z.of_nat N)
                                 * inject_Z (Z.of_nat N))%Q) counts)
               = counts).
  { rewrite map_map. rewrite <- (map_id counts) at 2. apply map_ext. intros c.
    rewrite floor_share by exact HN. now apply Nat.div_mul, Nat.neq_0_lt_0. }
  rewrite Ef. fold N. now rewrite Nat.sub_diag.
Qed.

End ApproximateModeSpec.

(** ** The stratified split: the rows of each class *)

Lemma positions_length (y : list Z) (c : Z) :
  length (filter (fun i => (nth i y 0 =? c)%Z) (seq 0 (length y)))
  = count_occ Z.eq_dec y c.
Proof.
  induction y as [|a y IH] using rev_ind; [reflexivity|].
  replace (length (y ++ [a])) with (S (length y))
    by (rewrite length_app; simpl; lia).
  rewrite seq_S, filter_app, length_app, count_occ_app. simpl.
  rewrite nth_middle. f_equal.
  - rewrite <- IH. f_equal. apply filter_ext_in. intros i Hi.
    apply in_seq in Hi. rewrite app_nth1 by lia. reflexivity.
  - destruct (Z.eqb_spec a c), (Z.eq_dec a c); simpl; congruence.
Qed.

Lemma filter_or_disjoint {A : Type} (f g : A -> bool) (l : list A) :
  (forall x, In x l -> f x = true -> g x = false) ->
  Permutation (filter (fun x => f x || g x) l) (filter f l ++ filter g l).
Proof.
  induction l as [|x l IH]; intros H; simpl; [constructor|].
  assert (IH' := IH (fun z Hz => H z (or_intror Hz))).
  destruct (f x) eqn:Ef; simpl.
  - rewrite (H x (or_introl eq_refl) Ef). now constructor.
  - destruct (g x).
    + now apply Permutation_cons_app.
    + exact IH'.
Qed.

Lemma positions_by_class (y : list Z) (cs : list Z) (L : list nat) :
  NoDup cs ->
  Permutation
    (concat (map (fun c => filter (fun i => (nth i y 0 =? c)%Z) L) cs))
    (filter (fun i => existsb (fun c => (nth i y 0 =? c)%Z) cs) L).
Proof.
  induction 1 as [|c cs Hc Hcs IH]; simpl.
  - induction L; simpl; auto.
  - eapply Permutation_trans; [apply Permutation_app_head, IH|].
    symmetry.
    apply (filter_or_disjoint (fun i => (nth i y 0 =? c)%Z)
             (fun i => existsb (fun c' => (nth i y 0 =? c')%Z) cs)).
    intros i _ E. apply Z.eqb_eq in E.
    destruct (existsb _ cs) eqn:Ex; [|reflexivity].
    apply existsb_exists in Ex. destruct Ex as (c' & Hc' & E').
    apply Z.eqb_eq in E'. congruence.
Qed.

(** The positions of the classes, put together, are all the positions. *)
Lemma class_indices_partition (y : list Z) :
  Permutation
    (concat (map (fun c => filter (fun i => (nth i y 0 =? c)%Z) (seq 0 (length y)))
                 (np_unique Z.compare y)))
    (seq 0 (length y)).
Proof.
  eapply Permutation_trans; [apply positions_by_class, classes_NoDup|].
  rewrite forallb_filter_id; [reflexivity|].
  apply forallb_forall. intros i Hi. apply in_seq in Hi.
  apply existsb_exists. exists (nth i y 0%Z). split.
  - apply classes_in, nth_In. lia.
  - apply Z.eqb_refl.
Qed.

Lemma class_counts_sum (y : list Z) :
  list_sum (map (fun c => count_occ Z.eq_dec y c) (np_unique Z.compare y)) = length y.
Proof.
  transitivity
    (length (concat (map (fun c => filter (fun i => (nth i y 0 =? c)%Z)
                                     (seq 0 (length y)))
                         (np_unique Z.compare y)))).
  - generalize (np_unique Z.compare y). intros cs.
    induction cs as [|c cs IH]; simpl; [reflexivity|].
    now rewrite length_app, positions_length, IH.
  - rewrite (Permutation_length (class_indices_partition y)). apply length_seq.
Qed.

Lemma class_counts_positive (y : list Z) :
  Forall (fun n => 0 < n) (map (fun c => count_occ Z.eq_dec y c) (np_unique Z.compare y)).
Proof.
  apply Forall_map, Forall_forall. intros c Hc.
  apply (proj1 (classes_in y c)) in Hc.
  exact (proj1 (count_occ_In Z.eq_dec y c) Hc).
Qed.

Lemma fold_min_spec (l : list nat) (a m : nat) :
  m <= fold_left Nat.min l a <-> m <= a /\ Forall (fun x => m <= x) l.
Proof.
  revert a. induction l as [|x l IH]; intros a; simpl.
  - intuition.
  - rewrite IH, Forall_cons_iff, Nat.min_glb_iff. tauto.
Qed.

Lemma np_min_spec (l : list nat) (m : nat) :
  l <> [] ->
  exists least, np_min l = Ok least /\ (m <= least <-> Forall (fun x => m <= x) l).
Proof.
  destruct l as [|a l]; [congruence|]. intros _. simpl.
  eexists. split; [reflexivity|].
  rewrite fold_min_spec, Forall_cons_iff. reflexivity.
Qed.

(** ** The stratified split: drawing from each class *)

Lemma in_firstn {A : Type} (n : nat) (l : list A) (x : A) :
  In x (firstn n l) -> In x l.
Proof.
  intros H. rewrite <- (firstn_skipn n l). apply in_or_app. now left.
Qed.

Lemma in_skipn {A : Type} (n : nat) (l : list A) (x : A) :
  In x (skipn n l) -> In x l.
Proof.
  intros H. rewrite <- (firstn_skipn n l). apply in_or_app. now right.
Qed.

Lemma filter_none {A : Type} (f : A -> bool) (l : list A) :
  (forall x, In x l -> f x = false) -> filter f l = [].
Proof.
  induction l as [|x l IH]; intros H; simpl; [reflexivity|].
  rewrite (H x (or_introl eq_refl)). apply IH. intros z Hz. apply H. now right.
Qed.

Section DrawClasses.

Variable G : Generator.
Hypothesis G_lawful : lawful G.

Lemma draw_one (rows : list nat) (r : rng G) :
  Permutation (take_clip rows (fst (permutation G r (length rows)))) rows.
Proof.
  pose proof (G_lawful r (length rows)) as H.
  rewrite take_clip_shuffle by exact H. now apply shuffle_perm.
Qed.

(** When every class is used up by its train and test shares, the two
    parts hold every row of every class exactly once. *)
Lemma draw_classes_partition (cls : list (list nat)) :
  forall (n_i t_i : list nat) (r : rng G) (train test : list nat),
    Forall2 (fun rows nt => fst nt + snd nt = length rows) cls (combine n_i t_i) ->
    let res := draw_classes G cls n_i t_i r train test in
    Permutation (fst (fst res) ++ snd (fst res)) (train ++ test ++ concat cls).
Proof.
  induction cls as [|rows cls IH]; intros n_i t_i r train test H; simpl.
  - now rewrite app_nil_r.
  - destruct n_i as [|n ns], t_i as [|t ts]; simpl in H; inversion H; subst.
    simpl in *.
    pose proof (draw_one rows r) as Hp.
    destruct (permutation G r (length rows)) as [p r']. simpl in Hp.
    set (X := take_clip rows p) in *.
    eapply Permutation_trans; [apply IH; assumption|].
    assert (HX : firstn n X ++ firstn t (skipn n X) = X).
    { rewrite (firstn_all2 (n := t)); [apply firstn_skipn|].
      rewrite length_skipn, (Permutation_length Hp). lia. }
    rewrite <- !app_assoc. apply Permutation_app_head.
    eapply Permutation_trans; [apply Permutation_app_swap_app|].
    apply Permutation_app_head.
    rewrite !app_assoc. apply Permutation_app_tail.
    now rewrite HX.
Qed.

(** Counting the rows that satisfy [f] in the two parts, when [f] is
    constant on each class. *)
Lemma draw_classes_count (f : nat -> bool) (cls : list (list nat)) :
  forall (n_i t_i : list nat) (r : rng G) (train test : list nat),
    Forall2 (fun rows nt => fst nt + snd nt <= length rows) cls (combine n_i t_i) ->
    Forall (fun rows => forall i, In i rows -> f i = f (hd 0 rows)) cls ->
    let res := draw_classes G cls n_i t_i r train test in
    length (filter f (fst (fst res)))
    = length (filter f train)
      + list_sum (map (fun rn => if f (hd 0 (fst rn)) then snd rn else 0)
                      (combine cls n_i))
    /\ length (filter f (snd (fst res)))
       = length (filter f test)
         + list_sum (map (fun rt => if f (hd 0 (fst rt)) then snd rt else 0)
                         (combine cls t_i)).
Proof.
  induction cls as [|rows cls IH]; intros n_i t_i r train test H Hf; simpl.
  - split; lia.
  - destruct n_i as [|n ns], t_i as [|t ts]; simpl in H; inversion H; subst.
    inversion Hf as [|? ? Hrows Hcls]; subst. simpl in *.
    pose proof (draw_one rows r) as Hp.
    destruct (permutation G r (length rows)) as [p r']. simpl in Hp.
    set (X := take_clip rows p) in *.
    destruct (IH ns ts r' (train ++ firstn n X) (test ++ firstn t (skipn n X)))
      as [E1 E2]; [assumption..|].
    rewrite E1, E2, !filter_app, !length_app.
    assert (HXf : forall l, incl l X ->
              length (filter f l) = if f (hd 0 rows) then length l else 0).
    { intros l Hl.
      destruct (f (hd 0 rows)).
      - rewrite forallb_filter_id; [reflexivity|].
        apply forallb_forall. intros i Hi.
        apply Hrows, (Permutation_in _ Hp), Hl, Hi.
      - rewrite filter_none; [reflexivity|]. intros i Hi.
        apply Hrows, (Permutation_in _ Hp), Hl, Hi. }
    assert (Hlen : length X = length rows) by apply (Permutation_length Hp).
    rewrite (HXf (firstn n X)), (HXf (firstn t (skipn n X))).
    + rewrite !length_firstn, length_skipn.
      destruct (f (hd 0 rows)); split; lia.
    + intros i Hi. apply (in_skipn n X), (in_firstn t _ i Hi).
    + intros i Hi. apply (in_firstn n X i Hi).
Qed.

End DrawClasses.

(** ** The stratified split: the shares of the classes *)

Lemma nth_le_Forall2 (a b : list nat) :
  length a = length b ->
  (forall j, j < length b -> nth j a 0 <= nth j b 0) ->
  Forall2 le a b.
Proof.
  revert b. induction a as [|x a IH]; intros [|y b] Hl H; simpl in Hl;
    try discriminate; constructor.
  - apply (H 0). simpl. lia.
  - apply IH; [lia|]. intros j Hj. apply (H (S j)). simpl. lia.
Qed.

Lemma remaining_sum (n_i counts : list nat) :
  Forall2 le n_i counts ->
  list_sum (map (fun cn => fst cn - snd cn) (combine counts n_i)) + list_sum n_i
  = list_sum counts.
Proof. induction 1 as [|n c ns cs Hle _ IH]; simpl in *; lia. Qed.

Lemma shares_fill_classes (y : list Z) (cs : list Z) (n_i : list nat) :
  Forall2 le n_i (map (fun c => count_occ Z.eq_dec y c) cs) ->
  Forall2 (fun rows nt => fst nt + snd nt = length rows)
    (map (fun c => filter (fun i => (nth i y 0 =? c)%Z) (seq 0 (length y))) cs)
    (combine n_i
       (map (fun cn => fst cn - snd cn)
            (combine (map (fun c => count_occ Z.eq_dec y c) cs) n_i))).
Proof.
  revert n_i. induction cs as [|c cs IH]; intros n_i H; simpl in *;
    inversion H; subst; simpl; constructor.
  - simpl. rewrite positions_length. lia.
  - now apply IH.
Qed.

Section SplitSpec.

Variable G : Generator.
Hypothesis G_lawful : lawful G.

(** The train shares never exceed the classes. *)
Lemma train_shares_fit (y : list Z) (r : nat) (rng0 : rng G) :
  0 < r < length y ->
  let counts := map (fun c => count_occ Z.eq_dec y c) (np_unique Z.compare y) in
  let n_i := fst (approximate_mode G counts r rng0) in
  list_sum n_i = r /\ Forall2 le n_i counts.
Proof.
  intros Hr counts n_i.
  assert (HN : list_sum counts = length y) by apply class_counts_sum.
  destruct (approximate_mode_spec G G_lawful counts r rng0) as (Hl & Hs & Hb);
    [lia|].
  fold n_i in Hl, Hs, Hb. split; [exact Hs|].
  apply nth_le_Forall2; [exact Hl|].
  intros j Hj. eapply Nat.le_trans; [apply Hb, Hj|].
  assert (Hc : 0 < nth j counts 0).
  { pose proof (class_counts_positive y) as P. rewrite Forall_forall in P.
    apply P. now apply nth_In. }
  rewrite HN. apply Nat.Div0.div_lt_upper_bound. nia.
Qed.

(** The split once the checks have passed. *)
Lemma split_normal_form (global : rng G) (n_samples : nat) (y : list Z)
    (r t : nat) (rs : random_state_arg) (rng0 : rng G) (is_global : bool) :
  n_samples = length y -> 0 < r -> 0 < t -> r + t = length y ->
  let classes := np_unique Z.compare y in
  let counts := map (fun c => count_occ Z.eq_dec y c) classes in
  let cls := map (fun c => filter (fun i => (nth i y 0 =? c)%Z) (seq 0 (length y)))
                 classes in
  Forall (fun c => 2 <= c) counts ->
  length classes <= r -> length classes <= t ->
  check_random_state G global rs = Ok (rng0, is_global) ->
  let n_i := fst (approximate_mode G counts r rng0) in
  let rng1 := snd (approximate_mode G counts r rng0) in
  let t_i := map (fun cn => fst cn - snd cn) (combine counts n_i) in
  let drawn := draw_classes G cls n_i t_i rng1 [] [] in
  let train := permute G (snd drawn) (fst (fst drawn)) in
  let test := permute G (snd train) (snd (fst drawn)) in
  stratified_shuffle_split G global n_samples y
    (size_int (Z.of_nat t)) (size_int (Z.of_nat r)) rs
  = Ok (fst train, fst test, if is_global then snd test else global).
Proof.
  intros -> Hr Ht Hn classes counts cls H2 Hkr Hkt Hrs n_i rng1 t_i drawn train test.
  unfold stratified_shuffle_split.
  rewrite (validate_counts (Z.of_nat (length y)) (Z.of_nat r) (Z.of_nat t))
    by lia.
  simpl bind. cbv beta. simpl fst. simpl snd. rewrite !Nat2Z.id.
  fold classes. fold counts. fold cls.
  assert (Hne : counts <> []).
  { intros E. pose proof (class_counts_sum y) as S. fold classes counts in S.
    rewrite E in S. simpl in S. lia. }
  destruct (np_min_spec counts 2 Hne) as (least & El & Hleast).
  rewrite El. simpl bind.
  replace (least <? 2) with false
    by (symmetry; apply Nat.ltb_ge, Hleast, H2).
  replace (r <? length classes) with false by (symmetry; now apply Nat.ltb_ge).
  replace (t <? length classes) with false by (symmetry; now apply Nat.ltb_ge).
  rewrite Hrs. simpl bind. cbv beta iota.
  destruct (train_shares_fit y r rng0) as [Hs Hle]; [lia|].
  fold classes counts n_i in Hs, Hle.
  rewrite (surjective_pairing (approximate_mode G counts r rng0)).
  fold n_i rng1. fold t_i.
  assert (Ht_i : list_sum t_i = t).
  { pose proof (remaining_sum n_i counts Hle) as E. fold t_i in E.
    pose proof (class_counts_sum y) as S. fold classes counts in S. lia. }
  rewrite <- Ht_i at 1.
  rewrite (approximate_mode_exact G t_i rng1) by lia.
  fold drawn.
  rewrite (surjective_pairing drawn), (surjective_pairing (fst drawn)).
  fold train. rewrite (surjective_pairing train).
  fold test. rewrite (surjective_pairing test).
  reflexivity.
Qed.

End SplitSpec.

(** ** The stratified split: selecting the rows *)

Lemma iloc_Forall2 {A : Type} (data : list A) (idx : list nat) (rows : list A) :
  iloc data idx = Ok rows ->
  Forall2 (fun i x => nth_error data i = Some x) idx rows.
Proof.
  intros H. apply mapM_Forall2 in H.
  eapply Forall2_impl; [|exact H]. simpl. intros i x.
  destruct (nth_error data i); [now intros [= ->] | discriminate].
Qed.

Lemma iloc_in_range {A : Type} (data : list A) (idx : list nat) :
  Forall (fun i => i < length data) idx -> exists rows, iloc data idx = Ok rows.
Proof.
  induction 1 as [|i idx Hi _ [rows IH]]; [now exists []|].
  unfold iloc in *. simpl.
  destruct (nth_error data i) as [x|] eqn:E.
  - simpl. rewrite IH. simpl. now eexists.
  - apply nth_error_None in E. lia.
Qed.

Lemma rows_in_order {A : Type} (pre data : list A) :
  Forall2 (fun i x => nth_error (pre ++ data) i = Some x)
          (seq (length pre) (length data)) data.
Proof.
  revert pre. induction data as [|x data IH]; intros pre; simpl; constructor.
  - now rewrite nth_error_app2, Nat.sub_diag by lia.
  - specialize (IH (pre ++ [x])).
    rewrite <- app_assoc, length_app, Nat.add_comm in IH. exact IH.
Qed.

Lemma rows_functional {A : Type} (data : list A) (idx : list nat) (a b : list A) :
  Forall2 (fun i x => nth_error data i = Some x) idx a ->
  Forall2 (fun i x => nth_error data i = Some x) idx b ->
  a = b.
Proof.
  intros Ha. revert b. induction Ha as [|i x idx a Hx _ IH]; intros b Hb;
    inversion Hb; subst; [reflexivity|].
  f_equal; [congruence | now apply IH].
Qed.

(** Rows selected at positions that rearrange [range(len(data))] rearrange
    the table. *)
Lemma rows_of_partition {A : Type} (data : list A) (tr te : list nat)
    (train test : list A) :
  Forall2 (fun i x => nth_error data i = Some x) tr train ->
  Forall2 (fun i x => nth_error data i = Some x) te test ->
  Permutation (tr ++ te) (seq 0 (length data)) ->
  Permutation (train ++ test) data.
Proof.
  intros Htr Hte Hp.
  pose proof (Forall2_app Htr Hte) as Hall.
  destruct (Permutation_Forall2 Hp Hall) as (rows & Hrows & Hseq).
  pose proof (rows_in_order [] data) as Hd. simpl in Hd.
  now rewrite (rows_functional data _ _ _ Hd Hseq).
Qed.

Lemma rows_label_count (data : Dataset) (idx : list nat) (rows : Dataset) (c : Z) :
  Forall2 (fun i x => nth_error data i = Some x) idx rows ->
  length (stratum c rows)
  = length (filter (fun i => (nth i (map label data) 0 =? c)%Z) idx).
Proof.
  induction 1 as [|i x idx rows Hx _ IH]; [reflexivity|].
  unfold stratum in *. simpl.
  assert (E : nth i (map label data) 0%Z = label x).
  { apply nth_error_nth. now rewrite nth_error_map, Hx. }
  rewrite E. destruct (label x =? c)%Z; simpl; now rewrite IH.
Qed.

(** ** The stratified split: the outcome of [stratified_split] *)

Lemma filter_length_perm {A : Type} (f : A -> bool) (l l' : list A) :
  Permutation l l' -> length (filter f l) = length (filter f l').
Proof.
  induction 1 as [|x l l' _ IH|x y l|l l' l'' _ IH1 _ IH2]; simpl.
  - reflexivity.
  - destruct (f x); simpl; now rewrite IH.
  - destruct (f x), (f y); reflexivity.
  - congruence.
Qed.

Section StratifiedSplit.

Variable G : Generator.

(** A split asked for no test row, or for no train row, is refused. *)
Lemma split_counts_refused (global : rng G) (n_samples : nat) (y : list Z)
    (t r : Z) (rs : random_state_arg) :
  (t <= 0)%Z \/ (Z.of_nat n_samples <= t)%Z ->
  exists msg,
    stratified_shuffle_split G global n_samples y (size_int t) (size_int r) rs
    = Raise (ValueError msg).
Proof.
  intros H. unfold stratified_shuffle_split, validate_shuffle_split.
  assert (E : out_of_range (Z.of_nat n_samples) (size_int t) = true).
  { unfold out_of_range. apply orb_true_iff.
    destruct H as [H|H]; [right | left]; now apply Z.leb_le. }
  rewrite E. eexists. reflexivity.
Qed.

(** [stratified_split] with a float test size in (0,1): the first
    validation computes the two sizes, the second one refuses them when
    one of them is not a positive count. *)
Lemma stratified_split_unfold (global : rng G) (data : Dataset) (f : Q) (seed : Z) :
  (0 < f)%Q -> (f < 1)%Q ->
  let n := length data in
  let t := n_test_of f n in
  let r := n - t in
  (t = 0 \/ r = 0 ->
   exists msg, stratified_split G global data f seed = Raise (ValueError msg))
  /\ (0 < t -> 0 < r ->
      stratified_split G global data f seed
      = (split <- stratified_shuffle_split G global n (map label data)
                    (size_int (Z.of_nat t)) (size_int (Z.of_nat r)) (rs_int seed) ;;
         let '(train, test, global') := split in
         train_rows <- iloc data train ;;
         test_rows <- iloc data test ;;
         Ok (train_rows, test_rows, global'))%py).
Proof.
  intros H0 H1 n t r.
  unfold stratified_split, train_test_split. fold n.
  rewrite validate_float by assumption. cbv zeta.
  set (tz := Qceiling (float_mul f (float_of_int (Z.of_nat n)))).
  assert (Et : t = Z.to_nat tz) by reflexivity.
  rewrite length_map. fold n. rewrite Nat.eqb_refl.
  split.
  - intros Hout.
    destruct (Z.of_nat n - tz =? 0)%Z; [eexists; reflexivity|].
    simpl bind.
    destruct (split_counts_refused global n (map label data) tz (Z.of_nat n - tz)
                (rs_int seed)) as [msg E]; [unfold r in Hout; lia|].
    rewrite E. eexists. reflexivity.
  - intros Ht Hr.
    replace (Z.of_nat n - tz =? 0)%Z with false
      by (symmetry; apply Z.eqb_neq; unfold r in Hr; lia).
    simpl bind.
    replace tz with (Z.of_nat t) by lia.
    replace (Z.of_nat n - Z.of_nat t)%Z with (Z.of_nat r) by (unfold r; lia).
    reflexivity.
Qed.

Lemma classes_nonempty (y : list Z) :
  0 < length y -> 0 < length (np_unique Z.compare y).
Proof.
  intros H. pose proof (class_counts_sum y) as S.
  destruct (np_unique Z.compare y); simpl in *; lia.
Qed.

Hypothesis G_lawful : lawful G.

(** When the checks of the split pass, it returns the rows at two lists
    of positions that together rearrange all the positions, and the rows
    of each class are shared out as [_approximate_mode] says. *)
Lemma stratified_split_returns (global : rng G) (data : Dataset) (f : Q) (seed : Z) :
  (0 < f)%Q -> (f < 1)%Q -> (0 <= seed < 2 ^ 32)%Z ->
  let n := length data in
  let y := map label data in
  let t := n_test_of f n in
  let r := n - t in
  let classes := np_unique Z.compare y in
  let counts := map (fun c => count_occ Z.eq_dec y c) classes in
  let cls := map (fun c => filter (fun i => (nth i y 0 =? c)%Z) (seq 0 (length y)))
                 classes in
  let n_i := fst (approximate_mode G counts r (RandomState G seed)) in
  let t_i := map (fun cn => fst cn - snd cn) (combine counts n_i) in
  0 < r -> Forall (fun c => 2 <= c) counts ->
  length classes <= r -> length classes <= t ->
  exists (tr te : list nat) (train test : Dataset),
    stratified_split G global data f seed = Ok (train, test, global)
    /\ Forall2 (fun i x => nth_error data i = Some x) tr train
    /\ Forall2 (fun i x => nth_error data i = Some x) te test
    /\ Permutation (tr ++ te) (seq 0 n)
    /\ forall p : nat -> bool,
         Forall (fun rows => forall i, In i rows -> p i = p (hd 0 rows)) cls ->
         length (filter p tr)
         = list_sum (map (fun rn => if p (hd 0 (fst rn)) then snd rn else 0)
                         (combine cls n_i))
         /\ length (filter p te)
            = list_sum (map (fun rt => if p (hd 0 (fst rt)) then snd rt else 0)
                            (combine cls t_i)).
Proof.
  intros H0 H1 Hseed n y t r classes counts cls n_i t_i Hr H2 Hkr Hkt.
  assert (Hn : length y = n) by apply length_map.
  assert (Ht : 0 < t).
  { pose proof (classes_nonempty y) as Hc. fold classes in Hc. lia. }
  pose proof (proj2 (stratified_split_unfold global data f seed H0 H1) Ht Hr) as E.
  fold n t r in E.
  assert (Hrs : check_random_state G global (rs_int seed)
                = Ok (RandomState G seed, false)).
  { unfold check_random_state.
    replace ((0 <=? seed) && (seed <? 2 ^ 32))%Z with true; [reflexivity|].
    symmetry. apply andb_true_iff. split; [apply Z.leb_le | apply Z.ltb_lt]; lia. }
  pose proof (split_normal_form G G_lawful global n y r t (rs_int seed)
                (RandomState G seed) false (eq_sym Hn) Hr Ht ltac:(lia)
                H2 Hkr Hkt Hrs) as NF.
  cbv zeta in NF. fold y classes counts cls n_i t_i in NF.
  set (rng1 := snd (approximate_mode G counts r (RandomState G seed))) in NF.
  set (drawn := draw_classes G cls n_i t_i rng1 [] []) in NF.
  set (train_p := permute G (snd drawn) (fst (fst drawn))) in NF.
  set (test_p := permute G (snd train_p) (snd (fst drawn))) in NF.
  destruct (train_shares_fit G G_lawful y r (RandomState G seed)) as [Hs Hle];
    [lia|].
  fold classes counts n_i in Hs, Hle.
  pose proof (shares_fill_classes y classes n_i Hle) as Hfill.
  fold counts cls t_i in Hfill.
  assert (Ptr : Permutation (fst train_p) (fst (fst drawn))) by apply permute_perm, G_lawful.
  assert (Pte : Permutation (fst test_p) (snd (fst drawn))) by apply permute_perm, G_lawful.
  assert (Pall : Permutation (fst train_p ++ fst test_p) (seq 0 n)).
  { eapply Permutation_trans; [apply Permutation_app; eassumption|].
    eapply Permutation_trans;
      [apply (draw_classes_partition G G_lawful cls n_i t_i rng1 [] [] Hfill)|].
    simpl. rewrite <- Hn. apply class_indices_partition. }
  assert (Hrange : Forall (fun i => i < length data) (fst train_p ++ fst test_p)).
  { apply Forall_forall. intros i Hi.
    apply (Permutation_in _ Pall), in_seq in Hi. fold n. lia. }
  apply Forall_app in Hrange. destruct Hrange as [Rtr Rte].
  destruct (iloc_in_range data _ Rtr) as [train Etr].
  destruct (iloc_in_range data _ Rte) as [test Ete].
  exists (fst train_p), (fst test_p), train, test.
  split; [|split; [|split; [|split]]].
  - rewrite E. fold y. rewrite NF. unfold bind. cbv beta iota. rewrite Etr, Ete.
    reflexivity.
  - now apply iloc_Forall2.
  - now apply iloc_Forall2.
  - exact Pall.
  - intros p Hp.
    rewrite (filter_length_perm p _ _ Ptr), (filter_length_perm p _ _ Pte).
    apply (draw_classes_count G G_lawful p cls n_i t_i rng1 [] []); [|exact Hp].
    eapply Forall2_impl; [|exact Hfill]. simpl. intros; lia.
Qed.

End StratifiedSplit.

Section SplitFailures.

Variable G : Generator.

Lemma split_checks_fail (global : rng G) (n_samples : nat) (y : list Z)
    (r t : nat) (seed : Z) :
  n_samples = length y -> 0 < r -> 0 < t -> r + t = length y ->
  let classes := np_unique Z.compare y in
  let counts := map (fun c => count_occ Z.eq_dec y c) classes in
  ~ (Forall (fun c => 2 <= c) counts /\ length classes <= r
     /\ length classes <= t /\ (0 <= seed < 2 ^ 32)%Z) ->
  exists msg,
    stratified_shuffle_split G global n_samples y
      (size_int (Z.of_nat t)) (size_int (Z.of_nat r)) (rs_int seed)
    = Raise (ValueError msg).
Proof.
  intros -> Hr Ht Hn classes counts Hnot.
  unfold stratified_shuffle_split.
  rewrite (validate_counts (Z.of_nat (length y)) (Z.of_nat r) (Z.of_nat t))
    by lia.
  simpl bind. cbv beta. simpl fst. simpl snd. rewrite !Nat2Z.id.
  fold classes. fold counts.
  assert (Hne : counts <> []).
  { intros E. pose proof (class_counts_sum y) as S. fold classes counts in S.
    rewrite E in S. simpl in S. lia. }
  destruct (np_min_spec counts 2 Hne) as (least & El & Hleast).
  rewrite El. simpl bind.
  destruct (Nat.ltb_spec least 2) as [|H2]; [eexists; reflexivity|].
  destruct (Nat.ltb_spec r (length classes)) as [|Hkr]; [eexists; reflexivity|].
  destruct (Nat.ltb_spec t (length classes)) as [|Hkt]; [eexists; reflexivity|].
  destruct ((0 <=? seed) && _)%Z eqn:Es; [|eexists; reflexivity].
  exfalso. apply Hnot. apply andb_true_iff in Es. destruct Es as [Ea Eb].
  apply Z.leb_le in Ea. apply Z.ltb_lt in Eb.
  change (Z.pow_pos 2 32) with (2 ^ 32)%Z in Eb.
  repeat split; try assumption. now apply Hleast.
Qed.

Lemma stratified_split_raises (global : rng G) (data : Dataset) (f : Q) (seed : Z) :
  (0 < f)%Q -> (f < 1)%Q ->
  let n := length data in
  let y := map label data in
  let t := n_test_of f n in
  let r := n - t in
  let classes := np_unique Z.compare y in
  let counts := map (fun c => count_occ Z.eq_dec y c) classes in
  ~ (0 < r /\ Forall (fun c => 2 <= c) counts /\ length classes <= r
     /\ length classes <= t /\ (0 <= seed < 2 ^ 32)%Z) ->
  exists msg, stratified_split G global data f seed = Raise (ValueError msg).
Proof.
  intros H0 H1 n y t r classes counts Hnot.
  destruct (stratified_split_unfold G global data f seed H0 H1)
    as (Eout & E).
  fold n t r in Eout, E.
  destruct (Nat.eq_dec t 0) as [|Ht]; [apply Eout; now left|].
  destruct (Nat.eq_dec r 0) as [|Hr]; [apply Eout; now right|].
  rewrite E by lia.
  destruct (split_checks_fail global n y r t seed) as [e Ee].
  - symmetry. apply length_map.
  - lia.
  - lia.
  - unfold y. rewrite length_map. fold n. unfold r in *. lia.
  - fold classes counts. intros (A & B & C & D). apply Hnot.
    repeat split; try assumption; lia.
  - fold y. rewrite Ee. eexists; reflexivity.
Qed.

(** With an int seed the split neither reads nor moves numpy's global
    generator. *)
Lemma seeded_split_ignores_global (g1 g2 : rng G) (n_samples : nat) (y : list Z)
    (test_size train_size : size_arg) (seed : Z) :
  stratified_shuffle_split G g2 n_samples y test_size train_size (rs_int seed)
  = (split <- stratified_shuffle_split G g1 n_samples y test_size train_size
                (rs_int seed) ;;
     Ok (fst split, g2))%py.
Proof.
  unfold stratified_shuffle_split.
  destruct (validate_shuffle_split _ _ _ _) as [sizes|e]; [|reflexivity].
  simpl bind.
  destruct (np_min _) as [least|e]; [|reflexivity]. simpl bind.
  destruct (least <? 2); [reflexivity|].
  destruct (_ <? _); [reflexivity|].
  destruct (_ <? _); [reflexivity|].
  destruct ((0 <=? seed) && _)%Z; [|reflexivity].
  simpl bind. cbv beta iota.
  destruct (approximate_mode _ _ _ _) as [n_i rng1].
  destruct (approximate_mode _ _ _ _) as [t_i rng2].
  destruct (draw_classes _ _ _ _ _ _ _) as [[train test] rng3].
  destruct (permute _ _ _) as [train' rng4].
  destruct (permute _ _ _) as [test' rng5].
  reflexivity.
Qed.

End SplitFailures.

Lemma rotating_lawful : lawful rotating.
Proof.
  intros r n. simpl.
  eapply Permutation_trans; [apply Permutation_app_comm|].
  now rewrite firstn_skipn.
Qed.

(** ** The stratified split: a partition, the same for a given seed *)

(** C4. For every table and every test fraction in (0,1), the pair
    returned by the stratified split is a partition of the table: the train
    and the test rows sit at two lists of positions that share no position
    and repeat none, that together hold every position of the table, and so
    the two parts put together are the table up to order; no row is lost
    and none is duplicated. *)
Theorem split_is_partition (G : Generator) (global global' : rng G)
    (data train test : Dataset) (f : Q) (seed : Z) :
  lawful G ->
  (0 < f)%Q -> (f < 1)%Q ->
  stratified_split G global data f seed = Ok (train, test, global') ->
  Permutation (train ++ test) data
  /\ exists tr te : list nat,
       Forall2 (fun i x => nth_error data i = Some x) tr train
       /\ Forall2 (fun i x => nth_error data i = Some x) te test
       /\ NoDup (tr ++ te)
       /\ forall i, In i (tr ++ te) <-> i < length data.
Proof.
  intros HG H0 H1 E.
  set (n := length data). set (y := map label data).
  set (t := n_test_of f n). set (r := n - t).
  set (classes := np_unique Z.compare y).
  set (counts := map (fun c => count_occ Z.eq_dec y c) classes).
  destruct (lt_dec 0 r) as [Hr|Hr],
    (Forall_dec (fun c => 2 <= c) (fun c => le_dec 2 c) counts) as [H2|H2],
    (le_dec (length classes) r) as [Hkr|Hkr],
    (le_dec (length classes) t) as [Hkt|Hkt],
    (Z_le_dec 0 seed) as [Hs0|Hs0], (Z_lt_dec seed (2 ^ 32)) as [Hs1|Hs1];
    try (destruct (stratified_split_raises G global data f seed H0 H1) as [e Ee];
         [fold n y t r classes counts; tauto | congruence]).
  destruct (stratified_split_returns G HG global data f seed H0 H1 (conj Hs0 Hs1)
              Hr H2 Hkr Hkt) as (tr & te & train' & test' & E' & Ftr & Fte & P & _).
  rewrite E' in E. injection E as <- <- _.
  split; [now apply (rows_of_partition data tr te)|].
  exists tr, te. repeat split; try assumption.
  - eapply Permutation_NoDup; [symmetry; exact P | apply seq_NoDup].
  - intros Hi. apply (Permutation_in _ P), in_seq in Hi. lia.
  - intros Hi. apply (Permutation_in _ (Permutation_sym P)), in_seq. lia.
Qed.

Lemma split_is_partition_witness :
  exists train test : Dataset,
    stratified_split rotating 7 demo_data (1 # 10) 42 = Ok (train, test, 7)
    /\ Permutation (train ++ test) demo_data.
Proof.
  eexists. eexists. split; [vm_compute; reflexivity|].
  apply (split_is_partition rotating 7 7 demo_data _ _ (1 # 10) 42 rotating_lawful).
  - reflexivity.
  - reflexivity.
  - vm_compute. reflexivity.
Defined.

(** C5. The split is a function of the table, the test size and the seed
    alone: run from any two states of numpy's global generator it gives the
    same outcome, the same train and test rows in the same order (or the
    same error), and it leaves the global generator as it found it. *)
Theorem split_deterministic (G : Generator) (g1 g2 : rng G) (data : Dataset)
    (f : Q) (seed : Z) :
  stratified_split G g2 data f seed
  = (split <- stratified_split G g1 data f seed ;; Ok (fst split, g2))%py.
Proof.
  unfold stratified_split, train_test_split.
  destruct (validate_shuffle_split _ _ _ _) as [sizes|e]; [|reflexivity].
  simpl bind. destruct (negb _); [reflexivity|].
  rewrite (seeded_split_ignores_global G g1 g2).
  destruct (stratified_shuffle_split G g1 _ _ _ _ _) as [[[tr te] g]|e];
    [|reflexivity].
  simpl bind. cbv beta iota. simpl fst.
  destruct (iloc data tr) as [train|e]; [|reflexivity]. simpl bind.
  destruct (iloc data te) as [test|e]; reflexivity.
Qed.

(** ** The stratified split: a table with labels 0 and 1 *)

Lemma stratum_count (data : Dataset) (c : Z) :
  length (stratum c data) = count_occ Z.eq_dec (map label data) c.
Proof.
  induction data as [|x data IH]; [reflexivity|].
  unfold stratum in *. simpl.
  destruct (Z.eqb_spec (label x) c), (Z.eq_dec (label x) c); simpl; congruence.
Qed.

Lemma two_labels_only (y : list Z) (a b : Z) :
  a <> b ->
  count_occ Z.eq_dec y a + count_occ Z.eq_dec y b = length y ->
  forall x, In x y -> x = a \/ x = b.
Proof.
  intros Hab.
  assert (Hle : forall l, count_occ Z.eq_dec l a + count_occ Z.eq_dec l b <= length l).
  { induction l as [|z l IH]; simpl; [lia|].
    destruct (Z.eq_dec z a), (Z.eq_dec z b); simpl; lia. }
  induction y as [|z y IH]; simpl; [tauto|].
  intros E x [<-|Hx].
  - destruct (Z.eq_dec z a), (Z.eq_dec z b); auto.
    specialize (Hle y). lia.
  - apply IH; [|exact Hx].
    specialize (Hle y).
    destruct (Z.eq_dec z a), (Z.eq_dec z b); simpl in *; lia.
Qed.

Lemma classes_zero_one (y : list Z) :
  In 0%Z y -> In 1%Z y -> (forall x, In x y -> x = 0 \/ x = 1)%Z ->
  np_unique Z.compare y = [0; 1]%Z.
Proof.
  intros H0 H1 Hall.
  pose proof (classes_sorted y) as S.
  assert (Hin : forall c, In c (np_unique Z.compare y) <-> (c = 0 \/ c = 1)%Z).
  { intros c. rewrite classes_in. split; [apply Hall|]. now intros [->| ->]. }
  destruct (np_unique Z.compare y) as [|a l].
  - exfalso. apply (Hin 0%Z). now left.
  - inversion S as [|? ? Sl Ha]; subst. rewrite Forall_forall in Ha.
    assert (a = 0%Z) as ->.
    { destruct (proj1 (Hin a) (or_introl eq_refl)) as [->| ->]; [reflexivity|].
      destruct (proj2 (Hin 0%Z) (or_introl eq_refl)) as [E|E]; [lia|].
      specialize (Ha _ E). lia. }
    destruct l as [|b l].
    + exfalso. destruct (proj2 (Hin 1%Z) (or_intror eq_refl)) as [E|[]]. lia.
    + inversion Sl as [|? ? Sl' Hb]; subst. rewrite Forall_forall in Hb.
      assert (b = 1%Z) as ->.
      { destruct (proj1 (Hin b) (or_intror (or_introl eq_refl))); [|assumption].
        specialize (Ha b (or_introl eq_refl)). lia. }
      destruct l as [|c l]; [reflexivity|]. exfalso.
      specialize (Hb c (or_introl eq_refl)).
      destruct (proj1 (Hin c) (or_intror (or_intror (or_introl eq_refl)))); lia.
Qed.

(** On the rows of a class, "the label is [c']" has one truth value. *)
Lemma class_constant (y : list Z) (c c' : Z) :
  let rows := filter (fun i => (nth i y 0 =? c)%Z) (seq 0 (length y)) in
  0 < count_occ Z.eq_dec y c ->
  (forall i, In i rows -> (nth i y 0 =? c')%Z = (c =? c')%Z)
  /\ (nth (hd 0%nat rows) y 0 =? c')%Z = (c =? c')%Z.
Proof.
  intros rows Hc.
  assert (Hall : forall i, In i rows -> (nth i y 0 =? c')%Z = (c =? c')%Z).
  { intros i Hi. apply filter_In in Hi. destruct Hi as [_ Hi].
    apply Z.eqb_eq in Hi. now rewrite Hi. }
  split; [exact Hall|]. apply Hall.
  pose proof (positions_length y c) as Hl. fold rows in Hl.
  destruct rows as [|i rows']; simpl in *; [lia | now left].
Qed.

(** The split of a table whose labels are 0 and 1, in terms of the train
    shares that [_approximate_mode] gives the two classes. *)
Lemma two_label_split (G : Generator) (global : rng G) (data : Dataset)
    (f : Q) (seed : Z) (a b : nat) :
  lawful G ->
  (0 < f)%Q -> (f < 1)%Q -> (0 <= seed < 2 ^ 32)%Z ->
  length (stratum 0 data) = a -> length (stratum 1 data) = b ->
  length data = a + b -> 2 <= a -> 2 <= b ->
  let t := n_test_of f (a + b) in
  let r := a + b - t in
  2 <= r -> 2 <= t ->
  let n_i := fst (approximate_mode G [a; b] r (RandomState G seed)) in
  exists train test : Dataset,
    stratified_split G global data f seed = Ok (train, test, global)
    /\ length (stratum 0 train) = nth 0 n_i 0
    /\ length (stratum 1 train) = nth 1 n_i 0
    /\ length (stratum 0 test) = a - nth 0 n_i 0
    /\ length (stratum 1 test) = b - nth 1 n_i 0
    /\ length train = r /\ length test = t.
Proof.
  intros HG Hf0 Hf1 Hseed H0 H1 Hn Ha Hb t r Hr Ht n_i.
  rewrite stratum_count in H1, H0.
  set (y := map label data) in *.
  assert (Hy : length y = a + b) by (unfold y; now rewrite length_map).
  assert (Hall : forall x, In x y -> (x = 0 \/ x = 1)%Z).
  { apply two_labels_only; [discriminate | lia]. }
  assert (Hc : np_unique Z.compare y = [0; 1]%Z).
  { apply classes_zero_one; [| |exact Hall];
      apply (count_occ_In Z.eq_dec); lia. }
  destruct (stratified_split_returns G HG global data f seed Hf0 Hf1 Hseed)
    as (tr & te & train & test & E & Ftr & Fte & P & Hcount).
  - rewrite Hn. fold t r. lia.
  - fold y. rewrite Hc. simpl map. rewrite H0, H1. repeat constructor; lia.
  - fold y. rewrite Hc, Hn. fold t r. simpl. lia.
  - fold y. rewrite Hc, Hn. fold t. simpl. lia.
  - fold y in Hcount. rewrite Hc, Hn in Hcount. simpl map in Hcount.
    rewrite H0, H1 in Hcount. fold t r n_i in Hcount.
    destruct (approximate_mode_spec G HG [a; b] r (RandomState G seed))
      as (Hl & Hsum & _); [simpl; lia|].
    fold n_i in Hl, Hsum.
    destruct n_i as [|x0 [|x1 [|? ?]]]; try discriminate.
    simpl in Hsum.
    simpl combine in Hcount. simpl map in Hcount. simpl list_sum in Hcount.
    destruct (class_constant y 0 1)%Z as [A01 B01]; [lia|].
    destruct (class_constant y 0 0)%Z as [A00 B00]; [lia|].
    destruct (class_constant y 1 1)%Z as [A11 B11]; [lia|].
    destruct (class_constant y 1 0)%Z as [A10 B10]; [lia|].
    destruct (Hcount (fun i => (nth i y 0 =? 1)%Z)) as [T1 S1].
    { repeat constructor; intros i Hi.
      - now rewrite B01, (A01 i Hi).
      - now rewrite B11, (A11 i Hi). }
    destruct (Hcount (fun i => (nth i y 0 =? 0)%Z)) as [T0 S0].
    { repeat constructor; intros i Hi.
      - now rewrite B00, (A00 i Hi).
      - now rewrite B10, (A10 i Hi). }
    rewrite B01, B11 in T1, S1. rewrite B00, B10 in T0, S0.
    simpl in T1, S1, T0, S0.
    exists train, test. split; [exact E|].
    rewrite !(rows_label_count data te test), !(rows_label_count data tr train)
      by assumption.
    fold y. rewrite T1, S1, T0, S0. simpl nth.
    assert (Ltr : length tr + length te = a + b).
    { rewrite <- length_app, (Permutation_length P), length_seq. exact Hn. }
    assert (Lr : length tr = r).
    { destruct (Hcount (fun _ => true)) as [T _]; [repeat constructor|].
      rewrite forallb_filter_id in T by (apply forallb_forall; reflexivity).
      lia. }
    rewrite <- (Forall2_length Fte), <- (Forall2_length Ftr).
    repeat split; lia.
Qed.

(** The notebooks' test fraction: the double nearest to 0.1. *)
Lemma ratio_in_range :
  (0 < TRAIN_TEST_SPLIT_RATIO)%Q /\ (TRAIN_TEST_SPLIT_RATIO < 1)%Q.
Proof. split; reflexivity. Qed.

Lemma seed_in_range : (0 <= RANDOM_STATE < 2 ^ 32)%Z.
Proof. split; [discriminate | reflexivity]. Qed.

Lemma n_test_of_100 : n_test_of TRAIN_TEST_SPLIT_RATIO 100 = 10.
Proof. vm_compute. reflexivity. Qed.

Lemma n_test_of_20 : n_test_of TRAIN_TEST_SPLIT_RATIO 20 = 2.
Proof. vm_compute. reflexivity. Qed.

(** The rounding of the product decides the size of the test part.  The
    double nearest to 0.1 lies above one tenth, and so does its exact
    product with 100, whose ceiling is 11; the float product is 10.0 and
    the test part has 10 rows.  At 0.07 the float product of 100 rows lies
    above 7 and the test part has 8 rows, also when the fraction is written
    as [7 # 100], where the exact product of seven hundredths and 100
    would give 7. *)
Lemma test_size_follows_the_float_product :
  (1 # 10 < TRAIN_TEST_SPLIT_RATIO)%Q
  /\ (binary64 TRAIN_TEST_SPLIT_RATIO == TRAIN_TEST_SPLIT_RATIO)%Q
  /\ Qceiling (TRAIN_TEST_SPLIT_RATIO * inject_Z 100) = 11%Z
  /\ (float_mul TRAIN_TEST_SPLIT_RATIO (float_of_int 100) == inject_Z 10)%Q
  /\ n_test_of TRAIN_TEST_SPLIT_RATIO 100 = 10
  /\ (inject_Z 7 < float_mul seven_percent (float_of_int 100))%Q
  /\ n_test_of seven_percent 100 = 8
  /\ n_test_of (7 # 100) 100 = 8
  /\ Qceiling ((7 # 100) * inject_Z 100) = 7%Z.
Proof. repeat split; vm_compute; reflexivity. Qed.

(** C6. A table of 100 rows, 60 labelled 1 and 40 labelled 0, split with
    test fraction 0.1 and seed 42: the split succeeds, the test part has
    10 rows, 6 of them labelled 1 and 4 labelled 0 (so each count is
    within 1 of the exact share), and the train part has the other 90
    rows, 54 labelled 1 and 36 labelled 0.  This holds whatever the
    generator draws. *)
Theorem split_100_rows (G : Generator) (global : rng G) (data : Dataset) :
  lawful G ->
  length data = 100 ->
  length (stratum 1 data) = 60 ->
  length (stratum 0 data) = 40 ->
  exists train test : Dataset,
    stratified_split G global data TRAIN_TEST_SPLIT_RATIO RANDOM_STATE
    = Ok (train, test, global)
    /\ length test = 10
    /\ length (stratum 1 test) = 6 /\ length (stratum 0 test) = 4
    /\ length train = 90
    /\ length (stratum 1 train) = 54 /\ length (stratum 0 train) = 36.
Proof.
  intros HG Hn H1 H0.
  pose proof (two_label_split G global data TRAIN_TEST_SPLIT_RATIO RANDOM_STATE
                40 60 HG (proj1 ratio_in_range) (proj2 ratio_in_range)
                seed_in_range H0 H1 Hn) as S.
  cbv zeta in S. change (40 + 60) with 100 in S. rewrite n_test_of_100 in S.
  change (fst (approximate_mode G [40; 60] (100 - 10) (RandomState G RANDOM_STATE)))
    with [36; 54] in S.
  destruct S as (train & test & E & T0 & T1 & S0 & S1 & Lr & Lt); try lia.
  exists train, test. split; [exact E|].
  simpl in T0, T1, S0, S1, Lr.
  repeat split; assumption.
Qed.

Lemma split_100_rows_witness :
  exists train test : Dataset,
    stratified_split rotating 0 hundred_rows TRAIN_TEST_SPLIT_RATIO RANDOM_STATE
    = Ok (train, test, 0)
    /\ length test = 10
    /\ length (stratum 1 test) = 6 /\ length (stratum 0 test) = 4
    /\ length train = 90
    /\ length (stratum 1 train) = 54 /\ length (stratum 0 train) = 36.
Proof.
  apply (split_100_rows rotating 0 hundred_rows rotating_lawful); reflexivity.
Defined.

(** ** The stratified split: when it fails *)

Lemma choice_of_one (G : Generator) (r : rng G) (a : nat) :
  lawful G -> choice G r [a] 1 = ([a], snd (permutation G r 1)).
Proof.
  intros HG. pose proof (HG r 1) as Hp. unfold choice. simpl length.
  destruct (permutation G r 1) as [p r']. simpl in *.
  apply Permutation_sym, Permutation_length_1_inv in Hp. now subst.
Qed.

(** 18 rows out of 18 + 2: the shares 16.2 and 1.8 are floored to 16 and
    1, and the one row left goes to the class with the larger remainder. *)
Lemma lopsided_shares (G : Generator) (r : rng G) :
  lawful G -> fst (approximate_mode G [18; 2] 18 r) = [16; 2].
Proof.
  intros HG. unfold approximate_mode.
  cbv -[choice fst]. rewrite (choice_of_one G r 1 HG). reflexivity.
Qed.

(** Whatever the generator draws, a table of 18 rows labelled 0 and 2 rows
    labelled 1 is split at test fraction 0.1 without an error, and no row
    labelled 1 reaches the test part. *)
Lemma small_stratum_left_out (G : Generator) (global : rng G) (data : Dataset) :
  lawful G ->
  length data = 20 ->
  length (stratum 0 data) = 18 -> length (stratum 1 data) = 2 ->
  exists train test : Dataset,
    stratified_split G global data TRAIN_TEST_SPLIT_RATIO RANDOM_STATE
    = Ok (train, test, global)
    /\ length test = 2 /\ stratum 1 test = [].
Proof.
  intros HG Hn H0 H1.
  pose proof (two_label_split G global data TRAIN_TEST_SPLIT_RATIO RANDOM_STATE
                18 2 HG (proj1 ratio_in_range) (proj2 ratio_in_range)
                seed_in_range H0 H1 Hn) as S.
  cbv zeta in S. change (18 + 2) with 20 in S. rewrite n_test_of_20 in S.
  change (20 - 2) with 18 in S.
  destruct S as (train & test & E & T0 & T1 & S0 & S1 & Lr & Lt); try lia.
  exists train, test. split; [exact E|].
  rewrite (lopsided_shares G _ HG) in S1. simpl in S1.
  split; [exact Lt|]. now apply length_zero_iff_nil.
Qed.

(** C9, as the code has it.  For a test fraction in (0,1) and a seed that
    numpy accepts, the split fails, with a [ValueError], exactly when the
    train part would be empty ([n - n_test = 0], where [n_test] is the
    ceiling of the float product [f * n]), or some label has fewer than 2
    rows, or the train size or the test size is smaller than the number of
    distinct labels; on every other table it succeeds. *)
Theorem split_fails_exactly_when (G : Generator) (global : rng G)
    (data : Dataset) (f : Q) (seed : Z) :
  lawful G ->
  (0 < f)%Q -> (f < 1)%Q -> (0 <= seed < 2 ^ 32)%Z ->
  let n := length data in
  let y := map label data in
  let n_test := n_test_of f n in
  let n_train := n - n_test in
  let n_classes := length (np_unique Z.compare y) in
  let too_small :=
    n_train = 0
    \/ (exists c, In c y /\ count_occ Z.eq_dec y c < 2)
    \/ n_train < n_classes
    \/ n_test < n_classes in
  (too_small ->
     exists msg, stratified_split G global data f seed = Raise (ValueError msg))
  /\ (~ too_small ->
        exists train test,
          stratified_split G global data f seed = Ok (train, test, global))
  /\ (is_ok (stratified_split G global data f seed) = false <-> too_small).
Proof.
  intros HG H0 H1 Hseed n y n_test n_train n_classes too_small.
  set (counts := map (fun c => count_occ Z.eq_dec y c) (np_unique Z.compare y)).
  assert (Hcounts : Forall (fun c => 2 <= c) counts
                    <-> ~ exists c, In c y /\ count_occ Z.eq_dec y c < 2).
  { unfold counts. rewrite Forall_map, Forall_forall. split.
    - intros H (c & Hc & Hlt). apply classes_in in Hc. specialize (H c Hc). lia.
    - intros H c Hc. apply (proj1 (classes_in y c)) in Hc.
      destruct (le_lt_dec 2 (count_occ Z.eq_dec y c)); [assumption|].
      exfalso. apply H. now exists c. }
  assert (Hfail : too_small ->
            exists msg, stratified_split G global data f seed = Raise (ValueError msg)).
  { intros Hts. apply stratified_split_raises; try assumption.
    fold n y n_test n_train counts. fold n_classes.
    intros (A & B & C & D & _). apply Hcounts in B.
    destruct Hts as [Hts|[Hts|[Hts|Hts]]]; try lia. now apply B. }
  assert (Hsucc : ~ too_small ->
            exists train test,
              stratified_split G global data f seed = Ok (train, test, global)).
  { intros Hts.
    destruct (stratified_split_returns G HG global data f seed H0 H1 Hseed)
      as (tr & te & train & test & E & _).
    - fold n n_test n_train. unfold too_small in Hts. lia.
    - fold y counts. apply Hcounts. unfold too_small in Hts. tauto.
    - fold n y n_test n_train n_classes. unfold too_small in Hts. lia.
    - fold n y n_test n_classes. unfold too_small in Hts. lia.
    - now exists train, test. }
  split; [exact Hfail|]. split; [exact Hsucc|].
  split.
  - intros Hno.
    assert (Hdec : too_small \/ ~ too_small).
    { unfold too_small.
      destruct (Nat.eq_dec n_train 0); [now left; left|].
      destruct (lt_dec n_train n_classes); [now left; right; right; left|].
      destruct (lt_dec n_test n_classes); [now left; right; right; right|].
      destruct (Forall_dec (fun c => 2 <= c) (fun c => le_dec 2 c) counts) as [F|F].
      - right. apply Hcounts in F. tauto.
      - left. right. left.
        destruct (Exists_dec (fun c => count_occ Z.eq_dec y c < 2)
                    (np_unique Z.compare y)
                    (fun c => lt_dec (count_occ Z.eq_dec y c) 2)) as [X|X].
        + apply Exists_exists in X. destruct X as (c & Hc & Hlt).
          exists c. split; [now apply classes_in|exact Hlt].
        + exfalso. apply F. unfold counts. rewrite Forall_map, Forall_forall.
          intros c Hc. destruct (le_lt_dec 2 (count_occ Z.eq_dec y c)); [assumption|].
          exfalso. apply X, Exists_exists. now exists c. }
    destruct Hdec as [|Hts]; [assumption|].
    destruct (Hsucc Hts) as (train & test & E). rewrite E in Hno. discriminate.
  - intros Hts. destruct (Hfail Hts) as [msg E]. now rewrite E.
Qed.

Lemma split_fails_exactly_when_witness :
  (exists msg,
     stratified_split rotating 0 (firstn 3 demo_data) TRAIN_TEST_SPLIT_RATIO 42
     = Raise (ValueError msg))
  /\ (exists train test,
        stratified_split rotating 0 demo_data TRAIN_TEST_SPLIT_RATIO 42
        = Ok (train, test, 0))
  /\ (n_test_of seven_percent (length eight_label_rows) = 8
      /\ length (np_unique Z.compare (map label eight_label_rows)) = 8
      /\ exists train test,
           stratified_split rotating 0 eight_label_rows seven_percent 42
           = Ok (train, test, 0)).
Proof.
  split; [|split; [|split; [|split]]].
  - apply (split_fails_exactly_when rotating 0 (firstn 3 demo_data)
             TRAIN_TEST_SPLIT_RATIO 42 rotating_lawful
             (proj1 ratio_in_range) (proj2 ratio_in_range) seed_in_range).
    right. left. exists 0%Z. vm_compute. split; [tauto | lia].
  - apply (split_fails_exactly_when rotating 0 demo_data
             TRAIN_TEST_SPLIT_RATIO 42 rotating_lawful
             (proj1 ratio_in_range) (proj2 ratio_in_range) seed_in_range).
    intros [H|[(c & Hc & Hlt)|[H|H]]];
      [vm_compute in H; lia | | vm_compute in H; lia | vm_compute in H; lia].
    repeat (destruct Hc as [<-|Hc]; [vm_compute in Hlt; lia|]). exact Hc.
  - vm_compute. reflexivity.
  - vm_compute. reflexivity.
  - apply (split_fails_exactly_when rotating 0 eight_label_rows
             seven_percent 42 rotating_lawful eq_refl eq_refl seed_in_range).
    intros [H|[(c & Hc & Hlt)|[H|H]]];
      [vm_compute in H; lia | | vm_compute in H; lia | vm_compute in H; lia].
    vm_compute in Hc.
    repeat (destruct Hc as [<-|Hc]; [vm_compute in Hlt; lia|]). exact Hc.
Defined.

(** C9 as the specification states it fails on the code: the stratum of
    label 1 has 2 of the 20 rows, the split at test fraction 0.1 raises
    nothing, and the test part it returns has no row of that stratum. *)
Lemma small_stratum_splits_anyway :
  exists train test : Dataset,
    stratified_split rotating 0 lopsided_rows TRAIN_TEST_SPLIT_RATIO RANDOM_STATE
    = Ok (train, test, 0)
    /\ length (stratum 1 lopsided_rows) = 2
    /\ length test = 2
    /\ stratum 1 test = [].
Proof.
  destruct (small_stratum_left_out rotating 0 lopsided_rows rotating_lawful)
    as (train & test & E & L & S); try reflexivity.
  exists train, test. repeat split; assumption.
Qed.

Import HFTrainer.

(** ** The trainer: the rotation of checkpoints *)

Lemma insert_sorted_perm (x : nat) (l : list nat) :
  Permutation (insert_sorted x l) (x :: l).
Proof.
  induction l as [|h t IH]; simpl; [reflexivity|].
  destruct (x <=? h); [reflexivity|].
  rewrite IH. apply perm_swap.
Qed.

Lemma sort_perm (steps : list nat) :
  Permutation (fold_right insert_sorted [] steps) steps.
Proof.
  induction steps as [|x l IH]; simpl; [reflexivity|].
  rewrite insert_sorted_perm. now constructor.
Qed.

Lemma insert_sorted_sorted (x : nat) (l : list nat) :
  StronglySorted le l -> StronglySorted le (insert_sorted x l).
Proof.
  induction 1 as [|h t St IH Hh]; simpl; [repeat constructor|].
  destruct (Nat.leb_spec x h) as [Hx|Hx].
  - constructor; [now constructor|].
    constructor; [exact Hx|].
    eapply Forall_impl; [|exact Hh]. intros y Hy. simpl in Hy. lia.
  - constructor; [exact IH|].
    apply Forall_forall. intros y Hy.
    apply (Permutation_in _ (insert_sorted_perm x t)) in Hy.
    destruct Hy as [<-|Hy]; [lia|].
    rewrite Forall_forall in Hh. now apply Hh.
Qed.

Lemma sort_sorted (steps : list nat) :
  StronglySorted le (fold_right insert_sorted [] steps).
Proof.
  induction steps; simpl; [constructor | now apply insert_sorted_sorted].
Qed.

Lemma sorted_last_max (l : list nat) :
  StronglySorted le l -> forall x, In x l -> x <= last l 0.
Proof.
  induction 1 as [|h t St IH Hh]; intros x Hx; [destruct Hx|].
  destruct t as [|h' t'].
  - destruct Hx as [<-|[]]. simpl. lia.
  - change (last (h :: h' :: t') 0) with (last (h' :: t') 0).
    destruct Hx as [<-|Hx]; [|now apply IH].
    apply Nat.le_trans with h'.
    + rewrite Forall_forall in Hh. apply Hh. now left.
    + apply IH. now left.
Qed.

Lemma swap_with_next_app (pre : list nat) (x y : nat) (rest : list nat) :
  swap_with_next (length pre) (pre ++ x :: y :: rest) = pre ++ y :: x :: rest.
Proof. induction pre as [|p pre IH]; simpl; [reflexivity | now rewrite IH]. Qed.

(** The swaps of [_sorted_checkpoints] carry one element to the right,
    past the elements that follow it. *)
Lemma move_right (mid : list nat) :
  forall (pre : list nat) (x : nat) (post : list nat),
    fold_left (fun l i => swap_with_next i l) (seq (length pre) (length mid))
              (pre ++ x :: mid ++ post)
    = pre ++ mid ++ x :: post.
Proof.
  induction mid as [|m mid IH]; intros pre x post; [reflexivity|].
  cbn [length seq fold_left app].
  rewrite swap_with_next_app.
  replace (S (length pre)) with (length (pre ++ [m])) by (rewrite length_app; simpl; lia).
  replace (pre ++ m :: x :: mid ++ post) with ((pre ++ [m]) ++ x :: mid ++ post)
    by (now rewrite <- app_assoc).
  rewrite IH, <- app_assoc. reflexivity.
Qed.

Lemma index_of_none (b : nat) (l : list nat) :
  ~ In b l -> index_of b l = None.
Proof.
  induction l as [|h t IH]; intros H; [reflexivity|]. simpl.
  destruct (Nat.eqb_spec h b) as [->|Hn]; [exfalso; apply H; now left|].
  rewrite IH; [reflexivity|]. intros Hin. apply H. now right.
Qed.

Lemma index_of_app (b : nat) (pre suf : list nat) :
  ~ In b pre -> index_of b (pre ++ b :: suf) = Some (length pre).
Proof.
  induction pre as [|h t IH]; intros H; simpl.
  - now rewrite Nat.eqb_refl.
  - destruct (Nat.eqb_spec h b) as [->|Hn]; [exfalso; apply H; now left|].
    rewrite IH; [reflexivity|]. intros Hin. apply H. now right.
Qed.

Lemma last_in_skipn (l : list nat) (k : nat) :
  k < length l -> In (last l 0) (skipn k l).
Proof.
  intros Hk.
  destruct (@exists_last _ l) as (l' & z & ->).
  { intros ->. simpl in Hk. lia. }
  rewrite last_last. rewrite length_app in Hk. simpl in Hk.
  rewrite skipn_app. apply in_or_app. right.
  replace (k - length l') with 0 by lia. now left.
Qed.

(** [_sorted_checkpoints]: either the steps in increasing order, or, the
    best checkpoint being there and not the largest, the steps in
    increasing order with the best one moved to the last place but one. *)
Lemma sorted_checkpoints_shape (best : option nat) (steps : list nat) :
  NoDup steps ->
  let cs := fold_right insert_sorted [] steps in
  (sorted_checkpoints best steps = cs
   /\ forall b, best = Some b -> In b steps -> b = last cs 0)
  \/ exists b pre mid z,
       best = Some b /\ cs = pre ++ b :: mid ++ [z]
       /\ sorted_checkpoints best steps = pre ++ mid ++ [b; z].
Proof.
  intros ND cs.
  assert (P : Permutation cs steps) by apply sort_perm.
  assert (NDs : NoDup cs) by (eapply Permutation_NoDup; [symmetry; exact P | exact ND]).
  unfold sorted_checkpoints. fold cs.
  destruct best as [b|]; [|left; split; [reflexivity | discriminate]].
  destruct (in_dec Nat.eq_dec b cs) as [Hin|Hout].
  2:{ rewrite (index_of_none b cs Hout). left. split; [reflexivity|].
      intros b' [= <-] Hb. exfalso. apply Hout.
      eapply Permutation_in; [symmetry; exact P | exact Hb]. }
  destruct (in_split b cs Hin) as (pre & suf & E).
  assert (Hpre : ~ In b pre).
  { rewrite E in NDs. apply NoDup_remove_2 in NDs.
    intros H. apply NDs. apply in_or_app. now left. }
  rewrite E, (index_of_app b pre suf Hpre).
  destruct (list_eq_dec Nat.eq_dec suf []) as [->|Hne];
    [|destruct (exists_last Hne) as (mid & z & ->)].
  - left. rewrite length_app. simpl length.
    replace (length pre + 1 - 2 - length pre) with 0 by lia.
    split; [reflexivity|].
    intros b' [= <-] _. now rewrite last_last.
  - right. exists b, pre, mid, z. split; [reflexivity|]. split; [reflexivity|].
    replace (length (pre ++ b :: mid ++ [z]) - 2 - length pre) with (length mid)
      by (rewrite !length_app; simpl length; rewrite length_app; simpl length; lia).
    apply move_right.
Qed.

(** [_sorted_checkpoints] rearranges the steps; the best checkpoint, when
    it is there, and the largest step are among the last two. *)
Lemma sorted_checkpoints_spec (best : option nat) (steps : list nat) :
  NoDup steps ->
  let r := sorted_checkpoints best steps in
  Permutation r steps
  /\ (forall b, best = Some b -> In b steps -> In b (skipn (length steps - 2) r))
  /\ (forall g, In g steps -> Forall (fun x => x <= g) steps ->
                In g (skipn (length steps - 2) r)).
Proof.
  intros ND r.
  pose proof (sort_perm steps) as P.
  pose proof (sort_sorted steps) as St.
  assert (Hlen : length (fold_right insert_sorted [] steps) = length steps)
    by (now apply Permutation_length).
  assert (Hmax : forall g, In g steps -> Forall (fun x => x <= g) steps ->
                           last (fold_right insert_sorted [] steps) 0 = g).
  { intros g Hg Hall.
    assert (Hin : In g (fold_right insert_sorted [] steps))
      by (eapply Permutation_in; [symmetry; exact P | exact Hg]).
    pose proof (sorted_last_max _ St g Hin) as Hle.
    assert (Hl : In (last (fold_right insert_sorted [] steps) 0) steps).
    { eapply Permutation_in; [exact P|].
      apply (last_in_skipn (fold_right insert_sorted [] steps) 0).
      destruct (fold_right insert_sorted [] steps); [destruct Hin | simpl; lia]. }
    rewrite Forall_forall in Hall. specialize (Hall _ Hl). lia. }
  assert (Hpos : forall x, In x steps -> length steps - 2 < length steps).
  { intros x Hx. destruct steps; [destruct Hx | simpl; lia]. }
  destruct (sorted_checkpoints_shape best steps ND)
    as [(E & Hb)|(b & pre & mid & z & Eb & Ecs & E)]; fold r in E.
  - rewrite E. split; [exact P|]. split.
    + intros b Eb Hin. rewrite (Hb b Eb Hin).
      apply last_in_skipn. rewrite Hlen. now apply (Hpos b).
    + intros g Hg Hall. rewrite <- (Hmax g Hg Hall).
      apply last_in_skipn. rewrite Hlen. now apply (Hpos g).
  - rewrite Ecs in *.
    assert (Hk : length steps - 2 = length (pre ++ mid)).
    { rewrite <- Hlen, !length_app. simpl. rewrite length_app. simpl. lia. }
    assert (Hskip : skipn (length steps - 2) r = [b; z]).
    { rewrite E, Hk, app_assoc, skipn_app, skipn_all, Nat.sub_diag. reflexivity. }
    rewrite Hskip. split; [|split].
    + rewrite E, <- P. apply Permutation_app_head.
      change (b :: mid ++ [z]) with ((b :: mid) ++ [z]).
      change [b; z] with ([b] ++ [z]). rewrite app_assoc.
      apply Permutation_app_tail. symmetry. apply Permutation_cons_append.
    + intros b' Eb' _. rewrite Eb in Eb'. injection Eb' as <-. now left.
    + intros g Hg Hall. rewrite <- (Hmax g Hg Hall).
      change (b :: mid ++ [z]) with ((b :: mid) ++ [z]).
      rewrite app_assoc, last_last. right. now left.
Qed.

Lemma deleted_with_limit_two (a : TrainingArguments) (best : option nat)
    (steps : list nat) :
  save_total_limit a = Some 2 ->
  checkpoints_to_be_deleted a best steps
  = firstn (length steps - 2) (sorted_checkpoints best steps).
Proof.
  intros H. unfold checkpoints_to_be_deleted. rewrite H.
  assert (L : length (sorted_checkpoints best steps) = length steps).
  { unfold sorted_checkpoints.
    assert (Ls : length (fold_right insert_sorted [] steps) = length steps)
      by (apply Permutation_length, sort_perm).
    assert (Lw : forall i l, length (swap_with_next i l) = length l).
    { induction i as [|i IH]; intros [|x [|y l]]; simpl; auto. }
    assert (Lf : forall ix l,
               length (fold_left (fun l i => swap_with_next i l) ix l) = length l).
    { induction ix as [|i ix IH]; intros l; simpl; [reflexivity|].
      now rewrite IH, Lw. }
    destruct best as [b|]; [|exact Ls].
    destruct (index_of b _); [|exact Ls]. now rewrite Lf. }
  rewrite L.
  destruct (Nat.leb_spec (length steps) 2) as [Hl|Hl].
  - replace (length steps - 2) with 0 by lia. reflexivity.
  - destruct best; reflexivity.
Qed.

Lemma is_deleted_iff {W : Type} (gone : list nat) (c : checkpoint W) :
  is_deleted W gone c = true <-> In (fst c) gone.
Proof.
  unfold is_deleted. rewrite existsb_exists. split.
  - intros (x & Hx & E). apply Nat.eqb_eq in E. now rewrite E.
  - intros H. exists (fst c). split; [exact H | apply Nat.eqb_refl].
Qed.

(** Deleting checkpoints leaves the steps distinct. *)
Lemma filter_distinct_steps {W : Type} (p : checkpoint W -> bool)
    (d : list (checkpoint W)) :
  NoDup (map fst d) -> NoDup (map fst (filter p d)).
Proof.
  intros ND. induction d as [|c d IH]; [constructor|].
  cbn [map] in ND. apply NoDup_cons_iff in ND. destruct ND as [Hc Hd].
  cbn [filter]. destruct (p c); [|now apply IH].
  cbn [map]. constructor; [|now apply IH].
  rewrite in_map_iff. intros (z & Ez & Hz).
  apply filter_In in Hz. apply Hc. rewrite <- Ez. apply in_map. tauto.
Qed.

Lemma NoDup_app_disjoint {A : Type} (front back : list A) (x : A) :
  NoDup (front ++ back) -> In x back -> ~ In x front.
Proof.
  induction front as [|y front IH]; intros ND Hb Hf; [destruct Hf|].
  simpl in ND. inversion ND as [|? ? Hy Hrest]; subst.
  destruct Hf as [->|Hf].
  - apply Hy. apply in_or_app. now right.
  - now apply IH.
Qed.

(** [_rotate_checkpoints] with a limit of 2: at most two checkpoints are
    left, the best one and the one with the largest step among them. *)
Lemma rotation_spec {W : Type} (a : TrainingArguments) (best : option nat)
    (written : list (checkpoint W)) :
  save_total_limit a = Some 2 ->
  NoDup (map fst written) ->
  let gone := checkpoints_to_be_deleted a best (map fst written) in
  let left := filter (fun c => negb (is_deleted W gone c)) written in
  NoDup (map fst left) /\ length left <= 2
  /\ (forall c, In c left -> In c written)
  /\ (forall b w, best = Some b -> In (b, w) written -> In (b, w) left)
  /\ (forall g w, In (g, w) written -> Forall (fun c => fst c <= g) written ->
                  In (g, w) left).
Proof.
  intros Hl ND gone left.
  set (steps := map fst written) in *.
  set (r := sorted_checkpoints best steps).
  set (k := length steps - 2).
  assert (Eg : gone = firstn k r) by (now apply deleted_with_limit_two).
  destruct (sorted_checkpoints_spec best steps ND) as (P & Hbest & Hmax).
  fold r k in P, Hbest, Hmax.
  assert (NDr : NoDup r) by (eapply Permutation_NoDup; [symmetry; exact P | exact ND]).
  assert (Hsplit : forall x, In x (skipn k r) -> ~ In x gone).
  { intros x Hs Hg. rewrite Eg in Hg.
    rewrite <- (firstn_skipn k r) in NDr.
    now apply (NoDup_app_disjoint _ _ x NDr). }
  assert (Hkeep : forall c, In c written -> In (fst c) (skipn k r) -> In c left).
  { intros c Hc Hs. apply filter_In. split; [exact Hc|].
    apply negb_true_iff. destruct (is_deleted W gone c) eqn:Ed; [|reflexivity].
    apply is_deleted_iff in Ed. now apply Hsplit in Hs. }
  split; [now apply filter_distinct_steps|]. split.
  - apply Nat.le_trans with (length (map fst left));
      [rewrite length_map; apply Nat.le_refl|].
    apply Nat.le_trans with (length (skipn k r)).
    + apply NoDup_incl_length; [now apply filter_distinct_steps|].
      intros x Hx. apply in_map_iff in Hx. destruct Hx as (c & <- & Hc).
      apply filter_In in Hc. destruct Hc as [Hc Hd].
      apply negb_true_iff in Hd.
      assert (Hr : In (fst c) r).
      { eapply Permutation_in; [symmetry; exact P|]. now apply in_map. }
      rewrite <- (firstn_skipn k r) in Hr. apply in_app_or in Hr.
      destruct Hr as [Hr|Hr]; [|exact Hr].
      rewrite <- Eg in Hr. apply is_deleted_iff in Hr. congruence.
    + rewrite length_skipn, (Permutation_length P). unfold k. lia.
  - split; [intros c Hc; now apply filter_In in Hc|]. split.
    + intros b w Eb Hin. apply Hkeep; [exact Hin|].
      apply (Hbest b Eb). apply (in_map fst) in Hin. exact Hin.
    + intros g w Hin Hall. apply Hkeep; [exact Hin|].
      apply Hmax; [apply (in_map fst) in Hin; exact Hin|].
      unfold steps. now rewrite Forall_map.
Qed.

Lemma evaluations_app (l l' : list event) :
  evaluations (l ++ l') = evaluations l ++ evaluations l'.
Proof. apply flat_map_app. Qed.

Lemma saves_app (l l' : list event) : saves (l ++ l') = saves l ++ saves l'.
Proof. apply flat_map_app. Qed.

Lemma evaluations_deleted (gone : list nat) : evaluations (map Deleted gone) = [].
Proof. induction gone; auto. Qed.

Lemma saves_deleted (gone : list nat) : saves (map Deleted gone) = [].
Proof. induction gone; auto. Qed.

Section Saves.

Variable W : Type.
Variable a : TrainingArguments.
Hypothesis a_limit : save_total_limit a = Some 2.
Hypothesis a_metric : metric_for_best_model a = Some "loss"%string.
Hypothesis a_greater : greater_is_better a = Some false.

Let State := TrainerState W.

Lemma save_checkpoint_spec (epoch : nat) (metrics : option Q) (s : State) :
  distinct_steps W (disk W s) ->
  exists s',
    save_checkpoint W a epoch metrics s = Ok s'
    /\ model W s' = model W s
    /\ global_step W s' = global_step W s
    /\ (best_metric W s', best_model_checkpoint W s') = best_after W metrics s
    /\ evaluations (log W s') = evaluations (log W s)
    /\ saves (log W s') = saves (log W s) ++ [(epoch, global_step W s)]
    /\ distinct_steps W (disk W s')
    /\ length (disk W s') <= 2
    /\ (forall c, In c (disk W s') ->
          c = (global_step W s, model W s)
          \/ (In c (disk W s) /\ fst c <> global_step W s))
    /\ (forall b w, best_model_checkpoint W s' = Some b ->
          In (b, w) (disk W s) -> b <> global_step W s -> In (b, w) (disk W s'))
    /\ (best_model_checkpoint W s' = Some (global_step W s) ->
          In (global_step W s, model W s) (disk W s'))
    /\ (Forall (fun c => fst c <= global_step W s) (disk W s) ->
          In (global_step W s, model W s) (disk W s')).
Proof.
  intros ND. unfold save_checkpoint.
  set (g := global_step W s).
  set (written := filter (fun c => negb (fst c =? g)) (disk W s) ++ [(g, model W s)]).
  assert (Hw : forall c, In c written <->
                 c = (g, model W s) \/ (In c (disk W s) /\ fst c <> g)).
  { intros c. unfold written. rewrite in_app_iff, filter_In, negb_true_iff, Nat.eqb_neq.
    simpl. intuition. }
  assert (NDw : NoDup (map fst written)).
  { unfold written. rewrite map_app. simpl.
    eapply Permutation_NoDup; [apply Permutation_cons_append|].
    constructor; [|now apply filter_distinct_steps].
    intros Hin. apply in_map_iff in Hin. destruct Hin as (c & Ec & Hc).
    apply filter_In in Hc. destruct Hc as [_ Hc].
    apply negb_true_iff, Nat.eqb_neq in Hc. congruence. }
  assert (Hbest : exists best,
            (match metrics with
             | None => Ok (best_metric W s, best_model_checkpoint W s)
             | Some loss =>
                 match metric_value a loss with
                 | None => Ok (best_metric W s, best_model_checkpoint W s)
                 | Some (Raise e) => Raise e
                 | Some (Ok value) =>
                     match best_metric W s, best_model_checkpoint W s with
                     | Some b, Some _ =>
                         if improves a value b then Ok (Some value, Some g)
                         else Ok (best_metric W s, best_model_checkpoint W s)
                     | _, _ => Ok (Some value, Some g)
                     end
                 end
             end) = Ok best /\ best = best_after W metrics s).
  { unfold best_after, metric_value, improves. rewrite a_metric, a_greater.
    simpl String.eqb. simpl orb. cbv iota. fold g.
    destruct metrics as [loss|]; [|eexists; split; reflexivity].
    destruct (best_metric W s) as [m|]; [|eexists; split; reflexivity].
    destruct (best_model_checkpoint W s) as [b|]; [|eexists; split; reflexivity].
    destruct (Qle_bool m loss); eexists; split; reflexivity. }
  destruct Hbest as (best & Eb & Hb). rewrite Eb. cbn [bind].
  destruct (rotation_spec a (snd best) written a_limit NDw)
    as (ND' & Hlen & Hsub & Hkeepb & Hkeepg).
  eexists. split; [reflexivity|]. cbn [model global_step best_metric
    best_model_checkpoint disk log].
  split; [reflexivity|]. split; [reflexivity|].
  split; [rewrite <- Hb; now destruct best|].
  split.
  { rewrite !evaluations_app, evaluations_deleted. simpl.
    rewrite ?app_nil_r. reflexivity. }
  split.
  { rewrite !saves_app, saves_deleted. simpl. rewrite ?app_nil_r. reflexivity. }
  split; [exact ND'|]. split; [exact Hlen|]. split.
  { intros c Hc. apply Hw. now apply Hsub. }
  split.
  { intros b w Eb' Hin Hne. apply Hkeepb; [exact Eb'|].
    apply Hw. right. now split. }
  split.
  { intros Eb'. apply Hkeepb; [exact Eb'|]. apply Hw. now left. }
  intros Hall. apply Hkeepg; [apply Hw; now left|].
  apply Forall_forall. intros c Hc. apply Hw in Hc.
  destruct Hc as [->|[Hc _]]; [simpl; lia|].
  rewrite Forall_forall in Hall. now apply Hall.
Qed.

End Saves.

(** ** The trainer: checkpoints kept and model retained *)

Section TrainerFacts.

Variable W : Type.
Variable train_epoch : nat -> W -> W.
Variable eval_loss : W -> Q.
Variable steps_per_epoch : nat.
Variable version : release.
Hypothesis steps_positive : 0 < steps_per_epoch.

Variable a : TrainingArguments.
Hypothesis a_eval : eval_strategy a = strategy_epoch.
Hypothesis a_save : save_strategy a = strategy_epoch.
Hypothesis a_limit : save_total_limit a = Some 2.
Hypothesis a_metric : metric_for_best_model a = Some "loss"%string.
Hypothesis a_greater : greater_is_better a = Some false.

Let State := TrainerState W.
Let kept := kept W eval_loss.
Let best_kept := best_kept W eval_loss.
Let distinct_steps := distinct_steps W.

Let saves_at_step := saves_at_step steps_per_epoch version a.

Lemma step_end_spec (epoch : nat) (s : State) :
  distinct_steps (disk W s) ->
  exists s',
    step_end W steps_per_epoch version a epoch s = Ok s'
    /\ model W s' = model W s
    /\ global_step W s' = global_step W s
    /\ best_metric W s' = best_metric W s
    /\ best_model_checkpoint W s' = best_model_checkpoint W s
    /\ evaluations (log W s') = evaluations (log W s)
    /\ saves (log W s')
       = saves (log W s)
         ++ (if saves_at_step (global_step W s) then [(epoch, global_step W s)] else [])
    /\ distinct_steps (disk W s')
    /\ (forall c, In c (disk W s') ->
          c = (global_step W s, model W s) \/ In c (disk W s))
    /\ (forall b w, best_model_checkpoint W s = Some b ->
          In (b, w) (disk W s) -> b <> global_step W s -> In (b, w) (disk W s')).
Proof.
  intros ND. unfold step_end. fold (saves_at_step (global_step W s)).
  destruct (saves_at_step (global_step W s)).
  - destruct (save_checkpoint_spec W a a_limit a_metric a_greater epoch None s ND)
      as (s' & E & Hm & Hg & Hb & Hev & Hsv & ND' & _ & Hsub & Hkeep & _).
    simpl in Hb. injection Hb as Hb1 Hb2.
    exists s'. repeat split; try assumption.
    + intros c Hc. destruct (Hsub c Hc) as [->|[Hin _]]; [now left | now right].
    + intros b w Eb. apply Hkeep. now rewrite Hb2.
  - exists s. rewrite app_nil_r. repeat split; auto.
Qed.

Lemma run_epoch_kept (epoch : nat) (s : State) :
  distinct_steps (disk W s) -> kept s ->
  let w := train_epoch epoch (model W s) in
  let g := global_step W s + steps_per_epoch in
  exists s',
    run_epoch W train_epoch eval_loss steps_per_epoch version a epoch s = Ok s'
    /\ best_kept s' /\ distinct_steps (disk W s') /\ length (disk W s') <= 2
    /\ model W s' = w /\ global_step W s' = g
    /\ evaluations (log W s') = evaluations (log W s) ++ [(epoch, eval_loss w)]
    /\ saves (log W s')
       = saves (log W s)
         ++ (if saves_at_step g then [(epoch, g)] else []) ++ [(epoch, g)]
    /\ (forall M, g <= M -> Forall (fun c => fst c <= M) (disk W s) ->
                  Forall (fun c => fst c <= M) (disk W s'))
    /\ (Forall (fun c => fst c <= g) (disk W s) -> In (g, w) (disk W s')).
Proof.
  intros ND K w g. unfold run_epoch. fold w g.
  set (s1 := {| model := w; global_step := g; best_metric := best_metric W s;
                best_model_checkpoint := best_model_checkpoint W s;
                disk := disk W s; log := log W s |}).
  destruct (step_end_spec epoch s1 ND)
    as (s2 & E2 & M2 & G2 & Bm2 & Bc2 & Ev2 & Sv2 & ND2 & Sub2 & Keep2).
  rewrite E2. cbn [bind]. simpl in M2, G2, Bm2, Bc2, Ev2, Sv2, Sub2, Keep2.
  unfold epoch_end. rewrite a_eval, a_save. simpl strategy_eqb. cbv iota zeta.
  set (s3 := {| model := model W s2; global_step := global_step W s2;
                best_metric := best_metric W s2;
                best_model_checkpoint := best_model_checkpoint W s2;
                disk := disk W s2;
                log := log W s2 ++ [Evaluated epoch (eval_loss (model W s2))] |}).
  destruct (save_checkpoint_spec W a a_limit a_metric a_greater epoch
              (Some (eval_loss (model W s2))) s3 ND2)
    as (s' & E & Hm & Hg & Hb & Hev & Hsv & ND' & Hlen & Hsub & Hkeep & Hnew & Hmax).
  simpl in Hm, Hg, Hb, Hev, Hsv, Hsub, Hkeep, Hnew, Hmax.
  rewrite M2, G2 in *. rewrite Bm2, Bc2 in Hb.
  rewrite evaluations_app, Ev2 in Hev. simpl in Hev.
  rewrite saves_app, Sv2 in Hsv. simpl in Hsv. rewrite app_nil_r in Hsv.
  exists s'. split; [exact E|].
  assert (Hevs : evaluations (log W s')
                 = evaluations (log W s) ++ [(epoch, eval_loss w)]) by exact Hev.
  split.
  { unfold best_kept, HFTrainer.best_kept. rewrite Hevs, Hg.
    assert (Hfresh : best_metric W s' = Some (eval_loss w) ->
                     best_model_checkpoint W s' = Some g ->
                     (forall e l, In (e, l) (evaluations (log W s)) ->
                                  (eval_loss w <= l)%Q) ->
                     exists b wb,
                       best_model_checkpoint W s' = Some b
                       /\ best_metric W s' = Some (eval_loss wb)
                       /\ b <= g /\ In (b, wb) (disk W s')
                       /\ (exists e, In (e, eval_loss wb)
                                        (evaluations (log W s) ++ [(epoch, eval_loss w)]))
                       /\ forall e l,
                            In (e, l) (evaluations (log W s) ++ [(epoch, eval_loss w)]) ->
                            (eval_loss wb <= l)%Q).
    { intros Hbm Hbc Hlow. exists g, w.
      split; [exact Hbc|]. split; [exact Hbm|]. split; [lia|].
      split; [now apply Hnew|]. split.
      - exists epoch. apply in_or_app. right. now left.
      - intros e l Hl. apply in_app_or in Hl.
        destruct Hl as [Hl|[[= <- <-]|[]]]; [now apply (Hlow e) | apply Qle_refl]. }
    destruct K as [(Bm & Bc & Ev0)|(b & wb & Bc & Bm & Hbg & Hin & Hseen & Hmin)].
    - rewrite Bm in Hb. rewrite ?Bc in Hb. simpl in Hb. injection Hb as Hb1 Hb2.
      apply Hfresh; [exact Hb1 | exact Hb2|].
      intros e l Hl. rewrite Ev0 in Hl. destruct Hl.
    - rewrite Bm, Bc in Hb. simpl in Hb.
      destruct (Qle_bool (eval_loss wb) (eval_loss w)) eqn:Eq.
      + injection Hb as Hb1 Hb2. apply Qle_bool_iff in Eq.
        exists b, wb. split; [exact Hb2|]. split; [exact Hb1|].
        split; [lia|]. split.
        * apply Hkeep; [exact Hb2| |unfold g; lia].
          apply Keep2; [exact Bc | exact Hin | unfold g; lia].
        * split.
          -- destruct Hseen as [e He]. exists e. apply in_or_app. now left.
          -- intros e l Hl. apply in_app_or in Hl.
             destruct Hl as [Hl|[[= <- <-]|[]]]; [now apply (Hmin e) | exact Eq].
      + injection Hb as Hb1 Hb2.
        assert (Hlt : (eval_loss w <= eval_loss wb)%Q).
        { apply Qlt_le_weak, Qnot_le_lt. intros Hle.
          apply Qle_bool_iff in Hle. congruence. }
        apply Hfresh; [exact Hb1 | exact Hb2|].
        intros e l Hl. apply Qle_trans with (eval_loss wb); [exact Hlt|].
        now apply (Hmin e). }
  split; [exact ND'|]. split; [exact Hlen|]. split; [exact Hm|]. split; [exact Hg|].
  split; [exact Hevs|]. split.
  { rewrite Hsv, <- app_assoc. reflexivity. }
  assert (Hbound : forall M, g <= M -> Forall (fun c => fst c <= M) (disk W s) ->
                             Forall (fun c => fst c <= M) (disk W s2)).
  { intros M HM Hall. apply Forall_forall. intros c Hc.
    destruct (Sub2 c Hc) as [->|Hin]; [exact HM|].
    rewrite Forall_forall in Hall. now apply Hall. }
  split.
  - intros M HM Hall. apply Forall_forall. intros c Hc.
    destruct (Hsub c Hc) as [->|[Hin _]]; [exact HM|].
    pose proof (Hbound M HM Hall) as H2. rewrite Forall_forall in H2. now apply H2.
  - intros Hall. apply Hmax. apply Hbound; [lia | exact Hall].
Qed.

Lemma saves_at_step_epoch (j : nat) :
  S j <= num_train_epochs a ->
  saves_at_step (j * steps_per_epoch + steps_per_epoch)
  = (S j =? num_train_epochs a) && saves_at_last_step version a.
Proof.
  intros Hj. unfold saves_at_step, HFTrainer.saves_at_step. cbv zeta. f_equal.
  destruct (Nat.eqb_spec (S j) (num_train_epochs a)) as [<-|Hne].
  - apply Nat.leb_le. simpl. lia.
  - apply Nat.leb_gt.
    assert (H : S (S j) <= num_train_epochs a) by lia.
    apply Nat.lt_le_trans with (S (S j) * steps_per_epoch).
    + simpl. lia.
    + now apply Nat.mul_le_mono_r.
Qed.

Lemma run_epochs_kept (k : nat) :
  forall (j : nat) (s : State),
    global_step W s = j * steps_per_epoch ->
    j + k <= num_train_epochs a ->
    distinct_steps (disk W s) -> kept s ->
    exists s',
      run_epochs W train_epoch eval_loss steps_per_epoch version a (seq (S j) k) s
      = Ok s'
      /\ kept s' /\ distinct_steps (disk W s')
      /\ (0 < k -> best_kept s' /\ length (disk W s') <= 2)
      /\ global_step W s' = (j + k) * steps_per_epoch
      /\ model W s' = fold_left (fun w e => train_epoch e w) (seq (S j) k) (model W s)
      /\ map fst (evaluations (log W s'))
         = map fst (evaluations (log W s)) ++ seq (S j) k
      /\ map fst (saves (log W s'))
         = map fst (saves (log W s)) ++ seq (S j) k
           ++ (if (0 <? k) && (j + k =? num_train_epochs a)
                  && saves_at_last_step version a
               then [num_train_epochs a] else [])
      /\ (forall M, (j + k) * steps_per_epoch <= M ->
                    Forall (fun c => fst c <= M) (disk W s) ->
                    Forall (fun c => fst c <= M) (disk W s'))
      /\ (0 < k ->
          Forall (fun c => fst c <= (j + k) * steps_per_epoch) (disk W s) ->
          In (global_step W s', model W s') (disk W s')).
Proof.
  induction k as [|k IH]; intros j s Hg Hj ND K.
  - exists s. simpl. rewrite !app_nil_r, Nat.add_0_r.
    repeat split; auto; lia.
  - destruct (run_epoch_kept (S j) s ND K)
      as (s1 & E1 & K1 & ND1 & L1 & M1 & G1 & Ev1 & Sv1 & B1 & N1).
    rewrite Hg in G1, Sv1, B1, N1.
    rewrite saves_at_step_epoch in Sv1 by lia.
    assert (G1' : global_step W s1 = S j * steps_per_epoch) by (rewrite G1; simpl; lia).
    destruct (IH (S j) s1 G1' ltac:(lia) ND1 (or_intror K1))
      as (s' & E' & K' & ND' & L' & G' & M' & Ev' & Sv' & B' & N').
    exists s'. cbn [seq run_epochs]. rewrite E1. cbn [bind].
    split; [exact E'|]. split; [exact K'|]. split; [exact ND'|].
    assert (Hk : k = 0 -> s' = s1).
    { intros ->. simpl in E'. now injection E' as <-. }
    split.
    { intros _. destruct k as [|k]; [rewrite (Hk eq_refl); now split|].
      apply L'. lia. }
    split; [rewrite G'; f_equal; lia|].
    split; [rewrite M', M1; reflexivity|].
    split.
    { rewrite Ev', Ev1, map_app, <- app_assoc. reflexivity. }
    split.
    { rewrite Sv', Sv1, !map_app, <- !app_assoc. f_equal.
      change (0 <? S k) with true. cbn [andb].
      replace (S j + k) with (j + S k) by lia.
      destruct (saves_at_last_step version a); rewrite ?andb_false_r, ?andb_true_r;
        [|simpl; rewrite ?app_nil_r; reflexivity].
      destruct (Nat.eqb_spec (S j) (num_train_epochs a)) as [Ej|Ej].
      - assert (k = 0) by lia. subst k. rewrite Nat.add_1_r, <- Ej, Nat.eqb_refl.
        reflexivity.
      - cbn [map app]. destruct (Nat.ltb_spec 0 k) as [Hk0|Hk0]; cbn [andb].
        + reflexivity.
        + assert (k = 0) by lia. subst k. rewrite Nat.add_1_r.
          destruct (Nat.eqb_spec (S j) (num_train_epochs a)); [contradiction|].
          reflexivity. }
    split.
    { intros M HM Hall. apply B'; [lia|]. apply B1; [|exact Hall].
      apply Nat.le_trans with ((j + S k) * steps_per_epoch); [|exact HM].
      replace (j * steps_per_epoch + steps_per_epoch) with (S j * steps_per_epoch)
        by (simpl; lia).
      apply Nat.mul_le_mono_r. lia. }
    intros _ Hall. destruct k as [|k].
    + rewrite (Hk eq_refl), M1, G1. apply N1.
      replace (j * steps_per_epoch + steps_per_epoch) with ((j + 1) * steps_per_epoch)
        by lia.
      exact Hall.
    + apply N'; [lia|]. replace (S j + S k) with (j + S (S k)) by lia.
      apply B1; [|exact Hall].
      replace (j * steps_per_epoch + steps_per_epoch) with (S j * steps_per_epoch)
        by (simpl; lia).
      apply Nat.mul_le_mono_r. lia.
Qed.

(** Loading the best model puts in memory the weights of a checkpoint
    that is on disk and whose loss is the smallest evaluated. *)
Lemma load_best_model_kept (s : State) :
  distinct_steps (disk W s) -> best_kept s ->
  let s' := load_best_model W s in
  disk W s' = disk W s
  /\ global_step W s' = global_step W s
  /\ evaluations (log W s') = evaluations (log W s)
  /\ saves (log W s') = saves (log W s)
  /\ (exists step, In (step, model W s') (disk W s'))
  /\ (exists ep, In (ep, eval_loss (model W s')) (evaluations (log W s')))
  /\ forall ep lo, In (ep, lo) (evaluations (log W s')) ->
                   (eval_loss (model W s') <= lo)%Q.
Proof.
  intros ND (b & wb & Bc & Bm & _ & Hin & Hev & Hmin).
  unfold load_best_model. rewrite Bc.
  assert (Hfind : find (fun c => fst c =? b) (disk W s) = Some (b, wb)).
  { revert ND Hin. unfold distinct_steps, HFTrainer.distinct_steps.
    induction (disk W s) as [|c d IH]; intros ND Hin; [destruct Hin|].
    simpl in ND. inversion ND as [|? ? Hc Hd]; subst. simpl.
    destruct Hin as [->|Hin].
    - simpl. now rewrite Nat.eqb_refl.
    - destruct (Nat.eqb_spec (fst c) b) as [Ec|_]; [|now apply IH].
      exfalso. apply Hc. rewrite Ec. now apply (in_map fst) in Hin. }
  rewrite Hfind. simpl.
  rewrite evaluations_app, saves_app. simpl. rewrite !app_nil_r.
  repeat split; auto. now exists b.
Qed.

End TrainerFacts.

(** The trainer on the arguments of [train_model], from the first epoch
    to the [k]-th. *)
Lemma notebook_epochs (W : Type) (train_epoch : nat -> W -> W) (eval_loss : W -> Q)
    (steps_per_epoch : nat) (version : release) (output : string)
    (existing : list (checkpoint W)) (model0 : W) (k : nat) :
  0 < steps_per_epoch ->
  distinct_steps W existing ->
  1 <= k <= 3 ->
  let a := training_args_checked output in
  exists sk,
    run_epochs W train_epoch eval_loss steps_per_epoch version a (seq 1 k)
      {| model := model0; global_step := 0; best_metric := None;
         best_model_checkpoint := None; disk := existing; log := [] |}
    = Ok sk
    /\ best_kept W eval_loss sk
    /\ distinct_steps W (disk W sk)
    /\ length (disk W sk) <= 2
    /\ global_step W sk = k * steps_per_epoch
    /\ model W sk = fold_left (fun w e => train_epoch e w) (seq 1 k) model0
    /\ map fst (evaluations (log W sk)) = seq 1 k
    /\ map fst (saves (log W sk))
       = seq 1 k ++ (if (k =? 3) && saves_at_last_step version a then [3] else [])
    /\ (Forall (fun c => fst c <= k * steps_per_epoch) existing ->
        In (global_step W sk, model W sk) (disk W sk)).
Proof.
  intros Hsp ND Hk a.
  destruct (run_epochs_kept W train_epoch eval_loss steps_per_epoch version Hsp a
              eq_refl eq_refl eq_refl eq_refl eq_refl k 0
              {| model := model0; global_step := 0; best_metric := None;
                 best_model_checkpoint := None; disk := existing; log := [] |})
    as (sk & E & _ & ND' & L & G & M & Ev & Sv & _ & N);
    [reflexivity | simpl; lia | exact ND | left; repeat split; reflexivity |].
  destruct (L ltac:(lia)) as [K Hlen].
  exists sk. simpl in G, M, Ev, Sv, N.
  replace (0 <? k) with true in Sv by (symmetry; apply Nat.ltb_lt; lia).
  repeat split; try assumption. apply N. lia.
Qed.




(** The save at the last step comes before the last evaluation, so the
    two families of releases can keep different checkpoints: with losses
    0.4, 0.5 and 0.3 the one deletes the second epoch's checkpoint and the
    other the first epoch's. *)
Lemma releases_keep_different_checkpoints :
  (exists s : TrainerState nat,
     train_model nat demo_epoch late_loss 908 v4_46_to_4_50 "./results_task1" [] 0
     = Ok (6, late_loss 6, s)
     /\ map fst (disk nat s) = [908; 2724])
  /\ (exists s : TrainerState nat,
        train_model nat demo_epoch late_loss 908 v4_51_on "./results_task1" [] 0
        = Ok (6, late_loss 6, s)
        /\ map fst (disk nat s) = [1816; 2724]).
Proof. split; eexists; vm_compute; split; reflexivity. Qed.

(** ** Truncation of the chosen column *)

Lemma get_set_col (c : column) (v : pystr) (x : Row) :
  get_col c (set_col c v x) = v.
Proof. destruct c; reflexivity. Qed.

Lemma get_set_other (c c' : column) (v : pystr) (x : Row) :
  c' <> c -> get_col c' (set_col c v x) = get_col c' x.
Proof. destruct c, c'; intros H; try reflexivity; congruence. Qed.

Lemma set_col_same (c : column) (x : Row) : set_col c (get_col c x) x = x.
Proof. destruct c, x; reflexivity. Qed.

Lemma label_set_col (c : column) (v : pystr) (x : Row) :
  label (set_col c v x) = label x.
Proof. destruct c; reflexivity. Qed.

(** X1. [limit_text_length] only shortens the chosen column: the result
    has the rows of the dataset in their order, each with the chosen column
    cut to its first 500 code points (so at most 500 long) and with its
    label and every other column as before; a row whose chosen text is at
    most 500 code points long comes back unchanged. *)
Theorem limit_text_length_only_truncates (dataset : Dataset) (column_name : column) :
  Forall2 (fun x x' : Row =>
             get_col column_name x' = slice_to 500 (get_col column_name x)
             /\ length (get_col column_name x') <= 500
             /\ label x' = label x
             /\ (forall c, c <> column_name -> get_col c x' = get_col c x)
             /\ (length (get_col column_name x) <= 500 -> x' = x))
          dataset (limit_text_length dataset column_name).
Proof.
  unfold limit_text_length.
  induction dataset as [|x ds IH]; cbn [map]; constructor; [|exact IH].
  rewrite get_set_col, label_set_col. unfold slice_to.
  split; [reflexivity|]. split; [apply firstn_le_length|].
  split; [reflexivity|]. split.
  - intros c Hc. now apply get_set_other.
  - intros Hle. rewrite firstn_all2 by exact Hle. apply set_col_same.
Qed.

Lemma set_set_col (c : column) (v w : pystr) (x : Row) :
  set_col c v (set_col c w x) = set_col c v x.
Proof. destruct c; reflexivity. Qed.

Lemma set_col_swap (c c' : column) (v w : pystr) (x : Row) :
  c <> c' -> set_col c v (set_col c' w x) = set_col c' w (set_col c v x).
Proof. destruct c, c'; intros H; try reflexivity; congruence. Qed.

Lemma column_eq_dec (c c' : column) : {c = c'} + {c <> c'}.
Proof. decide equality. Qed.

(** X2. Truncating a column twice is truncating it once, and truncating
    two columns gives the same dataset in either order. *)
Theorem limit_text_length_idempotent (dataset : Dataset) (c c' : column) :
  limit_text_length (limit_text_length dataset c) c = limit_text_length dataset c
  /\ limit_text_length (limit_text_length dataset c) c'
     = limit_text_length (limit_text_length dataset c') c.
Proof.
  unfold limit_text_length. rewrite !map_map. split; apply map_ext; intros x.
  - rewrite get_set_col, set_set_col. unfold slice_to.
    now rewrite firstn_firstn, Nat.min_id.
  - destruct (column_eq_dec c c') as [<-|Hc]; [reflexivity|].
    rewrite !get_set_other by congruence.
    apply set_col_swap. congruence.
Qed.

(** ** Templates *)

Lemma format_literal (s r t : pystr) :
  ~ In lbrace s -> ~ In rbrace s ->
  format_out (s ++ r) t = (x <- format_out r t ;; Ok (s ++ x))%py.
Proof.
  induction s as [|c s IH]; intros Hl Hr.
  - simpl. destruct (format_out r t); reflexivity.
  - simpl app.
    assert (El : (c =? lbrace)%N = false).
    { apply N.eqb_neq. intros ->. apply Hl. now left. }
    assert (Er : (c =? rbrace)%N = false).
    { apply N.eqb_neq. intros ->. apply Hr. now left. }
    simpl format_out. rewrite El, Er.
    rewrite IH; [| intros H; apply Hl; now right | intros H; apply Hr; now right].
    destruct (format_out r t); reflexivity.
Qed.

Lemma format_text_field (r t : pystr) :
  format_out (u "{text}" ++ r) t = (x <- format_out r t ;; Ok (t ++ x))%py.
Proof. vm_compute. reflexivity. Qed.

Lemma format_plain (s t : pystr) :
  ~ In lbrace s -> ~ In rbrace s -> format s t = Ok s.
Proof.
  intros Hl Hr. unfold format.
  rewrite <- (app_nil_r s) at 1. rewrite format_literal by assumption.
  simpl. now rewrite app_nil_r.
Qed.

Lemma format_around_text (pre suf t : pystr) :
  ~ In lbrace pre -> ~ In rbrace pre -> ~ In lbrace suf -> ~ In rbrace suf ->
  format (pre ++ u "{text}" ++ suf) t = Ok (pre ++ t ++ suf).
Proof.
  intros Hl Hr Hl' Hr'. unfold format.
  rewrite format_literal, format_text_field by assumption.
  fold (format suf t). rewrite format_plain by assumption. reflexivity.
Qed.

Lemma format_escapes (r t : pystr) :
  format_out (u "{{" ++ r) t = (x <- format_out r t ;; Ok (lbrace :: x))%py
  /\ format_out (u "}}" ++ r) t = (x <- format_out r t ;; Ok (rbrace :: x))%py.
Proof. split; reflexivity. Qed.

(** X3. [tmpl.format(text=t)] on a template whose text around the
    placeholder holds no brace: [{text}] is replaced by [t] as it is, braces
    inside [t] are not read again; without the placeholder the template
    comes back unchanged whatever [t] is; and the doubled braces around a
    placeholder give single ones. *)
Theorem format_fills_the_placeholder (pre suf t : pystr) :
  ~ In lbrace pre -> ~ In rbrace pre -> ~ In lbrace suf -> ~ In rbrace suf ->
  format (pre ++ u "{text}" ++ suf) t = Ok (pre ++ t ++ suf)
  /\ format (pre ++ suf) t = Ok (pre ++ suf)
  /\ format (pre ++ u "{{" ++ u "{text}" ++ u "}}" ++ suf) t
     = Ok (pre ++ u "{" ++ t ++ u "}" ++ suf).
Proof.
  intros Hl Hr Hl' Hr'. split; [now apply format_around_text|]. split.
  - apply format_plain; intros H; apply in_app_or in H; tauto.
  - unfold format.
    rewrite format_literal by assumption.
    rewrite (proj1 (format_escapes _ t)), format_text_field.
    rewrite (proj2 (format_escapes _ t)).
    fold (format suf t). rewrite format_plain by assumption. reflexivity.
Qed.

Lemma format_fills_the_placeholder_witness :
  format (u "Speech: " ++ u "{text}" ++ u " Answer:") (u "a {text} in {braces}")
  = Ok (u "Speech: " ++ u "a {text} in {braces}" ++ u " Answer:").
Proof.
  apply (format_fills_the_placeholder (u "Speech: ") (u " Answer:")
           (u "a {text} in {braces}"));
    vm_compute; intuition discriminate.
Defined.

Lemma format_field_scan (name rest acc t : pystr) :
  ~ In lbrace name -> ~ In rbrace name ->
  format_field (name ++ rbrace :: rest) acc t
  = (v <- lookup_field (rev acc ++ name) t ;;
     s <- format_out rest t ;; Ok (v ++ s))%py.
Proof.
  revert acc. induction name as [|c name IH]; intros acc Hl Hr.
  - simpl. now rewrite app_nil_r.
  - assert (El : (c =? lbrace)%N = false).
    { apply N.eqb_neq. intros ->. apply Hl. now left. }
    assert (Er : (c =? rbrace)%N = false).
    { apply N.eqb_neq. intros ->. apply Hr. now left. }
    simpl app. simpl format_field. rewrite El, Er.
    rewrite IH; [| intros H; apply Hl; now right | intros H; apply Hr; now right].
    simpl rev. now rewrite <- app_assoc.
Qed.

Lemma lookup_unknown (name t : pystr) :
  name <> u "text" -> is_ok (lookup_field name t) = false.
Proof.
  intros H. unfold lookup_field.
  destruct (is_positional name); [reflexivity|].
  destruct (list_eq_dec N.eq_dec name (u "text")); [contradiction | reflexivity].
Qed.

Lemma format_unknown_field (pre name rest t : pystr) :
  ~ In lbrace pre -> ~ In rbrace pre ->
  ~ In lbrace name -> ~ In rbrace name ->
  name <> u "text" ->
  is_ok (format (pre ++ [lbrace] ++ name ++ [rbrace] ++ rest) t) = false.
Proof.
  intros Hl Hr Nl Nr Hn. unfold format.
  rewrite format_literal by assumption.
  assert (E : format_out ([lbrace] ++ name ++ [rbrace] ++ rest) t
              = format_field (name ++ rbrace :: rest) [] t).
  { simpl app. destruct name as [|c name]; [reflexivity|].
    simpl. replace (c =? lbrace)%N with false; [reflexivity|].
    symmetry. apply N.eqb_neq. intros ->. apply Nl. now left. }
  rewrite E, format_field_scan by assumption. simpl rev. simpl app.
  pose proof (lookup_unknown name t Hn) as Hu.
  destruct (lookup_field name t); [discriminate | reflexivity].
Qed.

Lemma generate_texts_fails (model : pystr -> nat -> pystr) (batch : Dataset)
    (column_name : column) (tmpl : pystr) :
  (forall t, is_ok (format tmpl t) = false) -> batch <> [] ->
  is_ok (generate_texts model batch column_name tmpl) = false.
Proof.
  intros H Hb. destruct batch as [|x batch]; [congruence|].
  unfold generate_texts. simpl.
  specialize (H (get_col column_name x)).
  destruct (format tmpl (get_col column_name x)); [discriminate | reflexivity].
Qed.

Lemma batches_head {A : Type} (batch_size : nat) (x : A) (l : list A) :
  0 < batch_size ->
  exists rest, batches batch_size (x :: l) = (x :: firstn (batch_size - 1) l) :: rest.
Proof.
  intros Hs. unfold batches, range_step.
  assert (Hm : exists m, (length (x :: l) + batch_size - 1) / batch_size = S m).
  { destruct ((length (x :: l) + batch_size - 1) / batch_size) as [|m] eqn:E;
      [|now exists m].
    apply Nat.div_small_iff in E; [|lia]. simpl in E. lia. }
  destruct Hm as [m ->]. cbn [seq map].
  destruct batch_size as [|k]; [lia|].
  eexists. simpl. rewrite Nat.sub_0_r. reflexivity.
Qed.

(** X4. A template with a placeholder that is not [text] (a name
    without braces and without the characters of attribute access, indexing,
    conversion and format specification) cannot be formatted, whatever the
    text and whatever follows the placeholder: [generate_texts] raises on
    every non-empty batch, and the zero-shot path returns nothing on any
    table. *)
Theorem unknown_placeholder_fails (pre name rest : pystr) :
  ~ In lbrace pre -> ~ In rbrace pre ->
  (forall c, In c name -> ~ In c (u "{}.[!:")) ->
  name <> u "text" ->
  let tmpl := pre ++ [lbrace] ++ name ++ [rbrace] ++ rest in
  (forall t, is_ok (format tmpl t) = false)
  /\ (forall model batch column_name,
        batch <> [] -> is_ok (generate_texts model batch column_name tmpl) = false)
  /\ (forall model test column_name,
        is_ok (zero_shot model test column_name tmpl) = false).
Proof.
  intros Hl Hr Hname Hn tmpl.
  assert (Hf : forall t, is_ok (format tmpl t) = false).
  { intros t. apply format_unknown_field; try assumption.
    - intros H. apply (Hname _ H). vm_compute. tauto.
    - intros H. apply (Hname _ H). vm_compute. tauto. }
  split; [exact Hf|]. split.
  - intros model batch column_name Hb. now apply generate_texts_fails.
  - intros model [|x test] column_name; [reflexivity|].
    unfold zero_shot, limit_text_length. cbn [map].
    unfold map_batched.
    destruct (batches_head 8 (set_col column_name
                                (slice_to 500 (get_col column_name x)) x)
                (map (fun x0 => set_col column_name
                                  (slice_to 500 (get_col column_name x0)) x0) test))
      as [more ->]; [lia|].
    cbn [mapM].
    pose proof (generate_texts_fails model
                  (set_col column_name (slice_to 500 (get_col column_name x)) x
                   :: firstn (8 - 1)
                        (map (fun x0 => set_col column_name
                                          (slice_to 500 (get_col column_name x0)) x0)
                             test))
                  column_name tmpl Hf ltac:(discriminate)) as Hg.
    destruct (generate_texts _ _ _ _); [discriminate | reflexivity].
Qed.

Lemma unknown_placeholder_fails_witness :
  is_ok (zero_shot (fun _ _ => u " 1")
           [mkRow (u "tr01") (u "A") (u "F") (u "Sayin Baskan") (u "Mr Speaker") 1%Z]
           col_text_en
           (u "Speech: " ++ [lbrace] ++ u "speech" ++ [rbrace] ++ u " Answer:"))
  = false.
Proof.
  destruct (unknown_placeholder_fails (u "Speech: ") (u "speech") (u " Answer:"))
    as (_ & _ & H).
  - vm_compute. intuition discriminate.
  - vm_compute. intuition discriminate.
  - intros c Hc. vm_compute in Hc. vm_compute.
    intuition (subst; discriminate).
  - discriminate.
  - apply H.
Defined.

(** X5. With a template that holds no brace, hence no placeholder,
    [generate_texts] builds the same prompt for every row: the row's text
    never reaches the model and all the predictions of a batch are one and
    the same string.  The default ["Classify the text"] of the
    [prompt_template] argument is such a template. *)
Theorem template_without_placeholder_ignores_rows :
  (forall (model : pystr -> nat -> pystr) (batch : Dataset) (column_name : column)
          (tmpl : pystr),
      ~ In lbrace tmpl -> ~ In rbrace tmpl ->
      generate_texts model batch column_name tmpl
      = Ok (map (fun _ => strip (tmpl ++ model tmpl 10)) batch))
  /\ (forall (model : pystr -> nat -> pystr) (batch : Dataset) (column_name : column),
        generate_texts model batch column_name default_prompt_template
        = Ok (map (fun _ => strip (default_prompt_template
                                   ++ model default_prompt_template 10)) batch)).
Proof.
  assert (H : forall (model : pystr -> nat -> pystr) (batch : Dataset)
                     (column_name : column) (tmpl : pystr),
             ~ In lbrace tmpl -> ~ In rbrace tmpl ->
             generate_texts model batch column_name tmpl
             = Ok (map (fun _ => strip (tmpl ++ model tmpl 10)) batch)).
  { intros model batch column_name tmpl Hl Hr.
    apply (generate_texts_ok model column_name tmpl (fun _ => tmpl)).
    intros t. now apply format_plain. }
  split; [exact H|].
  intros model batch column_name. apply H; vm_compute; intuition discriminate.
Qed.

Lemma template_without_placeholder_ignores_rows_witness :
  generate_texts (fun p _ => u " 1")
    [mkRow (u "tr01") (u "A") (u "F") (u "Sayin Baskan") (u "Mr Speaker") 1%Z;
     mkRow (u "tr02") (u "B") (u "M") (u "Tesekkurler") (u "Thank you") 0%Z]
    col_text default_prompt_template
  = Ok [u "Classify the text 1"; u "Classify the text 1"].
Proof.
  apply (proj1 template_without_placeholder_ignores_rows (fun p _ => u " 1")
           [mkRow (u "tr01") (u "A") (u "F") (u "Sayin Baskan") (u "Mr Speaker") 1%Z;
            mkRow (u "tr02") (u "B") (u "M") (u "Tesekkurler") (u "Thank you") 0%Z]
           col_text default_prompt_template);
    vm_compute; intuition discriminate.
Defined.

(** ** What the predictions column holds *)

Lemma lstrip_app_keep (s r : pystr) (z : char) :
  isspace z = false -> lstrip (s ++ z :: r) = lstrip s ++ z :: r.
Proof.
  intros Hz. induction s as [|c s IH]; simpl.
  - now rewrite Hz.
  - destruct (isspace c); [exact IH | reflexivity].
Qed.

Lemma strip_around (a z : char) (p c : pystr) :
  isspace a = false -> isspace z = false ->
  strip ((a :: p ++ [z]) ++ c) = (a :: p ++ [z]) ++ rstrip c.
Proof.
  intros Ha Hz. unfold strip.
  assert (E : lstrip ((a :: p ++ [z]) ++ c) = (a :: p ++ [z]) ++ c)
    by (simpl; now rewrite Ha).
  rewrite E. unfold rstrip.
  rewrite rev_app_distr.
  replace (rev (a :: p ++ [z])) with (z :: rev p ++ [a])
    by (simpl; rewrite rev_app_distr; reflexivity).
  rewrite lstrip_app_keep by exact Hz.
  rewrite rev_app_distr. f_equal.
  simpl. rewrite rev_app_distr, rev_involutive. reflexivity.
Qed.

Ltac prompt_ends :=
  split; [reflexivity|]; split; [reflexivity|];
  split; [vm_compute; tauto|]; split; [vm_compute; reflexivity|];
  intros t; vm_compute; reflexivity.

(** Each prompt formats to a fixed text around the speech; the text in
    front starts with a letter and holds "0", the text behind ends with
    a colon. *)
Lemma notebook_prompt_ends (prompt : pystr) :
  In prompt notebook_prompts ->
  exists (a z : char) (pre suf : pystr),
    isspace a = false /\ isspace z = false
    /\ In (ch "0") pre
    /\ length prompt = length (a :: pre) + 6 + length (suf ++ [z])
    /\ forall t, format prompt t = Ok ((a :: pre) ++ t ++ (suf ++ [z])).
Proof.
  intros [<-|[<-|[<-|[<-|[]]]]].
  - exists 65%N, 58%N,
      (tl (firstn (length task1_turkish_prompt - 14) task1_turkish_prompt)),
      (removelast (skipn (length task1_turkish_prompt - 8) task1_turkish_prompt)).
    prompt_ends.
  - exists 66%N, 58%N,
      (tl (firstn (length task1_english_prompt - 15) task1_english_prompt)),
      (removelast (skipn (length task1_english_prompt - 9) task1_english_prompt)).
    prompt_ends.
  - exists 65%N, 58%N,
      (tl (firstn (length task2_turkish_prompt - 14) task2_turkish_prompt)),
      (removelast (skipn (length task2_turkish_prompt - 8) task2_turkish_prompt)).
    prompt_ends.
  - exists 66%N, 58%N,
      (tl (firstn (length task2_english_prompt - 15) task2_english_prompt)),
      (removelast (skipn (length task2_english_prompt - 9) task2_english_prompt)).
    prompt_ends.
Qed.

(** X6. With each of the four prompts of the notebooks, every
    prediction that [generate_texts] returns is the whole formatted prompt
    (the fixed text, the row's text, the fixed text) followed by what the
    model appended with its trailing white space removed: the prompt is part
    of every prediction. *)
Theorem predictions_begin_with_prompt (prompt : pystr) :
  In prompt notebook_prompts ->
  exists pre suf : pystr,
    (forall t, format prompt t = Ok (pre ++ t ++ suf))
    /\ forall (model : pystr -> nat -> pystr) (batch : Dataset) (column_name : column),
         generate_texts model batch column_name prompt
         = Ok (map (fun x => let p := pre ++ get_col column_name x ++ suf in
                             p ++ rstrip (model p 10)) batch).
Proof.
  intros Hp.
  destruct (notebook_prompt_ends prompt Hp) as (a & z & pre & suf & Ha & Hz & _ & _ & Hf).
  exists (a :: pre), (suf ++ [z]). split; [exact Hf|].
  intros model batch column_name.
  rewrite (generate_texts_ok model column_name prompt
             (fun t => (a :: pre) ++ t ++ (suf ++ [z])) batch Hf).
  f_equal. apply map_ext. intros x. cbv zeta.
  replace ((a :: pre) ++ get_col column_name x ++ suf ++ [z])
    with (a :: (pre ++ get_col column_name x ++ suf) ++ [z])
    by (simpl; now rewrite <- !app_assoc).
  now apply strip_around.
Qed.

Lemma predictions_begin_with_prompt_witness :
  exists pre suf : pystr,
    format task2_english_prompt (u "Mr Speaker") = Ok (pre ++ u "Mr Speaker" ++ suf)
    /\ generate_texts (fun _ _ => u " 1 ")
         [mkRow (u "tr01") (u "A") (u "F") (u "Sayin Baskan") (u "Mr Speaker") 1%Z]
         col_text_en task2_english_prompt
       = Ok [pre ++ u "Mr Speaker" ++ suf ++ u " 1"].
Proof.
  destruct (predictions_begin_with_prompt task2_english_prompt) as (pre & suf & Hf & Hg).
  - do 3 right. left. reflexivity.
  - exists pre, suf. split; [apply Hf|].
    rewrite Hg. simpl map. rewrite <- !app_assoc. reflexivity.
Defined.

(** ** The zero-shot path, unfolded *)

Lemma zero_shot_unfolded (model : pystr -> nat -> pystr) (test : Dataset)
    (column_name : column) (prompt : pystr) (fmt : pystr -> pystr) :
  (forall t, format prompt t = Ok (fmt t)) -> test <> [] ->
  let prompts := map (fun x => fmt (slice_to 500 (get_col column_name x))) test in
  let predictions := map (fun p => strip (p ++ model p 10)) prompts in
  zero_shot model test column_name prompt
  = Ok (predictions, process_predictions predictions).
Proof.
  intros Hf Hne prompts predictions. unfold zero_shot.
  rewrite (map_batched_ok _
             (fun x => let p := fmt (get_col column_name x) in
                       strip (p ++ model p 10)));
    [| lia | intros batch; now apply generate_texts_ok].
  assert (E : map (fun x => let p := fmt (get_col column_name x) in
                            strip (p ++ model p 10))
                  (limit_text_length test column_name) = predictions).
  { unfold predictions, prompts, limit_text_length. rewrite !map_map.
    apply map_ext. intros x. cbv zeta. now rewrite get_set_col. }
  destruct test as [|x test']; [congruence|].
  assert (Hds : exists y ys, limit_text_length (x :: test') column_name = y :: ys)
    by (now eexists; eexists).
  destruct Hds as (y & ys & Hds). rewrite Hds at 1.
  rewrite E. reflexivity.
Qed.

(** X7. Each prompt that the zero-shot path hands to the model is the
    template formatted with the first 500 code points of the row's text, so
    it is at most 500 code points longer than the template without its
    6-character placeholder; there is one prompt per row. *)
Theorem prompts_are_bounded (model : pystr -> nat -> pystr) (test : Dataset)
    (column_name : column) (prompt : pystr) :
  In prompt notebook_prompts -> test <> [] ->
  exists prompts : list pystr,
    Forall2 (fun x p => format prompt (slice_to 500 (get_col column_name x)) = Ok p)
            test prompts
    /\ Forall (fun p : pystr => length p <= length prompt - 6 + 500) prompts
    /\ exists binary,
         zero_shot model test column_name prompt
         = Ok (map (fun p => strip (p ++ model p 10)) prompts, binary).
Proof.
  intros Hp Hne.
  destruct (notebook_prompt_ends prompt Hp) as (a & z & pre & suf & _ & _ & _ & Hlen & Hf).
  exists (map (fun x => (a :: pre) ++ slice_to 500 (get_col column_name x) ++ (suf ++ [z]))
              test).
  split; [|split].
  - clear Hne. induction test as [|x test IH]; simpl; constructor; [apply Hf | exact IH].
  - apply Forall_map, Forall_forall. intros x _.
    rewrite Hlen, !length_app.
    pose proof (firstn_le_length 500 (get_col column_name x)) as Hle.
    unfold slice_to. rewrite length_app in *. lia.
  - eexists.
    apply (zero_shot_unfolded model test column_name prompt
             (fun t => (a :: pre) ++ t ++ (suf ++ [z])) Hf Hne).
Qed.

Lemma prompts_are_bounded_witness :
  exists prompts : list pystr,
    Forall (fun p : pystr => length p <= length task1_english_prompt - 6 + 500) prompts
    /\ exists binary,
         zero_shot (fun _ _ => u " 1")
           [mkRow (u "tr01") (u "A") (u "F") (u "Sayin Baskan") (u "Mr Speaker") 1%Z]
           col_text_en task1_english_prompt
         = Ok (map (fun p => strip (p ++ u " 1")) prompts, binary).
Proof.
  destruct (prompts_are_bounded (fun _ _ => u " 1")
              [mkRow (u "tr01") (u "A") (u "F") (u "Sayin Baskan") (u "Mr Speaker") 1%Z]
              col_text_en task1_english_prompt)
    as (prompts & _ & Hb & Hz).
  - right. left. reflexivity.
  - discriminate.
  - exists prompts. split; assumption.
Defined.

(** ** Stripping and the labels *)

Lemma lstrip_sub (c : char) (s : pystr) : In c (lstrip s) -> In c s.
Proof.
  induction s as [|b s IH]; simpl; [tauto|].
  destruct (isspace b); [intros H; right; now apply IH | tauto].
Qed.

Lemma strip_sub (c : char) (s : pystr) : In c (strip s) -> In c s.
Proof.
  unfold strip, rstrip. intros H.
  apply in_rev, lstrip_sub in H. apply in_rev in H. now apply lstrip_sub.
Qed.

Lemma str_in_strip (c : char) (s : pystr) :
  isspace c = false -> str_in [c] (strip s) = str_in [c] s.
Proof.
  intros Hc.
  destruct (str_in [c] s) eqn:E.
  - apply str_in_single. apply str_in_single in E. now apply strip_keeps.
  - apply str_in_single_false. apply str_in_single_false in E.
    intros H. apply E. now apply strip_sub.
Qed.

Lemma process_predictions_strip (predictions : list pystr) :
  process_predictions (map strip predictions) = process_predictions predictions.
Proof.
  induction predictions as [|s l IH]; [reflexivity|].
  simpl. change (u "0") with [ch "0"]. change (u "1") with [ch "1"].
  rewrite !str_in_strip by reflexivity. now rewrite IH.
Qed.

Lemma process_predictions_stripped {A : Type} (h : A -> pystr) (l : list A) :
  process_predictions (map (fun x => strip (h x)) l) = process_predictions (map h l).
Proof. now rewrite <- (map_map h strip), process_predictions_strip. Qed.

Lemma str_in_skip (c : char) (a b : pystr) :
  ~ In c a -> str_in [c] (a ++ b) = str_in [c] b.
Proof.
  intros Ha. destruct (str_in [c] b) eqn:E.
  - apply str_in_single. apply str_in_single in E. apply in_or_app. now right.
  - apply str_in_single_false. apply str_in_single_false in E.
    intros H. apply in_app_or in H. tauto.
Qed.

Lemma extract_after (a b : pystr) :
  ~ In (ch "0") a -> ~ In (ch "1") a ->
  process_predictions [a ++ b] = process_predictions [b].
Proof.
  intros N0 N1. cbn [process_predictions].
  change (u "0") with [ch "0"]. change (u "1") with [ch "1"].
  now rewrite !str_in_skip by assumption.
Qed.

(** X8. For a template with one [{text}] placeholder and no other
    brace, the zero-shot path returns for each row the stripped text "prompt
    followed by continuation" as its prediction, and the labels are those of
    the unstripped texts: stripping white space never changes a label. *)
Theorem labels_read_prompt_and_continuation (model : pystr -> nat -> pystr)
    (test : Dataset) (column_name : column) (pre suf : pystr) :
  ~ In lbrace pre -> ~ In rbrace pre -> ~ In lbrace suf -> ~ In rbrace suf ->
  test <> [] ->
  let generated := fun x : Row =>
    let p := pre ++ slice_to 500 (get_col column_name x) ++ suf in
    p ++ model p 10 in
  zero_shot model test column_name (pre ++ u "{text}" ++ suf)
  = Ok (map (fun x => strip (generated x)) test,
        process_predictions (map generated test)).
Proof.
  intros Hl Hr Hl' Hr' Hne generated.
  rewrite (zero_shot_unfolded model test column_name _ (fun t => pre ++ t ++ suf));
    [| intros t; now apply format_around_text | exact Hne].
  cbv zeta. rewrite !map_map, process_predictions_stripped. reflexivity.
Qed.

Lemma labels_read_prompt_and_continuation_witness :
  zero_shot (fun _ _ => u " 1 ")
    [mkRow (u "tr01") (u "A") (u "F") (u "Sayin Baskan") (u "Mr Speaker") 1%Z]
    col_text_en (u "Speech: " ++ u "{text}" ++ u " Answer:")
  = Ok ([u "Speech: Mr Speaker Answer: 1"], [Some 1%Z]).
Proof.
  apply (labels_read_prompt_and_continuation (fun _ _ => u " 1 ")
           [mkRow (u "tr01") (u "A") (u "F") (u "Sayin Baskan") (u "Mr Speaker") 1%Z]
           col_text_en (u "Speech: ") (u " Answer:"));
    try discriminate; vm_compute; intuition discriminate.
Defined.

(** X9. The row's own text is scanned for the answer too: with any
    template that has one [{text}] placeholder and no other brace, a row
    whose text holds the digit 0 among its first 500 code points is labelled
    0, whatever the template says around it and whatever the model
    appends. *)
Theorem digit_in_speech_forces_zero (model : pystr -> nat -> pystr)
    (test : Dataset) (column_name : column) (pre suf : pystr) (i : nat) (x : Row) :
  ~ In lbrace pre -> ~ In rbrace pre -> ~ In lbrace suf -> ~ In rbrace suf ->
  nth_error test i = Some x ->
  In (ch "0") (slice_to 500 (get_col column_name x)) ->
  exists predictions binary,
    zero_shot model test column_name (pre ++ u "{text}" ++ suf)
    = Ok (predictions, binary)
    /\ nth_error binary i = Some (Some 0%Z).
Proof.
  intros Hl Hr Hl' Hr' Hx H0.
  assert (Hne : test <> []) by (intros ->; destruct i; discriminate).
  rewrite (zero_shot_unfolded model test column_name _ (fun t => pre ++ t ++ suf));
    [| intros t; now apply format_around_text | exact Hne].
  cbv zeta. eexists. eexists. split; [reflexivity|].
  rewrite !map_map, process_predictions_stripped, process_predictions_nth.
  rewrite nth_error_map, Hx. cbn [option_map].
  rewrite extract_zero; [reflexivity|].
  apply in_or_app. left. apply in_or_app. right. apply in_or_app. now left.
Qed.

Lemma digit_in_speech_forces_zero_witness :
  exists predictions binary,
    zero_shot (fun _ _ => u " 1")
      [mkRow (u "tr01") (u "A") (u "F") (u "2020 yilinda") (u "In 2020") 1%Z]
      col_text_en (u "Speech: " ++ u "{text}" ++ u " Answer:")
    = Ok (predictions, binary)
    /\ nth_error binary 0 = Some (Some 0%Z).
Proof.
  apply (digit_in_speech_forces_zero (fun _ _ => u " 1")
           [mkRow (u "tr01") (u "A") (u "F") (u "2020 yilinda") (u "In 2020") 1%Z]
           col_text_en (u "Speech: ") (u " Answer:") 0
           (mkRow (u "tr01") (u "A") (u "F") (u "2020 yilinda") (u "In 2020") 1%Z));
    try reflexivity; vm_compute; intuition discriminate.
Defined.

(** X10. When neither the fixed text of the template nor the first 500
    code points of the row's text hold a 0 or a 1, the label of the row is
    the one read off the model's continuation alone. *)
Theorem clean_prompt_reads_continuation (model : pystr -> nat -> pystr)
    (test : Dataset) (column_name : column) (pre suf : pystr) (i : nat) (x : Row) :
  ~ In lbrace pre -> ~ In rbrace pre -> ~ In lbrace suf -> ~ In rbrace suf ->
  nth_error test i = Some x ->
  let p := pre ++ slice_to 500 (get_col column_name x) ++ suf in
  ~ In (ch "0") p -> ~ In (ch "1") p ->
  exists predictions binary l,
    zero_shot model test column_name (pre ++ u "{text}" ++ suf)
    = Ok (predictions, binary)
    /\ process_predictions [model p 10] = [l]
    /\ nth_error binary i = Some l.
Proof.
  intros Hl Hr Hl' Hr' Hx p N0 N1.
  assert (Hne : test <> []) by (intros ->; destruct i; discriminate).
  rewrite (zero_shot_unfolded model test column_name _ (fun t => pre ++ t ++ suf));
    [| intros t; now apply format_around_text | exact Hne].
  cbv zeta. eexists. eexists. eexists.
  split; [reflexivity|]. split; [reflexivity|].
  rewrite !map_map, process_predictions_stripped, process_predictions_nth.
  rewrite nth_error_map, Hx. cbn [option_map]. fold p.
  rewrite (extract_after p _ N0 N1). reflexivity.
Qed.

Lemma clean_prompt_reads_continuation_witness :
  exists predictions binary,
    zero_shot (fun _ _ => u " 1")
      [mkRow (u "tr01") (u "A") (u "F") (u "Sayin Baskan") (u "Mr Speaker") 1%Z]
      col_text_en (u "Speech: " ++ u "{text}" ++ u " Answer:")
    = Ok (predictions, binary)
    /\ nth_error binary 0 = Some (Some 1%Z).
Proof.
  destruct (clean_prompt_reads_continuation (fun _ _ => u " 1")
              [mkRow (u "tr01") (u "A") (u "F") (u "Sayin Baskan") (u "Mr Speaker") 1%Z]
              col_text_en (u "Speech: ") (u " Answer:") 0
              (mkRow (u "tr01") (u "A") (u "F") (u "Sayin Baskan") (u "Mr Speaker") 1%Z))
    as (predictions & binary & l & E & El & Hn);
    try reflexivity; try (vm_compute; intuition discriminate).
  exists predictions, binary. split; [exact E|].
  rewrite Hn. f_equal. vm_compute in El. now injection El as <-.
Defined.

(** ** The batches handed to [generate_texts] *)

Lemma range_last_start (stop step : nat) :
  0 < step -> forall k, k < (stop + step - 1) / step -> k * step < stop.
Proof.
  intros Hs k Hk.
  pose proof (Nat.div_mod_eq (stop + step - 1) step) as E.
  pose proof (Nat.mod_upper_bound (stop + step - 1) step) as B.
  nia.
Qed.

Lemma batches_nth {A : Type} (batch_size : nat) (ds : list A) (k : nat) (b : list A) :
  nth_error (batches batch_size ds) k = Some b ->
  k < (length ds + batch_size - 1) / batch_size
  /\ b = firstn batch_size (skipn (k * batch_size) ds).
Proof.
  unfold batches, range_step. rewrite map_map, nth_error_map.
  destruct (nth_error (seq 0 _) k) as [j|] eqn:E; simpl; [|discriminate].
  intros [= <-].
  assert (Hk : k < length (seq 0 ((length ds + batch_size - 1) / batch_size)))
    by (apply nth_error_Some; congruence).
  rewrite length_seq in Hk.
  apply (nth_error_nth _ _ 0) in E. rewrite seq_nth in E by exact Hk.
  simpl in E. subst j. auto.
Qed.

(** X11. [Dataset.map(batched=True, batch_size=n)] with [n > 0] cuts
    the dataset into [ceil(len / n)] batches: batch [k] is the rows from
    [k * n] up to [(k + 1) * n], every batch has between 1 and [n] rows, all
    but the last have exactly [n], and put end to end the batches are the
    dataset. *)
Theorem batches_shape {A : Type} (batch_size : nat) (ds : list A) :
  0 < batch_size ->
  concat (batches batch_size ds) = ds
  /\ length (batches batch_size ds) = (length ds + batch_size - 1) / batch_size
  /\ forall k b, nth_error (batches batch_size ds) k = Some b ->
       b = firstn batch_size (skipn (k * batch_size) ds)
       /\ 0 < length b <= batch_size
       /\ (S k < length (batches batch_size ds) -> length b = batch_size).
Proof.
  intros Hs.
  assert (Hlen : length (batches batch_size ds)
                 = (length ds + batch_size - 1) / batch_size).
  { unfold batches, range_step. now rewrite !length_map, length_seq. }
  split; [now apply concat_batches|]. split; [exact Hlen|].
  intros k b Hb. destruct (batches_nth batch_size ds k b Hb) as [Hk ->].
  split; [reflexivity|].
  pose proof (range_last_start (length ds) batch_size Hs k Hk) as Hstart.
  rewrite length_firstn, length_skipn. split; [lia|].
  rewrite Hlen. intros Hnext.
  pose proof (range_last_start (length ds) batch_size Hs (S k) Hnext) as Hn.
  simpl in Hn. lia.
Qed.

Lemma batches_shape_witness :
  map (@length nat) (batches 8 (seq 0 20)) = [8; 8; 4]
  /\ concat (batches 8 (seq 0 20)) = seq 0 20.
Proof.
  split; [reflexivity|].
  apply (batches_shape 8 (seq 0 20)). lia.
Defined.

(** ** The zero-shot accuracy *)

Lemma correct_all_zero (test : Dataset) :
  correct_predictions (map (fun _ => Some 0%Z) test) (map label test)
  = map (fun x => (0 =? label x)%Z) test.
Proof.
  unfold correct_predictions.
  induction test as [|x test IH]; simpl; [reflexivity | now rewrite IH].
Qed.

Lemma count_true_map {A : Type} (f : A -> bool) (l : list A) :
  count_occ bool_dec (map f l) true = length (filter f l).
Proof.
  induction l as [|x l IH]; simpl; [reflexivity|].
  destruct (f x); simpl.
  - destruct (bool_dec true true); [now rewrite IH | congruence].
  - destruct (bool_dec false true); [discriminate | exact IH].
Qed.

(** X12. With each of the four prompts of the notebooks, for every
    model, column and non-empty test table, the accuracy that the cell
    computes is the share of the rows labelled 0: it does not depend on the
    model. *)
Theorem zero_shot_accuracy_is_share_of_zero (model : pystr -> nat -> pystr)
    (test : Dataset) (column_name : column) (prompt : pystr) :
  In prompt notebook_prompts -> test <> [] ->
  zero_shot_cell model test column_name prompt
  = Ok (inject_Z (Z.of_nat (length (stratum 0 test)))
        / inject_Z (Z.of_nat (length test)))%Q.
Proof.
  intros Hp Hne.
  destruct (notebook_prompt_ends prompt Hp) as (a & z & pre & suf & _ & _ & H0 & _ & Hf).
  unfold zero_shot_cell.
  rewrite (zero_shot_unfolded model test column_name prompt
             (fun t => (a :: pre) ++ t ++ (suf ++ [z])) Hf Hne).
  cbv zeta. unfold bind. cbn [snd].
  rewrite map_map, process_predictions_all_zero.
  - unfold zero_shot_accuracy. rewrite correct_all_zero.
    unfold accuracy. rewrite length_map.
    destruct test as [|x test']; [congruence|].
    remember (x :: test') as test eqn:Et.
    assert (El : length test = S (length test')) by (now subst).
    rewrite El at 1. rewrite <- El.
    rewrite sum_bool_count, count_true_map.
    replace (filter (fun x0 : Row => (0 =? label x0)%Z) test) with (stratum 0 test);
      [reflexivity|].
    unfold stratum. apply filter_ext. intros y. apply Z.eqb_sym.
  - intros x. apply strip_keeps; [reflexivity|].
    apply in_or_app. left. apply in_or_app. left. now right.
Qed.

Lemma zero_shot_accuracy_is_share_of_zero_witness :
  zero_shot_cell (fun _ _ => u " 1")
    [mkRow (u "tr01") (u "A") (u "F") (u "Sayin Baskan") (u "Mr Speaker") 1%Z;
     mkRow (u "tr02") (u "B") (u "M") (u "Tesekkurler") (u "Thank you") 0%Z;
     mkRow (u "tr03") (u "C") (u "F") (u "Evet") (u "Yes") 1%Z]
    col_text task1_turkish_prompt
  = Ok (inject_Z 1 / inject_Z 3)%Q.
Proof.
  apply (zero_shot_accuracy_is_share_of_zero (fun _ _ => u " 1")
           [mkRow (u "tr01") (u "A") (u "F") (u "Sayin Baskan") (u "Mr Speaker") 1%Z;
            mkRow (u "tr02") (u "B") (u "M") (u "Tesekkurler") (u "Thank you") 0%Z;
            mkRow (u "tr03") (u "C") (u "F") (u "Evet") (u "Yes") 1%Z]
           col_text task1_turkish_prompt).
  - left. reflexivity.
  - discriminate.
Defined.

Lemma count_true_bounds (bs : list bool) :
  count_occ bool_dec bs true <= length bs
  /\ (count_occ bool_dec bs true = length bs <-> Forall (eq true) bs)
  /\ (count_occ bool_dec bs true = 0 <-> Forall (eq false) bs).
Proof.
  induction bs as [|b bs (IH1 & IH2 & IH3)]; simpl.
  - repeat split; auto.
  - destruct b; simpl.
    + destruct (bool_dec true true) as [_|N]; [|congruence].
      split; [lia|]. split; split.
      * intros H. constructor; [reflexivity|]. apply IH2. lia.
      * intros H. inversion H; subst. f_equal. now apply IH2.
      * discriminate.
      * intros H. inversion H; discriminate.
    + destruct (bool_dec false true) as [N|_]; [discriminate|].
      split; [lia|]. split; split.
      * intros H. lia.
      * intros H. inversion H; discriminate.
      * intros H. constructor; [reflexivity|]. now apply IH3.
      * intros H. inversion H; subst. now apply IH3.
Qed.

(** X13. On a non-empty list of comparisons [sum(correct) /
    len(correct)] is a number between 0 and 1; it is 1 exactly when every
    comparison is [True] and 0 exactly when every comparison is [False]. *)
Theorem accuracy_between_zero_and_one (correct : list bool) :
  correct <> [] ->
  exists q, accuracy correct = Ok q
    /\ (0 <= q)%Q /\ (q <= 1)%Q
    /\ ((q == 1)%Q <-> Forall (eq true) correct)
    /\ ((q == 0)%Q <-> Forall (eq false) correct).
Proof.
  intros Hne.
  destruct (count_true_bounds correct) as (Hle & Hall & Hnone).
  unfold accuracy. rewrite sum_bool_count.
  destruct correct as [|b bs]; [congruence|].
  remember (b :: bs) as correct eqn:Ec.
  assert (El : length correct = S (length bs)) by (now subst).
  rewrite El. eexists. split; [reflexivity|].
  set (k := count_occ bool_dec correct true) in *.
  rewrite <- Hall, <- Hnone, El.
  unfold Qle, Qeq, Qdiv, Qmult, Qinv, inject_Z. simpl Qnum. simpl Qden.
  cbn [Z.of_nat]. cbn [Qnum Qden].
  repeat split; intros; lia.
Qed.

Lemma accuracy_between_zero_and_one_witness :
  exists q, accuracy [true; false; true] = Ok q /\ (0 <= q)%Q /\ (q <= 1)%Q.
Proof.
  destruct (accuracy_between_zero_and_one [true; false; true]) as (q & E & H0 & H1 & _).
  - discriminate.
  - exists q. repeat split; assumption.
Defined.

(** ** The stratified split: what a successful call tells *)

Section SplitInversion.

Variable G : Generator.
Hypothesis G_lawful : lawful G.

(** A split that returned has passed every check, has left the global
    generator alone, and its two parts are the rows that lemma
    [stratified_split_returns] describes. *)
Lemma stratified_split_inversion (global global' : rng G)
    (data train test : Dataset) (f : Q) (seed : Z) :
  (0 < f)%Q -> (f < 1)%Q ->
  stratified_split G global data f seed = Ok (train, test, global') ->
  let n := length data in
  let y := map label data in
  let t := n_test_of f n in
  let r := n - t in
  let classes := np_unique Z.compare y in
  let counts := map (fun c => count_occ Z.eq_dec y c) classes in
  let cls := map (fun c => filter (fun i => (nth i y 0 =? c)%Z) (seq 0 (length y)))
                 classes in
  let n_i := fst (approximate_mode G counts r (RandomState G seed)) in
  let t_i := map (fun cn => fst cn - snd cn) (combine counts n_i) in
  (0 <= seed < 2 ^ 32)%Z /\ 0 < r /\ 0 < t /\ t <= n
  /\ Forall (fun c => 2 <= c) counts
  /\ length classes <= r /\ length classes <= t
  /\ global' = global
  /\ exists tr te : list nat,
       Forall2 (fun i x => nth_error data i = Some x) tr train
       /\ Forall2 (fun i x => nth_error data i = Some x) te test
       /\ Permutation (tr ++ te) (seq 0 n)
       /\ forall p : nat -> bool,
            Forall (fun rows => forall i, In i rows -> p i = p (hd 0 rows)) cls ->
            length (filter p tr)
            = list_sum (map (fun rn => if p (hd 0 (fst rn)) then snd rn else 0)
                            (combine cls n_i))
            /\ length (filter p te)
               = list_sum (map (fun rt => if p (hd 0 (fst rt)) then snd rt else 0)
                               (combine cls t_i)).
Proof.
  intros H0 H1 E n y t r classes counts cls n_i t_i.
  destruct (lt_dec 0 r) as [Hr|Hr],
    (Forall_dec (fun c => 2 <= c) (fun c => le_dec 2 c) counts) as [H2|H2],
    (le_dec (length classes) r) as [Hkr|Hkr],
    (le_dec (length classes) t) as [Hkt|Hkt],
    (Z_le_dec 0 seed) as [Hs0|Hs0], (Z_lt_dec seed (2 ^ 32)) as [Hs1|Hs1];
    try (destruct (stratified_split_raises G global data f seed H0 H1) as [e Ee];
         [fold n y t r classes counts; tauto | congruence]).
  destruct (stratified_split_returns G G_lawful global data f seed H0 H1 (conj Hs0 Hs1)
              Hr H2 Hkr Hkt) as (tr & te & train' & test' & E' & Ftr & Fte & P & Hcount).
  rewrite E' in E. injection E as <- <- <-.
  assert (Ht : 0 < t).
  { pose proof (classes_nonempty y) as Hc. fold classes in Hc.
    unfold y in Hc at 1. rewrite length_map in Hc. fold n in Hc. lia. }
  split; [lia|]. split; [exact Hr|]. split; [exact Ht|]. split; [unfold r in Hr; lia|].
  split; [exact H2|]. split; [exact Hkr|]. split; [exact Hkt|]. split; [reflexivity|].
  exists tr, te. repeat split; try assumption; apply Hcount; assumption.
Qed.

End SplitInversion.

Lemma map_snd_combine {A B : Type} (a : list A) (b : list B) :
  length a = length b -> map snd (combine a b) = b.
Proof.
  revert b. induction a as [|x a IH]; intros [|y b] H; simpl in *;
    try discriminate; [reflexivity|].
  f_equal. apply IH. lia.
Qed.

Lemma stratum_app (c : Z) (a b : Dataset) :
  stratum c (a ++ b) = stratum c a ++ stratum c b.
Proof. apply filter_app. Qed.

(** X14. A split that returns, for a test fraction [f] in (0,1) and a
    table of [n] rows, has exactly [n_test] test rows, the ceiling of the
    float product [f * n], and [n - n_test] train rows, and neither part
    is empty. *)
Theorem split_sizes (G : Generator) (global global' : rng G)
    (data train test : Dataset) (f : Q) (seed : Z) :
  lawful G ->
  (0 < f)%Q -> (f < 1)%Q ->
  stratified_split G global data f seed = Ok (train, test, global') ->
  length test = n_test_of f (length data)
  /\ length train = length data - n_test_of f (length data)
  /\ 0 < length train /\ 0 < length test.
Proof.
  intros HG H0 H1 E.
  pose proof (stratified_split_inversion G HG global global' data train test f seed
                H0 H1 E) as Inv.
  set (n := length data) in *. set (y := map label data) in *.
  set (t := n_test_of f n) in *. set (r := n - t) in *.
  set (classes := np_unique Z.compare y) in *.
  set (counts := map (fun c => count_occ Z.eq_dec y c) classes) in *.
  set (cls := map (fun c => filter (fun i => (nth i y 0 =? c)%Z) (seq 0 (length y)))
                  classes) in *.
  set (n_i := fst (approximate_mode G counts r (RandomState G seed))) in *.
  cbv zeta in Inv.
  destruct Inv as (_ & Hr & Ht & Htn & H2 & _ & _ & _ & tr & te & Ftr & Fte & P & Hcount).
  assert (Hy : length y = n) by apply length_map.
  assert (HN : list_sum counts = n) by (rewrite <- Hy; apply class_counts_sum).
  destruct (train_shares_fit G HG y r (RandomState G seed)) as [Hs Hle]; [lia|].
  fold classes counts n_i in Hs, Hle.
  destruct (approximate_mode_spec G HG counts r (RandomState G seed)) as (Hl & _ & _);
    [lia|].
  fold n_i in Hl.
  destruct (Hcount (fun _ => true)) as [T _].
  { apply Forall_forall. intros rows _ i _. reflexivity. }
  rewrite forallb_filter_id in T by (apply forallb_forall; reflexivity).
  assert (Hm : map (fun rn : list nat * nat => snd rn) (combine cls n_i) = n_i).
  { apply map_snd_combine. rewrite Hl. unfold cls, counts. now rewrite !length_map. }
  change (length tr
          = list_sum (map (fun rn : list nat * nat => snd rn) (combine cls n_i))) in T.
  rewrite Hm, Hs in T.
  assert (Ltr : length tr + length te = n).
  { rewrite <- length_app, (Permutation_length P), length_seq. reflexivity. }
  rewrite <- (Forall2_length Fte), <- (Forall2_length Ftr).
  repeat split; lia.
Qed.

Lemma split_sizes_witness :
  exists train test : Dataset,
    stratified_split rotating 7 hundred_rows seven_percent 42 = Ok (train, test, 7)
    /\ length test = 8 /\ length train = 92.
Proof.
  assert (E : exists train test : Dataset,
            stratified_split rotating 7 hundred_rows seven_percent 42
            = Ok (train, test, 7))
    by (eexists; eexists; vm_compute; reflexivity).
  destruct E as (train & test & E).
  exists train, test. split; [exact E|].
  destruct (split_sizes rotating 7 7 hundred_rows train test seven_percent 42
              rotating_lawful eq_refl eq_refl E) as (Ht & Hr & _).
  assert (N : n_test_of seven_percent (length hundred_rows) = 8)
    by (vm_compute; reflexivity).
  assert (L : length hundred_rows = 100) by reflexivity.
  rewrite N in Ht, Hr. rewrite L in Hr.
  split; [exact Ht | exact Hr].
Defined.

(** ** The stratified split: the share of each label *)

Section ApproximateModeBounds.

Variable G : Generator.
Hypothesis G_lawful : lawful G.

(** No class gets less than its floored share. *)
Lemma approximate_mode_at_least (counts : list nat) (n : nat) (r : rng G) :
  0 < list_sum counts ->
  forall j, j < length counts ->
    nth j counts 0 * n / list_sum counts
    <= nth j (fst (approximate_mode G counts n r)) 0.
Proof.
  intros HN. unfold approximate_mode.
  set (N := list_sum counts).
  set (continuous := map _ counts).
  assert (Ef : map (fun q => Z.to_nat (Qfloor q)) continuous
               = map (fun c => c * n / N) counts).
  { unfold continuous. rewrite map_map. apply map_ext. intros c.
    now apply floor_share. }
  rewrite Ef.
  set (floored := map (fun c => c * n / N) counts) in *.
  assert (Hnth : forall j, j < length counts ->
                   nth j floored 0 = nth j counts 0 * n / N).
  { intros j Hj. unfold floored.
    rewrite (nth_indep _ 0 ((fun c => c * n / N) 0)) by now rewrite length_map.
    now rewrite (map_nth (fun c => c * n / N)). }
  destruct (0 <? n - list_sum floored) eqn:Eneed; cbv zeta.
  - set (remainder := map _ continuous).
    assert (Hlen : length floored = length remainder).
    { unfold floored, remainder, continuous. now rewrite !length_map. }
    destruct (add_by_remainder_spec G G_lawful _ remainder
                (remainders_distinct remainder) floored
                (n - list_sum floored) r Hlen) as (_ & _ & Hn).
    intros j Hj. rewrite <- (Hnth j Hj).
    destruct (Hn j) as [E|[E _]]; rewrite E; lia.
  - intros j Hj. simpl. rewrite (Hnth j Hj). lia.
Qed.

End ApproximateModeBounds.

Lemma nth_Forall2 {A B : Type} (R : A -> B -> Prop) (da : A) (db : B)
    (a : list A) (b : list B) :
  length a = length b ->
  (forall j, j < length a -> R (nth j a da) (nth j b db)) ->
  Forall2 R a b.
Proof.
  revert b. induction a as [|x a IH]; intros [|y b] Hl H; simpl in Hl;
    try discriminate; constructor.
  - apply (H 0). simpl. lia.
  - apply IH; [lia|]. intros j Hj. apply (H (S j)). simpl. lia.
Qed.

Lemma Forall2_map_left {A B C : Type} (R : B -> C -> Prop) (f : A -> B)
    (l : list A) (l' : list C) :
  Forall2 R (map f l) l' -> Forall2 (fun x y => R (f x) y) l l'.
Proof.
  revert l'. induction l as [|x l IH]; intros l' H; inversion H; subst;
    constructor; auto.
Qed.

(** The rows one label gets, read off the shares of all the labels. *)
Lemma share_of_label (c : Z) (g : Z -> nat) (classes : list Z) (n_i : list nat) :
  NoDup classes ->
  Forall2 (fun c' n => g c' <= n <= S (g c')) classes n_i ->
  let s := list_sum (map (fun cn : Z * nat => if (fst cn =? c)%Z then snd cn else 0)
                         (combine classes n_i)) in
  (In c classes -> g c <= s <= S (g c)) /\ (~ In c classes -> s = 0).
Proof.
  intros Hnd H. induction H as [|c' n classes n_i Hb _ IH]; simpl.
  - split; [tauto | reflexivity].
  - inversion Hnd as [|? ? Hc' Hnd']; subst.
    destruct (IH Hnd') as [IHin IHout].
    destruct (Z.eqb_spec c' c) as [->|Hne].
    + split; [|intros H; exfalso; apply H; now left].
      intros _. rewrite (IHout Hc'). lia.
    + split.
      * intros [E|Hin]; [congruence|]. simpl. now apply IHin.
      * intros H. simpl. apply IHout. intros Hin. apply H. now right.
Qed.

Lemma sum_by_class (p : nat -> bool) (rows : Z -> list nat) (q : Z -> bool)
    (classes : list Z) (n_i : list nat) :
  (forall c', In c' classes -> p (hd 0 (rows c')) = q c') ->
  list_sum (map (fun rn : list nat * nat => if p (hd 0 (fst rn)) then snd rn else 0)
                (combine (map rows classes) n_i))
  = list_sum (map (fun cn : Z * nat => if q (fst cn) then snd cn else 0)
                  (combine classes n_i)).
Proof.
  revert n_i. induction classes as [|c' classes IH]; intros [|n n_i] H;
    try reflexivity.
  simpl. rewrite (H c' (or_introl eq_refl)), IH; [reflexivity|].
  intros c'' Hc. apply H. now right.
Qed.

Section TrainShare.

Variable G : Generator.
Hypothesis G_lawful : lawful G.

(** The train rows of one label: its floored share of the train size, or
    one more. *)
Lemma train_share_bounds (global global' : rng G) (data train test : Dataset)
    (f : Q) (seed : Z) (c : Z) :
  (0 < f)%Q -> (f < 1)%Q ->
  stratified_split G global data f seed = Ok (train, test, global') ->
  let n := length data in
  let r := n - n_test_of f n in
  let k := count_occ Z.eq_dec (map label data) c in
  0 < r /\ r < n
  /\ (In c (map label data) -> 2 <= k)
  /\ k * r / n <= length (stratum c train) <= S (k * r / n).
Proof.
  intros H0 H1 E n r k.
  pose proof (stratified_split_inversion G G_lawful global global' data train test
                f seed H0 H1 E) as Inv.
  cbv zeta in Inv. fold n in Inv. fold r in Inv.
  set (y := map label data) in *.
  set (classes := np_unique Z.compare y) in *.
  set (counts := map (fun c => count_occ Z.eq_dec y c) classes) in *.
  set (rows := fun c' => filter (fun i => (nth i y 0 =? c')%Z) (seq 0 (length y))).
  set (n_i := fst (approximate_mode G counts r (RandomState G seed))) in *.
  destruct Inv as (_ & Hr & Ht & Htn & H2 & _ & _ & _ & tr & te & Ftr & _ & _ & Hcount).
  assert (Hy : length y = n) by apply length_map.
  assert (HN : list_sum counts = n) by (rewrite <- Hy; apply class_counts_sum).
  assert (Hk2 : In c y -> 2 <= k).
  { intros Hc. apply classes_in in Hc. unfold counts in H2.
    rewrite Forall_map, Forall_forall in H2. now apply H2. }
  split; [exact Hr|]. split; [lia|]. split; [exact Hk2|].
  destruct (approximate_mode_spec G G_lawful counts r (RandomState G seed))
    as (Hl & _ & Hup); [lia|].
  pose proof (approximate_mode_at_least G G_lawful counts r (RandomState G seed)
                ltac:(lia)) as Hlo.
  fold n_i in Hl, Hup, Hlo. rewrite HN in Hup, Hlo.
  assert (Hshares : Forall2 (fun c' m => count_occ Z.eq_dec y c' * r / n <= m
                                         <= S (count_occ Z.eq_dec y c' * r / n))
                            classes n_i).
  { apply (Forall2_map_left (fun cnt m => cnt * r / n <= m <= S (cnt * r / n))).
    fold counts. apply (nth_Forall2 _ 0 0); [now rewrite Hl|].
    intros j Hj. split; [now apply Hlo | now apply Hup]. }
  destruct (share_of_label c (fun c' => count_occ Z.eq_dec y c' * r / n) classes n_i
              (classes_NoDup y) Hshares) as [Hin Hout].
  rewrite (rows_label_count data tr train c Ftr). fold y.
  destruct (Hcount (fun i => (nth i y 0 =? c)%Z)) as [T _].
  { apply Forall_map, Forall_forall. intros c' Hc' i Hi.
    destruct (class_constant y c' c) as [A B].
    - apply (count_occ_In Z.eq_dec). now apply classes_in.
    - rewrite B. now apply A. }
  rewrite T. cbv beta.
  change (map (fun c0 => filter (fun i => (nth i y 0 =? c0)%Z) (seq 0 (length y))) classes)
    with (map rows classes).
  rewrite (sum_by_class (fun i => (nth i y 0 =? c)%Z) rows (fun c' => (c' =? c)%Z)
             classes n_i).
  - destruct (in_dec Z.eq_dec c classes) as [Hc|Hc].
    + now apply Hin.
    + rewrite (Hout Hc).
      assert (Ek : k = 0).
      { apply (count_occ_not_In Z.eq_dec). intros H. apply Hc. now apply classes_in. }
      rewrite Ek, Nat.mul_0_l, Nat.Div0.div_0_l. lia.
  - intros c' Hc'. destruct (class_constant y c' c) as [_ B]; [|exact B].
    apply (count_occ_In Z.eq_dec). now apply classes_in.
Qed.

End TrainShare.

(** X15. A split that returns is stratified, whatever the labels and
    however many there are: the train rows with a given label number the
    label's share of the train size, [k * n_train / n] rounded down, or one
    more, and the test part holds the label's other rows; the train size
    [n_train] is [n] less the ceiling of the float product [f * n]. *)
Theorem split_is_stratified (G : Generator) (global global' : rng G)
    (data train test : Dataset) (f : Q) (seed : Z) (c : Z) :
  lawful G ->
  (0 < f)%Q -> (f < 1)%Q ->
  stratified_split G global data f seed = Ok (train, test, global') ->
  let n := length data in
  let n_train := n - n_test_of f n in
  let k := length (stratum c data) in
  k * n_train / n <= length (stratum c train) <= k * n_train / n + 1
  /\ length (stratum c train) + length (stratum c test) = k.
Proof.
  intros HG H0 H1 E n n_train k.
  destruct (train_share_bounds G HG global global' data train test f seed c H0 H1 E)
    as (_ & _ & _ & Hb).
  fold n n_train in Hb. unfold k. rewrite stratum_count. split; [lia|].
  destruct (stratified_split_inversion G HG global global' data train test f seed
              H0 H1 E)
    as (_ & _ & _ & _ & _ & _ & _ & _ & tr & te & Ftr & Fte & P & _).
  pose proof (rows_of_partition data tr te train test Ftr Fte P) as Pd.
  rewrite <- stratum_count, <- length_app, <- stratum_app.
  unfold stratum. now apply filter_length_perm.
Qed.

Lemma split_is_stratified_witness :
  exists train test : Dataset,
    stratified_split rotating 7 skewed_rows seven_percent 42 = Ok (train, test, 7)
    /\ 95 * 92 / 100 <= length (stratum 0 train) <= 95 * 92 / 100 + 1
    /\ length (stratum 0 train) + length (stratum 0 test) = 95.
Proof.
  assert (E : exists train test : Dataset,
            stratified_split rotating 7 skewed_rows seven_percent 42
            = Ok (train, test, 7))
    by (eexists; eexists; vm_compute; reflexivity).
  destruct E as (train & test & E).
  exists train, test. split; [exact E|].
  pose proof (split_is_stratified rotating 7 7 skewed_rows train test seven_percent 42
                0%Z rotating_lawful eq_refl eq_refl E) as H.
  cbv zeta in H.
  assert (N : n_test_of seven_percent (length skewed_rows) = 8)
    by (vm_compute; reflexivity).
  assert (L : length skewed_rows = 100) by reflexivity.
  assert (S0 : length (stratum 0 skewed_rows) = 95) by (vm_compute; reflexivity).
  rewrite N, L, S0 in H. exact H.
Defined.

Lemma ratio_below_eighth : (binary64 TRAIN_TEST_SPLIT_RATIO <= 1 # 8)%Q.
Proof. vm_compute. discriminate. Qed.

(** At the notebooks' test fraction the test part is never more than half
    of the table. *)
Lemma default_test_share (n : nat) :
  2 <= n -> 2 * n_test_of TRAIN_TEST_SPLIT_RATIO n <= n.
Proof.
  intros Hn.
  destruct (le_lt_dec 4 n) as [H4|H4].
  2:{ assert (Hc : n = 2 \/ n = 3) by lia.
      destruct Hc as [-> | ->]; vm_compute; lia. }
  set (j := Z.log2 (Z.of_nat n)).
  destruct (Z.log2_spec (Z.of_nat n) ltac:(lia)) as [L1 L2]. fold j in L1, L2.
  assert (Hj : (2 <= j)%Z).
  { unfold j. change 2%Z with (Z.log2 4). apply Z.log2_le_mono. lia. }
  set (x := binary64 (float_of_int (Z.of_nat n))).
  assert (F1 : (x <= inject_Z (2 ^ (j + 1)))%Q).
  { unfold x, float_of_int. apply binary64_below_power; [lia|].
    apply binary64_below_power; [lia|]. rewrite <- Zle_Qle.
    replace (j + 1)%Z with (Z.succ j) by lia. lia. }
  assert (F0 : (0 <= x)%Q).
  { unfold x, float_of_int. apply binary64_nonneg, binary64_nonneg.
    change 0%Q with (inject_Z 0). rewrite <- Zle_Qle. lia. }
  assert (E8 : (2 ^ (j + 1) = 8 * 2 ^ (j - 2))%Z).
  { change 8%Z with (2 ^ 3)%Z. rewrite <- Z.pow_add_r by lia. f_equal. lia. }
  assert (F2 : (binary64 TRAIN_TEST_SPLIT_RATIO * x <= inject_Z (2 ^ (j - 2)))%Q).
  { apply Qle_trans with ((1 # 8) * x)%Q.
    - apply Qmult_le_compat_r; [exact ratio_below_eighth | exact F0].
    - apply Qle_trans with ((1 # 8) * inject_Z (2 ^ (j + 1)))%Q.
      + apply Qmult_le_l; [reflexivity | exact F1].
      + rewrite E8. generalize (2 ^ (j - 2))%Z. intros X.
        unfold Qle, Qmult, inject_Z. cbn [Qnum Qden].
        change (Z.pos (8 * 1)) with 8%Z. lia. }
  apply binary64_below_power in F2; [|lia].
  apply Qceiling_resp_le in F2. rewrite Qceiling_Z in F2.
  unfold n_test_of, float_mul. fold x.
  assert (E2 : (2 ^ j = 4 * 2 ^ (j - 2))%Z).
  { change 4%Z with (2 ^ 2)%Z. rewrite <- Z.pow_add_r by lia. f_equal. lia. }
  assert (P : (0 < 2 ^ (j - 2))%Z) by (apply Z.pow_pos_nonneg; lia).
  lia.
Qed.

(** X16. At the default test fraction 0.1 the train part of a split
    that returns holds every label of the table (the test part need not:
    a label with few rows can be missing from it). *)
Theorem train_keeps_every_label (G : Generator) (global global' : rng G)
    (data train test : Dataset) (seed : Z) :
  lawful G ->
  stratified_split G global data TRAIN_TEST_SPLIT_RATIO seed = Ok (train, test, global') ->
  forall c, In c (map label data) -> In c (map label train).
Proof.
  intros HG E c Hc.
  destruct (train_share_bounds G HG global global' data train test
              TRAIN_TEST_SPLIT_RATIO seed c eq_refl eq_refl E)
    as (Hr & Hrn & Hk & Hlo & _).
  specialize (Hk Hc).
  set (n := length data) in *.
  set (k := count_occ Z.eq_dec (map label data) c) in *.
  set (t := n_test_of TRAIN_TEST_SPLIT_RATIO n) in *.
  assert (Hkn : k <= n).
  { unfold k, n. rewrite <- (length_map label data). apply count_occ_bound. }
  pose proof (default_test_share n ltac:(lia)) as Hhalf. fold t in Hhalf.
  assert (H1 : 1 <= k * (n - t) / n).
  { apply Nat.div_le_lower_bound; [lia|]. nia. }
  assert (Hpos : 0 < length (stratum c train)) by lia.
  destruct (stratum c train) as [|x l] eqn:Es; [simpl in Hpos; lia|].
  assert (Hx : In x (stratum c train)) by (rewrite Es; now left).
  unfold stratum in Hx. apply filter_In in Hx. destruct Hx as [Hx Hl].
  apply Z.eqb_eq in Hl. rewrite <- Hl. now apply in_map.
Qed.

Lemma train_keeps_every_label_witness :
  exists train test : Dataset,
    stratified_split rotating 0 lopsided_rows TRAIN_TEST_SPLIT_RATIO RANDOM_STATE
    = Ok (train, test, 0)
    /\ In 1%Z (map label train) /\ ~ In 1%Z (map label test).
Proof.
  eexists. eexists. split; [vm_compute; reflexivity|]. split.
  - apply (train_keeps_every_label rotating 0 0 lopsided_rows _ _ RANDOM_STATE
             rotating_lawful ltac:(vm_compute; reflexivity)).
    vm_compute. tauto.
  - vm_compute. intuition discriminate.
Defined.

(** ** The stratified split: arguments it rejects *)

Lemma split_rejects_fraction (G : Generator) (global : rng G) (data : Dataset)
    (f : Q) (seed : Z) :
  (f <= 0)%Q \/ (1 <= f)%Q ->
  exists msg, stratified_split G global data f seed = Raise (ValueError msg).
Proof.
  intros Hf. unfold stratified_split, train_test_split, validate_shuffle_split.
  assert (E : out_of_range (Z.of_nat (length data)) (size_float f) = true).
  { unfold out_of_range. apply orb_true_iff.
    destruct Hf as [H|H]; [left | right]; now apply Qle_bool_iff. }
  rewrite E. eexists. reflexivity.
Qed.

(** X17. Whatever the table, the split raises a [ValueError] when the
    test fraction, a float, is not strictly between 0 and 1, and when the
    seed is negative or is [2**32] or more. *)
Theorem split_rejects_bad_arguments (G : Generator) (global : rng G)
    (data : Dataset) (f : Q) (seed : Z) :
  (f <= 0)%Q \/ (1 <= f)%Q \/ (seed < 0)%Z \/ (2 ^ 32 <= seed)%Z ->
  exists msg, stratified_split G global data f seed = Raise (ValueError msg).
Proof.
  intros H.
  destruct (Qlt_le_dec 0 f) as [H0|H0];
    [|apply split_rejects_fraction; now left].
  destruct (Qlt_le_dec f 1) as [H1|H1];
    [|apply split_rejects_fraction; now right].
  apply stratified_split_raises; try assumption.
  intros (_ & _ & _ & _ & Hs).
  destruct H as [H|[H|[H|H]]].
  - exact (Qlt_not_le _ _ H0 H).
  - exact (Qlt_not_le _ _ H1 H).
  - lia.
  - lia.
Qed.

Lemma split_rejects_bad_arguments_witness :
  (exists msg, stratified_split rotating 0 demo_data 1 42 = Raise (ValueError msg))
  /\ (exists msg, stratified_split rotating 0 demo_data (1 # 10) (-1)
                  = Raise (ValueError msg)).
Proof.
  split.
  - apply (split_rejects_bad_arguments rotating 0 demo_data 1 42).
    right. left. discriminate.
  - apply (split_rejects_bad_arguments rotating 0 demo_data (1 # 10) (-1)).
    right. right. left. lia.
Defined.

(** ** The stratified split: the rows matter only through their labels *)

Lemma iloc_same_shape {A B : Type} (d1 : list A) (d2 : list B) (idx : list nat) :
  length d1 = length d2 ->
  match iloc d1 idx, iloc d2 idx with
  | Ok _, Ok _ => True
  | Raise e1, Raise e2 => e1 = e2
  | _, _ => False
  end.
Proof.
  intros Hl. unfold iloc. induction idx as [|i idx IH]; simpl; [exact I|].
  destruct (nth_error d1 i) as [x|] eqn:E1, (nth_error d2 i) as [z|] eqn:E2; simpl.
  - destruct (mapM _ idx), (mapM _ idx); simpl; auto.
  - apply nth_error_None in E2.
    assert (i < length d1) by (apply nth_error_Some; congruence). lia.
  - apply nth_error_None in E1.
    assert (i < length d2) by (apply nth_error_Some; congruence). lia.
  - reflexivity.
Qed.

(** X18. Which rows go to the train part and which to the test part
    depends on the table only through its label column: two tables with the
    same labels, row for row, are split at the same positions (or fail with
    the same error), whatever their other columns hold. *)
Theorem split_depends_on_labels_only (G : Generator) (global : rng G)
    (d1 d2 : Dataset) (f : Q) (seed : Z) :
  map label d1 = map label d2 ->
  match stratified_split G global d1 f seed, stratified_split G global d2 f seed with
  | Ok (train1, test1, g1), Ok (train2, test2, g2) =>
      g1 = g2
      /\ exists tr te : list nat,
           iloc d1 tr = Ok train1 /\ iloc d2 tr = Ok train2
           /\ iloc d1 te = Ok test1 /\ iloc d2 te = Ok test2
  | Raise e1, Raise e2 => e1 = e2
  | _, _ => False
  end.
Proof.
  intros Hy.
  assert (Hl : length d1 = length d2).
  { rewrite <- (length_map label d1), Hy. apply length_map. }
  unfold stratified_split, train_test_split. rewrite <- Hy, <- Hl.
  destruct (validate_shuffle_split _ _ _ _) as [sizes|e]; [|reflexivity].
  simpl bind. destruct (negb _); [reflexivity|].
  destruct (stratified_shuffle_split G global _ _ _ _ _) as [[[tr te] g]|e];
    [|reflexivity].
  simpl bind. cbv beta iota.
  pose proof (iloc_same_shape d1 d2 tr Hl) as Htr.
  pose proof (iloc_same_shape d1 d2 te Hl) as Hte.
  destruct (iloc d1 tr) as [train1|e1] eqn:E1, (iloc d2 tr) as [train2|e2] eqn:E2;
    simpl bind; try contradiction; [|exact Htr].
  destruct (iloc d1 te) as [test1|e1] eqn:E3, (iloc d2 te) as [test2|e2] eqn:E4;
    simpl bind; try contradiction; [|exact Hte].
  split; [reflexivity|]. exists tr, te. auto.
Qed.

Lemma split_depends_on_labels_only_witness :
  match stratified_split rotating 0 demo_data (1 # 10) 42,
        stratified_split rotating 0
          (map (fun x => set_col col_text (u "another speech") x) demo_data)
          (1 # 10) 42 with
  | Ok (train1, test1, g1), Ok (train2, test2, g2) =>
      g1 = g2
      /\ exists tr te : list nat,
           iloc demo_data tr = Ok train1
           /\ iloc (map (fun x => set_col col_text (u "another speech") x) demo_data) tr
              = Ok train2
           /\ iloc demo_data te = Ok test1
           /\ iloc (map (fun x => set_col col_text (u "another speech") x) demo_data) te
              = Ok test2
  | Raise e1, Raise e2 => e1 = e2
  | _, _ => False
  end.
Proof.
  apply (split_depends_on_labels_only rotating 0 demo_data
           (map (fun x => set_col col_text (u "another speech") x) demo_data)
           (1 # 10) 42).
  reflexivity.
Defined.

(** ** The trainer: the last checkpoint *)

(** X19. When the output directory holds no checkpoint of a step beyond
    [3 * steps_per_epoch] as training starts, as when it is empty, then
    with either release and whichever epoch is retained as the best, the
    checkpoint written after the third epoch, at step
    [3 * steps_per_epoch] and with the weights of three epochs of training,
    is still on disk when [train_model] returns, next to the checkpoint of
    the model that is returned. *)
Theorem final_checkpoint_is_kept (W : Type) (train_epoch : nat -> W -> W)
    (eval_loss : W -> Q) (steps_per_epoch : nat) (version : release)
    (output : string) (existing : list (checkpoint W)) (model0 : W) :
  0 < steps_per_epoch ->
  distinct_steps W existing ->
  Forall (fun c => fst c <= 3 * steps_per_epoch) existing ->
  exists s,
    train_model W train_epoch eval_loss steps_per_epoch version output existing model0
    = Ok (model W s, eval_loss (model W s), s)
    /\ global_step W s = 3 * steps_per_epoch
    /\ In (3 * steps_per_epoch, train_epoch 3 (train_epoch 2 (train_epoch 1 model0)))
          (disk W s)
    /\ exists step, In (step, model W s) (disk W s).
Proof.
  intros Hsp ND Hall.
  destruct (notebook_epochs W train_epoch eval_loss steps_per_epoch version output
              existing model0 3 Hsp ND ltac:(lia))
    as (s3 & E & K & ND3 & _ & G & M & _ & _ & N).
  specialize (N Hall). rewrite G, M in N. simpl in N.
  destruct (load_best_model_kept W eval_loss s3 ND3 K)
    as (Ld & Lg & _ & _ & Hdisk & _).
  exists (load_best_model W s3).
  split; [|split; [|split]].
  - unfold train_model, train.
    change (post_init (training_args output)) with (Ok (training_args_checked output)).
    cbn [bind]. change (num_train_epochs (training_args_checked output)) with 3.
    rewrite E. cbn [bind].
    change (load_best_model_at_end (training_args_checked output)) with true.
    cbv iota. reflexivity.
  - rewrite Lg. exact G.
  - rewrite Ld. exact N.
  - exact Hdisk.
Qed.

Lemma final_checkpoint_is_kept_witness :
  exists s : TrainerState nat,
    train_model nat demo_epoch demo_loss 908 v4_46_to_4_50 "./results_task1"
      [(908, 9); (1816, 9)] 0
    = Ok (model nat s, demo_loss (model nat s), s)
    /\ global_step nat s = 3 * 908
    /\ In (3 * 908, demo_epoch 3 (demo_epoch 2 (demo_epoch 1 0))) (disk nat s).
Proof.
  destruct (final_checkpoint_is_kept nat demo_epoch demo_loss 908 v4_46_to_4_50
              "./results_task1" [(908, 9); (1816, 9)] 0 ltac:(lia))
    as (s & E & Hg & Hin & _).
  - repeat constructor; simpl; intuition discriminate.
  - repeat constructor; simpl; lia.
  - exists s. split; [exact E|]. split; [exact Hg | exact Hin].
Defined.

(** Checkpoints of a longer run that were left in the output directory
    push the last checkpoint out: next to [checkpoint-3632] and
    [checkpoint-4540] the checkpoint of the third epoch is deleted as soon
    as it is written. *)
Lemma leftover_checkpoints_evict_the_last :
  forall version : release,
  exists s : TrainerState nat,
    train_model nat demo_epoch demo_loss 908 version "./results_task1"
      [(3632, 0); (4540, 0)] 0
    = Ok (3, demo_loss 3, s)
    /\ map fst (disk nat s) = [4540; 1816]
    /\ In (Deleted 2724) (log nat s).
Proof.
  intros [|]; eexists; vm_compute; (split; [reflexivity|]); (split; [reflexivity|]);
    tauto.
Qed.
